(** * TDL language engine: lexer, parser and validator

    A shallow embedding of the engine of the TDL configuration editor
    ([src/engine/lexer.ts], [src/engine/parser.ts], [src/engine/validator.ts],
    [src/engine/types.ts] and the tables of [src/specs/link16]) together with
    the properties of its specification that concern these modules.

    Conventions of the embedding:
    - a JavaScript [number] is an IEEE 754 binary64 value, Rocq's primitive
      [float]; the conversions between numbers and strings that the
      ECMAScript runtime provides ([Number], [parseFloat], template
      interpolation of a number) are not code of the engine and are section
      variables;
    - a JavaScript string is a [string] (a sequence of code units; the engine
      classifies characters by comparisons with ASCII characters only);
    - the integers of a source span are in [Z], cursors and indices in [nat];
    - an array that a function fills with [push] is a list extended on the
      right, threaded through the function as explicit state;
    - a [while] loop that walks a cursor takes an explicit [fuel]; the
      theorems show the fuel that suffices. *)

From Stdlib Require Import ZArith Lia PrimFloat FloatOps Uint63 Ascii.
From stdpp Require Import base list strings gmap pretty.

Local Open Scope Z_scope.

(* ================================================================== *)
(** * Data model ([types.ts]) *)
(* ================================================================== *)

(** [SourceSpan]: 1-based line and column, 0-based offset, length. *)
Record SourceSpan : Type := mkSpan {
  sp_line : Z;
  sp_column : Z;
  sp_offset : Z;
  sp_length : Z
}.

#[global] Instance SourceSpan_eq_dec : EqDecision SourceSpan.
Proof. solve_decision. Defined.

Inductive TokenType : Type :=
  | TString | TNumber | TPercent | TDuration | TBoolean | THexNumber
  | TKeyword | TIdentifier | TJMessage
  | TLBrace | TRBrace | TLBracket | TRBracket | TColon | TComma
  | TGreaterThanOrEqual | TLessThanOrEqual | TGreaterThan | TLessThan
  | TEqualEqual | TNotEqual
  | TComment | TWhitespace | TNewline
  | TEOF | TUnknown.

#[global] Instance TokenType_eq_dec : EqDecision TokenType.
Proof. solve_decision. Defined.

(** The string value of each member of the [TokenType] enum. *)
Definition TokenType_name (t : TokenType) : string :=
  match t with
  | TString => "String" | TNumber => "Number" | TPercent => "Percent"
  | TDuration => "Duration" | TBoolean => "Boolean" | THexNumber => "HexNumber"
  | TKeyword => "Keyword" | TIdentifier => "Identifier" | TJMessage => "JMessage"
  | TLBrace => "LBrace" | TRBrace => "RBrace" | TLBracket => "LBracket"
  | TRBracket => "RBracket" | TColon => "Colon" | TComma => "Comma"
  | TGreaterThanOrEqual => "GreaterThanOrEqual"
  | TLessThanOrEqual => "LessThanOrEqual"
  | TGreaterThan => "GreaterThan" | TLessThan => "LessThan"
  | TEqualEqual => "EqualEqual" | TNotEqual => "NotEqual"
  | TComment => "Comment" | TWhitespace => "Whitespace" | TNewline => "Newline"
  | TEOF => "EOF" | TUnknown => "Unknown"
  end.

Record Token : Type := mkToken {
  tk_type : TokenType;
  tk_value : string;
  tk_span : SourceSpan
}.

#[global] Instance Token_eq_dec : EqDecision Token.
Proof. solve_decision. Defined.

Definition KEYWORDS : list string :=
  [ "network"; "terminal"; "net"; "subnetwork"; "member"; "messages";
    "filters"; "inbound"; "outbound"; "accept"; "drop"; "where"; "link";
    "classification"; "track_number"; "platform_type"; "role"; "subscribes";
    "transmits"; "net_number"; "npg"; "stacked"; "stacking_level"; "tsdf";
    "participants"; "enabled"; "operating_mode"; "data_rate"; "unit_id";
    "forwarding"; "quality"; "age" ].

(** [Array.prototype.includes] and [Set.prototype.has] on strings. *)
Definition includes (l : list string) (x : string) : bool :=
  existsb (String.eqb x) l.

(** The tagged union [PropertyValue]. *)
Inductive PropertyValue : Type :=
  | PVString (value : string)
  | PVNumber (value : float)
  | PVPercent (value : float)
  | PVDuration (value : string)
  | PVBoolean (value : bool)
  | PVIdentifier (value : string)
  | PVHex (value : string)
  | PVArray (value : list string).

(** The [type] tag of a property value. *)
Definition pv_type (v : PropertyValue) : string :=
  match v with
  | PVString _ => "string" | PVNumber _ => "number" | PVPercent _ => "percent"
  | PVDuration _ => "duration" | PVBoolean _ => "boolean"
  | PVIdentifier _ => "identifier" | PVHex _ => "hex" | PVArray _ => "array"
  end.

Record PropertyAssignment : Type := mkProperty {
  p_key : string;
  p_value : PropertyValue;
  p_span : SourceSpan
}.

Record TerminalDeclaration : Type := mkTerminal {
  t_name : string;
  t_properties : list PropertyAssignment;
  t_span : SourceSpan
}.

Record NetDeclaration : Type := mkNet {
  n_name : string;
  n_properties : list PropertyAssignment;
  n_span : SourceSpan
}.

Record MemberDeclaration : Type := mkMember {
  m_name : string;
  m_properties : list PropertyAssignment;
  m_span : SourceSpan
}.

Record SubnetworkDeclaration : Type := mkSubnetwork {
  s_name : string;
  s_properties : list PropertyAssignment;
  s_members : list MemberDeclaration;
  s_span : SourceSpan
}.

Record MessageEntry : Type := mkMessageEntry {
  me_messageId : string;
  me_properties : list PropertyAssignment;
  me_span : SourceSpan
}.

Record MessageCatalog : Type := mkMessageCatalog {
  mc_entries : list MessageEntry;
  mc_span : SourceSpan
}.

Inductive CompareOp : Type := OpGe | OpLe | OpGt | OpLt | OpEq | OpNe.

Record ConditionExpression : Type := mkCondition {
  c_field : string;
  c_operator : CompareOp;
  c_value : string;
  c_span : SourceSpan
}.

Record WhereClause : Type := mkWhere {
  w_condition : ConditionExpression;
  w_span : SourceSpan
}.

Inductive FilterAction : Type := Accept | Drop.

Record FilterRule : Type := mkFilterRule {
  fr_action : FilterAction;
  fr_messageId : string;
  fr_where : option WhereClause;
  fr_span : SourceSpan
}.

Record FilterBlock : Type := mkFilterBlock {
  fb_inbound : list FilterRule;
  fb_outbound : list FilterRule;
  fb_span : SourceSpan
}.

Record NetworkDeclaration : Type := mkNetwork {
  nw_name : string;
  nw_properties : list PropertyAssignment;
  nw_terminals : list TerminalDeclaration;
  nw_nets : list NetDeclaration;
  nw_subnetworks : list SubnetworkDeclaration;
  nw_messages : option MessageCatalog;
  nw_filters : option FilterBlock;
  nw_span : SourceSpan
}.

Record DocumentNode : Type := mkDocument {
  d_networks : list NetworkDeclaration;
  d_span : SourceSpan
}.

Inductive DiagnosticSeverity : Type := SevError | SevWarning | SevInfo | SevHint.

#[global] Instance DiagnosticSeverity_eq_dec : EqDecision DiagnosticSeverity.
Proof. solve_decision. Defined.

Record Diagnostic : Type := mkDiag {
  dg_message : string;
  dg_severity : DiagnosticSeverity;
  dg_span : SourceSpan;
  dg_rule : option string;
  dg_specRef : option string
}.

#[global] Instance Diagnostic_eq_dec : EqDecision Diagnostic.
Proof. solve_decision. Defined.

Record ParseResult : Type := mkParseResult {
  pr_ast : DocumentNode;
  pr_diagnostics : list Diagnostic
}.

(** [Array.prototype.push]. *)
Definition push {A : Type} (arr : list A) (x : A) : list A := arr ++ [x].

(** [Array.prototype.join] with the separator the engine uses. *)
Definition join (l : list string) : string := String.concat ", " l.

(** [properties.find((p) => p.key === key)]. *)
Definition findProp (properties : list PropertyAssignment) (key : string)
  : option PropertyAssignment :=
  find (fun p => String.eqb (p_key p) key) properties.

(* ================================================================== *)
(** * Specification database ([specs/link16]) *)
(* ================================================================== *)

Module SpecDb.

(** [allNPGIds()]: the [id] column of [LINK16_NPGS]. *)
Definition allNPGIds : list string :=
  [ "NPG_A"; "NPG_B"; "NPG_2"; "NPG_3"; "NPG_4"; "NPG_5"; "NPG_6"; "NPG_7";
    "NPG_8"; "NPG_9"; "NPG_14"; "NPG_15"; "NPG_16"; "NPG_27" ].

(** The columns of [JMessageDefinition] that the validator reads. *)
Record JMessageDefinition : Type := mkJMessage {
  jm_id : string;
  jm_name : string;
  jm_validNPGs : list string;
  jm_specRef : string
}.

Definition LINK16_MESSAGES : list JMessageDefinition :=
  [ mkJMessage "J0/0" "Initial Entry" ["NPG_A"; "NPG_B"] "MIL-STD-6016 §A.0.0";
    mkJMessage "J0/3" "Net Test" ["NPG_A"; "NPG_B"] "MIL-STD-6016 §A.0.3";
    mkJMessage "J1/0" "Net Control" ["NPG_A"; "NPG_B"] "MIL-STD-6016 §A.1.0";
    mkJMessage "J2/0" "Direct PPLI" ["NPG_A"; "NPG_3"; "NPG_8"] "MIL-STD-6016 §A.2.0";
    mkJMessage "J2/2" "Indirect PPLI" ["NPG_A"; "NPG_2"] "MIL-STD-6016 §A.2.2";
    mkJMessage "J2/3" "PPLI Platform" ["NPG_A"; "NPG_2"; "NPG_3"] "MIL-STD-6016 §A.2.3";
    mkJMessage "J2/5" "PPLI IFF/SIF" ["NPG_A"; "NPG_2"; "NPG_3"; "NPG_8"] "MIL-STD-6016 §A.2.5";
    mkJMessage "J3/0" "Reference Point" ["NPG_3"; "NPG_7"; "NPG_9"] "MIL-STD-6016 §A.3.0";
    mkJMessage "J3/2" "Air Track" ["NPG_7"; "NPG_9"] "MIL-STD-6016 §A.3.2";
    mkJMessage "J3/3" "Surface Track" ["NPG_7"; "NPG_9"] "MIL-STD-6016 §A.3.3";
    mkJMessage "J3/4" "Subsurface Track" ["NPG_7"; "NPG_9"] "MIL-STD-6016 §A.3.4";
    mkJMessage "J3/5" "Land Track" ["NPG_7"; "NPG_9"] "MIL-STD-6016 §A.3.5";
    mkJMessage "J3/6" "Space Track" ["NPG_7"; "NPG_9"] "MIL-STD-6016 §A.3.6";
    mkJMessage "J7/0" "Attack Order" ["NPG_6"; "NPG_15"] "MIL-STD-6016 §A.7.0";
    mkJMessage "J7/1" "Attack Response" ["NPG_6"; "NPG_15"] "MIL-STD-6016 §A.7.1";
    mkJMessage "J7/2" "Attack Acknowledgement" ["NPG_6"; "NPG_15"] "MIL-STD-6016 §A.7.2";
    mkJMessage "J7/3" "Weapons Free" ["NPG_6"; "NPG_15"] "MIL-STD-6016 §A.7.3";
    mkJMessage "J9/0" "Mission Assignment" ["NPG_4"] "MIL-STD-6016 §A.9.0";
    mkJMessage "J10/2" "Status Report" ["NPG_4"; "NPG_15"] "MIL-STD-6016 §A.10.2";
    mkJMessage "J12/0" "EW Control/Coordination" ["NPG_5"; "NPG_14"] "MIL-STD-6016 §A.12.0";
    mkJMessage "J12/2" "Target Sorting" ["NPG_5"; "NPG_14"] "MIL-STD-6016 §A.12.2";
    mkJMessage "J12/6" "Parametric Information" ["NPG_5"; "NPG_14"] "MIL-STD-6016 §A.12.6";
    mkJMessage "J13/2" "General Point" ["NPG_4"; "NPG_9"; "NPG_27"] "MIL-STD-6016 §A.13.2";
    mkJMessage "J13/5" "General Area" ["NPG_4"; "NPG_9"; "NPG_27"] "MIL-STD-6016 §A.13.5" ].

Definition findJMessage (id : string) : option JMessageDefinition :=
  find (fun m => String.eqb (jm_id m) id) LINK16_MESSAGES.

Definition allJMessageIds : list string := map jm_id LINK16_MESSAGES.

(** The [id] columns of the enumeration tables of [enums.ts]. *)
Definition LINK16_ROLE_IDS : list string :=
  [ "NetControlStation"; "Participant"; "ForwardTell"; "Relay" ].

Definition LINK22_ROLE_IDS : list string := [ "Controller"; "Participant" ].

Definition allPlatformTypeIds : list string :=
  [ "E3A"; "E3B"; "E3D"; "E2C"; "E2D"; "E7A"; "F16C"; "F16D"; "F15C"; "F15E";
    "F18C"; "F18E"; "F18F"; "F35A"; "F35B"; "F35C"; "EF2000"; "RAFALE";
    "TORNADO"; "P8A"; "MQ9"; "RQ4";
    "DDG"; "CG"; "CVN"; "FFG"; "LPD";
    "PATRIOT"; "THAAD"; "SHORAD"; "GCS"; "AOC" ].

Definition CLASSIFICATION_IDS : list string :=
  [ "UNCLASSIFIED"; "CONFIDENTIAL"; "SECRET"; "TOP_SECRET" ].

Definition LINK22_OPERATING_MODE_IDS : list string :=
  [ "NetSlotted"; "Contention"; "Hybrid" ].

Definition LINK22_DATA_RATE_IDS : list string := [ "Low"; "Medium"; "High" ].

End SpecDb.

(* ================================================================== *)
(** * Validator ([validator.ts]) *)
(* ================================================================== *)

Module Validator.

(** A value in a condition: [undefined] and the empty string are falsy. *)
Definition truthy (v : option string) : bool :=
  match v with
  | Some s => negb (String.eqb s "")
  | None => false
  end.

(** Comparison of an optional string with a literal: [v === lit]. *)
Definition is_str (v : option string) (lit : string) : bool :=
  match v with
  | Some s => String.eqb s lit
  | None => false
  end.

(** [getPropertyValue]: the first property with the key decides. *)
Definition getPropertyValue (properties : list PropertyAssignment) (key : string)
  : option string :=
  match findProp properties key with
  | None => None
  | Some prop =>
      match p_value prop with
      | PVIdentifier v => Some v
      | PVString v => Some v
      | _ => None
      end
  end.

(** Key equality of a [Map<number, _>] (SameValueZero): numeric equality,
    and NaN equal to itself. *)
Definition sameValueZero (x y : float) : bool :=
  PrimFloat.eqb x y || (PrimFloat.is_nan x && PrimFloat.is_nan y).

(** A [Map<number, string>] as the list of its [set] calls, latest first. *)
Definition NumMap : Type := list (float * string).

Definition numMap_get (m : NumMap) (k : float) : option string :=
  snd <$> find (fun e => sameValueZero (fst e) k) m.

Definition numMap_set (m : NumMap) (k : float) (v : string) : NumMap :=
  (k, v) :: m.

(** [String.prototype.toLowerCase] on the characters of a hex lexeme. *)
Definition lower_char (c : ascii) : ascii :=
  if (Ascii.leb "A" c && Ascii.leb c "Z")%bool
  then ascii_of_nat (nat_of_ascii c + 32)
  else c.

Fixpoint toLowerCase (s : string) : string :=
  match s with
  | EmptyString => EmptyString
  | String c r => String (lower_char c) (toLowerCase r)
  end.

Section WithNumberFormat.

(** The string that template interpolation gives for a number. *)
Variable numberToString : float -> string.

(* ---- total-tsdf-budget ------------------------------------------- *)

(** The loop of [validateTsdfBudget]: the running total and the nets that
    contributed to it. *)
Definition tsdfStep (acc : float * list (string * float)) (net : NetDeclaration)
  : float * list (string * float) :=
  match findProp (n_properties net) "tsdf" with
  | Some (mkProperty _ (PVPercent v) _) =>
      (PrimFloat.add (fst acc) v, push (snd acc) (n_name net, v))
  | _ => acc
  end.

Definition tsdfTotals (network : NetworkDeclaration) : float * list (string * float) :=
  fold_left tsdfStep (nw_nets network) (0%float, []).

Definition totalTsdf (network : NetworkDeclaration) : float :=
  fst (tsdfTotals network).

Definition tsdfErrorMessage (total : float) (nets : list (string * float)) : string :=
  "Total TSDF across all nets is " +:+ numberToString total +:+
  "%, which exceeds the 100% budget. " +:+
  "Nets: " +:+
  join (map (fun n => fst n +:+ " (" +:+ numberToString (snd n) +:+ "%)") nets)
  +:+ ".".

Definition tsdfWarningMessage (total : float) : string :=
  "Total TSDF is " +:+ numberToString total +:+
  "%, which is close to the 100% budget limit. " +:+
  "Consider reducing to allow for future expansion.".

Definition validateTsdfBudget (network : NetworkDeclaration) (diag : list Diagnostic)
  : list Diagnostic :=
  let '(totalTsdf, netsWithTsdf) := tsdfTotals network in
  if PrimFloat.ltb 100 totalTsdf then
    push diag (mkDiag (tsdfErrorMessage totalTsdf netsWithTsdf) SevError
                 (nw_span network) (Some "total-tsdf-budget")
                 (Some "MIL-STD-6016 §4.3.2"))
  else if PrimFloat.ltb 90 totalTsdf then
    push diag (mkDiag (tsdfWarningMessage totalTsdf) SevWarning
                 (nw_span network) (Some "total-tsdf-budget")
                 (Some "MIL-STD-6016 §4.3.2"))
  else diag.

(* ---- npg-subscriber-coverage ------------------------------------- *)

Definition hasSubscriber (network : NetworkDeclaration)
    (terminal : TerminalDeclaration) (npgId : string) : bool :=
  existsb (fun other =>
    if String.eqb (t_name other) (t_name terminal) then false
    else match findProp (t_properties other) "subscribes" with
         | Some (mkProperty _ (PVArray ids) _) => includes ids npgId
         | _ => false
         end) (nw_terminals network).

(** The body of the loop over the NPGs that a terminal transmits on. *)
Definition coverageNpg (network : NetworkDeclaration) (terminal : TerminalDeclaration)
    (span : SourceSpan) (diag : list Diagnostic) (npgId : string) : list Diagnostic :=
  if negb (hasSubscriber network terminal npgId) then
    push diag (mkDiag
      ("Terminal '" +:+ t_name terminal +:+ "' transmits on " +:+ npgId +:+
       " but no other terminal subscribes to it. " +:+
       "Messages will have no recipients.")
      SevWarning span (Some "npg-subscriber-coverage")
      (Some "MIL-STD-6016 §5.1.4"))
  else diag.

(** The body of the loop over the terminals. *)
Definition coverageTerminal (network : NetworkDeclaration) (diag : list Diagnostic)
    (terminal : TerminalDeclaration) : list Diagnostic :=
  match findProp (t_properties terminal) "transmits" with
  | Some (mkProperty _ (PVArray ids) span) =>
      fold_left (coverageNpg network terminal span) ids diag
  | _ => diag
  end.

Definition validateNpgSubscriberCoverage (network : NetworkDeclaration)
    (diag : list Diagnostic) : list Diagnostic :=
  fold_left (coverageTerminal network) (nw_terminals network) diag.

(* ---- ppli-required ------------------------------------------------ *)

Definition ppliTerminal (diag : list Diagnostic) (terminal : TerminalDeclaration)
  : list Diagnostic :=
  match findProp (t_properties terminal) "subscribes" with
  | Some (mkProperty _ (PVArray ids) _) =>
      let hasPpliNpg := includes ids "NPG_A" || includes ids "NPG_B" in
      if negb hasPpliNpg then
        push diag (mkDiag
          ("Terminal '" +:+ t_name terminal +:+
           "' does not subscribe to NPG_A or NPG_B. " +:+
           "All terminals should have a PPLI-capable NPG for position reporting.")
          SevWarning (t_span terminal) (Some "ppli-required")
          (Some "MIL-STD-6016 §3.3.1"))
      else diag
  | _ => diag
  end.

Definition validatePpliRequired (network : NetworkDeclaration)
    (diag : list Diagnostic) : list Diagnostic :=
  fold_left ppliTerminal (nw_terminals network) diag.

(* ---- message-npg-match -------------------------------------------- *)

Definition messageNpgEntry (diag : list Diagnostic) (entry : MessageEntry)
  : list Diagnostic :=
  match findProp (me_properties entry) "npg" with
  | Some (mkProperty _ (PVIdentifier npg) _) =>
      match SpecDb.findJMessage (me_messageId entry) with
      | Some msgDef =>
          if negb (includes (SpecDb.jm_validNPGs msgDef) npg) then
            push diag (mkDiag
              ("Message " +:+ me_messageId entry +:+ " (" +:+
               SpecDb.jm_name msgDef +:+ ") is assigned to " +:+ npg +:+ ", " +:+
               "but it is only valid on: " +:+
               join (SpecDb.jm_validNPGs msgDef) +:+ ".")
              SevError (me_span entry) (Some "message-npg-match")
              (Some (SpecDb.jm_specRef msgDef)))
          else diag
      | None => diag
      end
  | _ => diag
  end.

(** The entries of the message catalog, none when the network has no
    catalog (the early [return] of the passes over the catalog). *)
Definition catalogEntries (network : NetworkDeclaration) : list MessageEntry :=
  match nw_messages network with
  | None => []
  | Some messages => mc_entries messages
  end.

Definition validateMessageNpgMatch (network : NetworkDeclaration)
    (diag : list Diagnostic) : list Diagnostic :=
  match nw_messages network with
  | None => diag
  | Some messages => fold_left messageNpgEntry (mc_entries messages) diag
  end.

(* ---- stacking-consistency ----------------------------------------- *)

Definition stackedIsTrue (p : option PropertyAssignment) : bool :=
  match p with
  | Some (mkProperty _ (PVBoolean b) _) => b
  | _ => false
  end.

Definition stackedMissingOrFalse (p : option PropertyAssignment) : bool :=
  match p with
  | None => true
  | Some (mkProperty _ (PVBoolean b) _) => negb b
  | Some _ => false
  end.

(** Stacked is true: [stacking_level] must be specified, and be 2 or 4. *)
Definition stackedNeedsLevel (net : NetDeclaration)
    (stackedProp stackingLevelProp : option PropertyAssignment)
    (diag : list Diagnostic) : list Diagnostic :=
  if stackedIsTrue stackedProp then
    match stackingLevelProp with
    | None =>
        push diag (mkDiag
          ("Net '" +:+ n_name net +:+
           "' has stacked: true but no stacking_level specified. Must be 2 or 4.")
          SevError (n_span net) (Some "stacking-consistency")
          (Some "MIL-STD-6016 §4.4.1"))
    | Some (mkProperty _ (PVNumber level) span) =>
        if negb (PrimFloat.eqb level 2) && negb (PrimFloat.eqb level 4) then
          push diag (mkDiag
            ("Net '" +:+ n_name net +:+ "' stacking_level is " +:+
             numberToString level +:+ ". Must be 2 or 4.")
            SevError span (Some "stacking-consistency")
            (Some "MIL-STD-6016 §4.4.1"))
        else diag
    | Some _ => diag
    end
  else diag.

(** [stacking_level] is present and [stacked] is missing or false. *)
Definition levelNeedsStacked (net : NetDeclaration)
    (stackedProp stackingLevelProp : option PropertyAssignment)
    (diag : list Diagnostic) : list Diagnostic :=
  match stackingLevelProp with
  | Some lp =>
      if stackedMissingOrFalse stackedProp then
        push diag (mkDiag
          ("Net '" +:+ n_name net +:+ "' has stacking_level but stacked is not true.")
          SevWarning (p_span lp) (Some "stacking-consistency")
          (Some "MIL-STD-6016 §4.4.1"))
      else diag
  | None => diag
  end.

Definition stackingNet (diag : list Diagnostic) (net : NetDeclaration)
  : list Diagnostic :=
  let stackedProp := findProp (n_properties net) "stacked" in
  let stackingLevelProp := findProp (n_properties net) "stacking_level" in
  let diag := stackedNeedsLevel net stackedProp stackingLevelProp diag in
  levelNeedsStacked net stackedProp stackingLevelProp diag.

Definition validateStackingConsistency (network : NetworkDeclaration)
    (diag : list Diagnostic) : list Diagnostic :=
  fold_left stackingNet (nw_nets network) diag.

(* ---- valid-npg-reference ------------------------------------------ *)

Definition npgRefId (span : SourceSpan) (diag : list Diagnostic) (npgId : string)
  : list Diagnostic :=
  if negb (includes SpecDb.allNPGIds npgId) then
    push diag (mkDiag
      ("Unknown NPG '" +:+ npgId +:+ "'. Valid NPGs: " +:+
       join SpecDb.allNPGIds +:+ ".")
      SevError span (Some "valid-npg-reference") None)
  else diag.

Definition npgRefProperty (diag : list Diagnostic) (prop : PropertyAssignment)
  : list Diagnostic :=
  match p_value prop with
  | PVArray ids =>
      if String.eqb (p_key prop) "subscribes" || String.eqb (p_key prop) "transmits"
      then fold_left (npgRefId (p_span prop)) ids diag
      else diag
  | _ => diag
  end.

Definition npgRefTerminal (diag : list Diagnostic) (terminal : TerminalDeclaration)
  : list Diagnostic :=
  fold_left npgRefProperty (t_properties terminal) diag.

Definition npgRefNet (diag : list Diagnostic) (net : NetDeclaration)
  : list Diagnostic :=
  match findProp (n_properties net) "npg" with
  | Some (mkProperty _ (PVIdentifier npg) span) =>
      if negb (includes SpecDb.allNPGIds npg) then
        push diag (mkDiag
          ("Unknown NPG '" +:+ npg +:+ "' in net '" +:+ n_name net +:+ "'.")
          SevError span (Some "valid-npg-reference") None)
      else diag
  | _ => diag
  end.

Definition validateNpgReferences (network : NetworkDeclaration)
    (diag : list Diagnostic) : list Diagnostic :=
  (* Check terminal NPG references *)
  let diag := fold_left npgRefTerminal (nw_terminals network) diag in
  (* Check net NPG references *)
  fold_left npgRefNet (nw_nets network) diag.

(* ---- valid-j-message-reference ------------------------------------ *)

Definition jmessageRefEntry (diag : list Diagnostic) (entry : MessageEntry)
  : list Diagnostic :=
  if negb (includes SpecDb.allJMessageIds (me_messageId entry)) then
    push diag (mkDiag
      ("Unknown J-message '" +:+ me_messageId entry +:+
       "'. Check the message identifier.")
      SevError (me_span entry) (Some "valid-j-message-reference") None)
  else diag.

Definition validateJMessageReferences (network : NetworkDeclaration)
    (diag : list Diagnostic) : list Diagnostic :=
  match nw_messages network with
  | None => diag
  | Some messages => fold_left jmessageRefEntry (mc_entries messages) diag
  end.

(* ---- participant-reference ---------------------------------------- *)

(** The elements of [new Set(names)] in insertion order. *)
Definition setOfList (names : list string) : list string :=
  fold_left (fun acc x => if includes acc x then acc else push acc x) names [].

Definition terminalNames (network : NetworkDeclaration) : list string :=
  setOfList (map t_name (nw_terminals network)).

Definition participantName (network : NetworkDeclaration) (net : NetDeclaration)
    (span : SourceSpan) (diag : list Diagnostic) (name : string) : list Diagnostic :=
  if negb (includes (terminalNames network) name) then
    push diag (mkDiag
      ("Unknown terminal '" +:+ name +:+ "' in net '" +:+ n_name net +:+
       "' participants. Defined terminals: " +:+ join (terminalNames network) +:+ ".")
      SevError span (Some "participant-reference") None)
  else diag.

Definition participantNet (network : NetworkDeclaration) (diag : list Diagnostic)
    (net : NetDeclaration) : list Diagnostic :=
  match findProp (n_properties net) "participants" with
  | Some (mkProperty _ (PVArray names) span) =>
      fold_left (participantName network net span) names diag
  | _ => diag
  end.

Definition validateParticipantReferences (network : NetworkDeclaration)
    (diag : list Diagnostic) : list Diagnostic :=
  fold_left (participantNet network) (nw_nets network) diag.

(* ---- track-number-uniqueness, net-number-uniqueness ---------------- *)

Definition trackNumberStep (st : NumMap * list Diagnostic)
    (terminal : TerminalDeclaration) : NumMap * list Diagnostic :=
  let '(trackNumbers, diag) := st in
  match findProp (t_properties terminal) "track_number" with
  | Some (mkProperty _ (PVNumber tn) span) =>
      let existing := numMap_get trackNumbers tn in
      if truthy existing then
        (trackNumbers,
         push diag (mkDiag
           ("Duplicate track number " +:+ numberToString tn +:+
            ". Also used by terminal '" +:+ default EmptyString existing +:+ "'.")
           SevError span (Some "track-number-uniqueness") None))
      else (numMap_set trackNumbers tn (t_name terminal), diag)
  | _ => st
  end.

Definition validateTrackNumberUniqueness (network : NetworkDeclaration)
    (diag : list Diagnostic) : list Diagnostic :=
  snd (fold_left trackNumberStep (nw_terminals network) ([], diag)).

Definition netNumberStep (st : NumMap * list Diagnostic)
    (net : NetDeclaration) : NumMap * list Diagnostic :=
  let '(netNumbers, diag) := st in
  match findProp (n_properties net) "net_number" with
  | Some (mkProperty _ (PVNumber nn) span) =>
      let existing := numMap_get netNumbers nn in
      if truthy existing then
        (netNumbers,
         push diag (mkDiag
           ("Duplicate net number " +:+ numberToString nn +:+
            ". Also used by net '" +:+ default EmptyString existing +:+ "'.")
           SevError span (Some "net-number-uniqueness") None))
      else (numMap_set netNumbers nn (n_name net), diag)
  | _ => st
  end.

Definition validateNetNumberUniqueness (network : NetworkDeclaration)
    (diag : list Diagnostic) : list Diagnostic :=
  snd (fold_left netNumberStep (nw_nets network) ([], diag)).

(* ---- valid-classification ------------------------------------------ *)

Definition validateClassification (network : NetworkDeclaration)
    (diag : list Diagnostic) : list Diagnostic :=
  match findProp (nw_properties network) "classification" with
  | Some (mkProperty _ (PVIdentifier c) span) =>
      if negb (includes SpecDb.CLASSIFICATION_IDS c) then
        push diag (mkDiag
          ("Invalid classification '" +:+ c +:+ "'. Expected one of: " +:+
           join SpecDb.CLASSIFICATION_IDS +:+ ".")
          SevError span (Some "valid-classification") None)
      else diag
  | _ => diag
  end.

(* ---- property values of Link 16 terminals and nets ------------------ *)

(** Validate role. *)
Definition terminalRole (roleProp : option PropertyAssignment)
    (diag : list Diagnostic) : list Diagnostic :=
  match roleProp with
  | Some (mkProperty _ (PVIdentifier r) span) =>
      if negb (includes SpecDb.LINK16_ROLE_IDS r) then
        push diag (mkDiag
          ("Invalid Link 16 role '" +:+ r +:+ "'. Expected one of: " +:+
           join SpecDb.LINK16_ROLE_IDS +:+ ".")
          SevError span (Some "valid-role") (Some "MIL-STD-6016 §3.2"))
      else diag
  | _ => diag
  end.

(** Validate platform_type. *)
Definition terminalPlatformType (terminal : TerminalDeclaration)
    (diag : list Diagnostic) : list Diagnostic :=
  match findProp (t_properties terminal) "platform_type" with
  | Some (mkProperty _ (PVIdentifier p) span) =>
      if negb (includes SpecDb.allPlatformTypeIds p) then
        push diag (mkDiag
          ("Unknown platform type '" +:+ p +:+
           "'. Check the identifier against known platform types.")
          SevWarning span (Some "valid-platform-type") None)
      else diag
  | _ => diag
  end.

(** Validate track_number range. *)
Definition terminalTrackNumber (terminal : TerminalDeclaration)
    (diag : list Diagnostic) : list Diagnostic :=
  match findProp (t_properties terminal) "track_number" with
  | Some (mkProperty _ (PVNumber tn) span) =>
      if PrimFloat.ltb tn 0 || PrimFloat.ltb 77777 tn then
        push diag (mkDiag
          ("Track number " +:+ numberToString tn +:+
           " is out of range. Must be between 00000 and 77777 (octal).")
          SevError span (Some "valid-track-number") (Some "MIL-STD-6016 §3.4.1"))
      else diag
  | _ => diag
  end.

(** Warn if terminal has no role. *)
Definition terminalRoleRequired (terminal : TerminalDeclaration)
    (roleProp : option PropertyAssignment) (diag : list Diagnostic)
  : list Diagnostic :=
  match roleProp with
  | None =>
      push diag (mkDiag
        ("Terminal '" +:+ t_name terminal +:+
         "' has no role specified. Expected one of: " +:+
         join SpecDb.LINK16_ROLE_IDS +:+ ".")
        SevWarning (t_span terminal) (Some "required-property") None)
  | Some _ => diag
  end.

(** The body of the loop of [validateLink16TerminalProperties]. *)
Definition terminalProperties (diag : list Diagnostic) (terminal : TerminalDeclaration)
  : list Diagnostic :=
  let roleProp := findProp (t_properties terminal) "role" in
  let diag := terminalRole roleProp diag in
  let diag := terminalPlatformType terminal diag in
  let diag := terminalTrackNumber terminal diag in
  terminalRoleRequired terminal roleProp diag.

Definition validateLink16TerminalProperties (network : NetworkDeclaration)
    (diag : list Diagnostic) : list Diagnostic :=
  fold_left terminalProperties (nw_terminals network) diag.

(** Validate net_number range. *)
Definition netNumberRange (nnProp : option PropertyAssignment)
    (diag : list Diagnostic) : list Diagnostic :=
  match nnProp with
  | Some (mkProperty _ (PVNumber nn) span) =>
      if PrimFloat.ltb nn 0 || PrimFloat.ltb 127 nn then
        push diag (mkDiag
          ("Net number " +:+ numberToString nn +:+
           " is out of range. Must be between 0 and 127.")
          SevError span (Some "valid-net-number") (Some "MIL-STD-6016 §4.2.1"))
      else diag
  | _ => diag
  end.

(** Validate tsdf range. *)
Definition netTsdfRange (net : NetDeclaration) (diag : list Diagnostic)
  : list Diagnostic :=
  match findProp (n_properties net) "tsdf" with
  | Some (mkProperty _ (PVPercent v) span) =>
      if PrimFloat.ltb v 0 || PrimFloat.ltb 100 v then
        push diag (mkDiag
          ("TSDF " +:+ numberToString v +:+
           "% is out of range. Must be between 0% and 100%.")
          SevError span (Some "valid-tsdf") (Some "MIL-STD-6016 §4.3.2"))
      else diag
  | _ => diag
  end.

(** Warn if net has no net_number. *)
Definition netNumberRequired (net : NetDeclaration)
    (nnProp : option PropertyAssignment) (diag : list Diagnostic)
  : list Diagnostic :=
  match nnProp with
  | None =>
      push diag (mkDiag
        ("Net '" +:+ n_name net +:+ "' has no net_number specified.")
        SevWarning (n_span net) (Some "required-property") None)
  | Some _ => diag
  end.

(** The body of the loop of [validateLink16NetProperties]. *)
Definition netProperties (diag : list Diagnostic) (net : NetDeclaration)
  : list Diagnostic :=
  let nnProp := findProp (n_properties net) "net_number" in
  let diag := netNumberRange nnProp diag in
  let diag := netTsdfRange net diag in
  netNumberRequired net nnProp diag.

Definition validateLink16NetProperties (network : NetworkDeclaration)
    (diag : list Diagnostic) : list Diagnostic :=
  fold_left netProperties (nw_nets network) diag.

(* ---- Link 16 networks ----------------------------------------------- *)

Definition ncsTerminals (network : NetworkDeclaration) : list TerminalDeclaration :=
  List.filter (fun t => is_str (getPropertyValue (t_properties t) "role")
                          "NetControlStation")
              (nw_terminals network).

Definition ncsExtra (diag : list Diagnostic) (ncs : TerminalDeclaration)
  : list Diagnostic :=
  push diag (mkDiag
    "Multiple NCS terminals defined. Only one NetControlStation is allowed per network."
    SevError (t_span ncs) (Some "ncs-required") (Some "MIL-STD-6016 §3.2.1")).

(** The first block of [validateLink16Network], rule [ncs-required]. *)
Definition ncsRequired (network : NetworkDeclaration) (diag : list Diagnostic)
  : list Diagnostic :=
  let ncs := ncsTerminals network in
  if Nat.eqb (List.length ncs) 0 then
    push diag (mkDiag
      "A Link 16 network must have exactly one terminal with role NetControlStation."
      SevError (nw_span network) (Some "ncs-required")
      (Some "MIL-STD-6016 §3.2.1"))
  else if Nat.ltb 1 (List.length ncs) then
    fold_left ncsExtra (drop 1 ncs) diag
  else diag.

Definition validateLink16Network (network : NetworkDeclaration)
    (diag : list Diagnostic) : list Diagnostic :=
  let diag := ncsRequired network diag in
  let diag := validateTsdfBudget network diag in
  let diag := validateNpgSubscriberCoverage network diag in
  let diag := validatePpliRequired network diag in
  let diag := validateMessageNpgMatch network diag in
  let diag := validateStackingConsistency network diag in
  let diag := validateNpgReferences network diag in
  let diag := validateJMessageReferences network diag in
  let diag := validateParticipantReferences network diag in
  let diag := validateLink16TerminalProperties network diag in
  let diag := validateLink16NetProperties network diag in
  validateClassification network diag.

(* ---- Link 22 networks ----------------------------------------------- *)

(** Validate role. *)
Definition memberRole (roleProp : option PropertyAssignment)
    (diag : list Diagnostic) : list Diagnostic :=
  match roleProp with
  | Some (mkProperty _ (PVIdentifier r) span) =>
      if negb (includes SpecDb.LINK22_ROLE_IDS r) then
        push diag (mkDiag
          ("Invalid Link 22 role '" +:+ r +:+ "'. Expected one of: " +:+
           join SpecDb.LINK22_ROLE_IDS +:+ ".")
          SevError span (Some "valid-role") (Some "STANAG 5522 §4.2"))
      else diag
  | _ => diag
  end.

(** Validate unit_id is hex. *)
Definition memberUnitIdIsHex (uidProp : option PropertyAssignment)
    (diag : list Diagnostic) : list Diagnostic :=
  match uidProp with
  | Some (mkProperty _ (PVHex _) _) => diag
  | Some (mkProperty _ v span) =>
      push diag (mkDiag
        ("unit_id must be a hex value (e.g. 0x1A3F), got " +:+ pv_type v +:+ ".")
        SevError span (Some "valid-unit-id") (Some "STANAG 5522 §4.1"))
  | None => diag
  end.

(** Validate forwarding is enabled/disabled. *)
Definition memberForwarding (member : MemberDeclaration)
    (diag : list Diagnostic) : list Diagnostic :=
  match findProp (m_properties member) "forwarding" with
  | Some (mkProperty _ (PVIdentifier f) span) =>
      if negb (String.eqb f "enabled") && negb (String.eqb f "disabled") then
        push diag (mkDiag
          ("Invalid forwarding value '" +:+ f +:+
           "'. Expected 'enabled' or 'disabled'.")
          SevError span (Some "valid-forwarding") (Some "STANAG 5522 §6.2"))
      else diag
  | _ => diag
  end.

(** Warn if member has no role. *)
Definition memberRoleRequired (member : MemberDeclaration)
    (roleProp : option PropertyAssignment) (diag : list Diagnostic)
  : list Diagnostic :=
  match roleProp with
  | None =>
      push diag (mkDiag
        ("Member '" +:+ m_name member +:+
         "' has no role specified. Expected one of: " +:+
         join SpecDb.LINK22_ROLE_IDS +:+ ".")
        SevWarning (m_span member) (Some "required-property") None)
  | Some _ => diag
  end.

(** Warn if member has no unit_id. *)
Definition memberUnitIdRequired (member : MemberDeclaration)
    (uidProp : option PropertyAssignment) (diag : list Diagnostic)
  : list Diagnostic :=
  match uidProp with
  | None =>
      push diag (mkDiag
        ("Member '" +:+ m_name member +:+
         "' has no unit_id specified. A hex unit identifier is required.")
        SevWarning (m_span member) (Some "required-property")
        (Some "STANAG 5522 §4.1"))
  | Some _ => diag
  end.

(** The body of the loop over the members of a subnetwork. *)
Definition memberProperties (diag : list Diagnostic) (member : MemberDeclaration)
  : list Diagnostic :=
  let roleProp := findProp (m_properties member) "role" in
  let diag := memberRole roleProp diag in
  let uidProp := findProp (m_properties member) "unit_id" in
  let diag := memberUnitIdIsHex uidProp diag in
  let diag := memberForwarding member diag in
  let diag := memberRoleRequired member roleProp diag in
  memberUnitIdRequired member uidProp diag.

(** Validate operating_mode. *)
Definition subnetworkOperatingMode (sub : SubnetworkDeclaration)
    (diag : list Diagnostic) : list Diagnostic :=
  match findProp (s_properties sub) "operating_mode" with
  | Some (mkProperty _ (PVIdentifier m) span) =>
      if negb (includes SpecDb.LINK22_OPERATING_MODE_IDS m) then
        push diag (mkDiag
          ("Invalid operating mode '" +:+ m +:+ "'. Expected one of: " +:+
           join SpecDb.LINK22_OPERATING_MODE_IDS +:+ ".")
          SevError span (Some "valid-operating-mode") (Some "STANAG 5522 §5.2"))
      else diag
  | _ => diag
  end.

(** Validate data_rate. *)
Definition subnetworkDataRate (sub : SubnetworkDeclaration)
    (diag : list Diagnostic) : list Diagnostic :=
  match findProp (s_properties sub) "data_rate" with
  | Some (mkProperty _ (PVIdentifier r) span) =>
      if negb (includes SpecDb.LINK22_DATA_RATE_IDS r) then
        push diag (mkDiag
          ("Invalid data rate '" +:+ r +:+ "'. Expected one of: " +:+
           join SpecDb.LINK22_DATA_RATE_IDS +:+ ".")
          SevError span (Some "valid-data-rate") (Some "STANAG 5522 §6.1"))
      else diag
  | _ => diag
  end.

(** The body of the loop of [validateLink22SubnetworkProperties]. *)
Definition subnetworkProperties (diag : list Diagnostic) (sub : SubnetworkDeclaration)
  : list Diagnostic :=
  let diag := subnetworkOperatingMode sub diag in
  let diag := subnetworkDataRate sub diag in
  (* Validate member properties *)
  fold_left memberProperties (s_members sub) diag.

Definition validateLink22SubnetworkProperties (network : NetworkDeclaration)
    (diag : list Diagnostic) : list Diagnostic :=
  fold_left subnetworkProperties (nw_subnetworks network) diag.

(** The diagnostic of [validateLink22UnitIdUniqueness]. *)
Definition unitIdDiagnostic (uidValue existing : string) (span : SourceSpan)
  : Diagnostic :=
  mkDiag ("Duplicate unit_id " +:+ uidValue +:+ ". Also used by member '" +:+
          existing +:+ "'.")
         SevWarning span (Some "unit-id-uniqueness") (Some "STANAG 5522 §4.1").

(** One iteration of the inner loop of [validateLink22UnitIdUniqueness]. *)
Definition unitIdStep (st : gmap string string * list Diagnostic)
    (member : MemberDeclaration) : gmap string string * list Diagnostic :=
  let '(unitIds, diag) := st in
  match findProp (m_properties member) "unit_id" with
  | Some (mkProperty _ (PVHex v) span) =>
      let uid := toLowerCase v in
      let existing := unitIds !! uid in
      if truthy existing && negb (is_str existing (m_name member)) then
        (unitIds, push diag (unitIdDiagnostic v (default EmptyString existing) span))
      else (<[uid := m_name member]> unitIds, diag)
  | _ => st
  end.

(** One iteration of the outer loop: the members of a subnetwork. *)
Definition unitIdSubnetwork (st : gmap string string * list Diagnostic)
    (sub : SubnetworkDeclaration) : gmap string string * list Diagnostic :=
  fold_left unitIdStep (s_members sub) st.

Definition validateLink22UnitIdUniqueness (network : NetworkDeclaration)
    (diag : list Diagnostic) : list Diagnostic :=
  snd (fold_left unitIdSubnetwork (nw_subnetworks network) (∅, diag)).

Definition forwardingSubnetwork (diag : list Diagnostic) (sub : SubnetworkDeclaration)
  : list Diagnostic :=
  let membersWithForwarding :=
    List.filter (fun m => is_str (getPropertyValue (m_properties m) "forwarding")
                            "enabled") (s_members sub) in
  if Nat.ltb 0 (List.length (s_members sub)) &&
     Nat.eqb (List.length membersWithForwarding) 0 then
    push diag (mkDiag
      ("Subnetwork '" +:+ s_name sub +:+ "' has no member with forwarding enabled. " +:+
       "At least one member must have forwarding: enabled.")
      SevError (s_span sub) (Some "link22-forwarding") (Some "STANAG 5522 §6.2"))
  else diag.

Definition controllerSubnetwork (diag : list Diagnostic) (sub : SubnetworkDeclaration)
  : list Diagnostic :=
  let controllers :=
    List.filter (fun m => is_str (getPropertyValue (m_properties m) "role")
                            "Controller") (s_members sub) in
  if Nat.eqb (List.length controllers) 0 then
    push diag (mkDiag
      ("Subnetwork '" +:+ s_name sub +:+
       "' has no Controller. At least one member must have role: Controller.")
      SevError (s_span sub) (Some "link22-controller-required")
      (Some "STANAG 5522 §4.2"))
  else diag.

Definition validateLink22Network (network : NetworkDeclaration)
    (diag : list Diagnostic) : list Diagnostic :=
  (* Rule: link22-forwarding *)
  let diag := fold_left forwardingSubnetwork (nw_subnetworks network) diag in
  (* Rule: link22-controller-required *)
  let diag := fold_left controllerSubnetwork (nw_subnetworks network) diag in
  let diag := validateLink22SubnetworkProperties network diag in
  let diag := validateClassification network diag in
  validateLink22UnitIdUniqueness network diag.

(* ---- entry points ---------------------------------------------------- *)

(** The last branch on the link type in [validateNetwork]: a link value
    that is neither [Link16] nor [Link22]. *)
Definition unknownLinkType (network : NetworkDeclaration) (linkType : option string)
    (diag : list Diagnostic) : list Diagnostic :=
  if truthy linkType then
    match findProp (nw_properties network) "link" with
    | Some p =>
        push diag (mkDiag
          ("Unknown link type '" +:+ default EmptyString linkType +:+
           "'. Expected 'Link16' or 'Link22'.")
          SevError (p_span p) (Some "valid-link-type") None)
    | None => diag (* not reached: [linkType] comes from that property *)
    end
  else diag.

Definition validateNetwork (network : NetworkDeclaration) (diag : list Diagnostic)
  : list Diagnostic :=
  let linkType := getPropertyValue (nw_properties network) "link" in
  let diag :=
    if is_str linkType "Link16" then validateLink16Network network diag
    else if is_str linkType "Link22" then validateLink22Network network diag
    else unknownLinkType network linkType diag in
  let diag := validateTrackNumberUniqueness network diag in
  validateNetNumberUniqueness network diag.

Definition validate (doc : DocumentNode) : list Diagnostic :=
  fold_left (fun diagnostics network => validateNetwork network diagnostics)
            (d_networks doc) [].

End WithNumberFormat.

End Validator.

(* ================================================================== *)
(** * Lexer ([lexer.ts]) *)
(* ================================================================== *)

Module Lexer.

(** The fields of the [Lexer] class. *)
Record State : Type := mkState {
  source : string;
  pos : nat;
  line : Z;
  column : Z;
  tokens : list Token
}.

Definition ch_newline : ascii := "010".
Definition ch_tab : ascii := "009".
Definition ch_return : ascii := "013".
Definition ch_quote : ascii := "034".

(** [source.slice(start, end)] for [start <= end]. *)
Definition slice (src : string) (start stop : nat) : string :=
  String.substring start (stop - start) src.

Definition advance (s : State) : State :=
  match String.get (pos s) (source s) with
  | Some ch =>
      if Ascii.eqb ch ch_newline
      then mkState (source s) (S (pos s)) (line s + 1) 1 (tokens s)
      else mkState (source s) (S (pos s)) (line s) (column s + 1) (tokens s)
  | None => s
  end.

Definition peek (s : State) (offset : nat) : option ascii :=
  String.get (pos s + offset) (source s).

Definition makeSpan (s : State) (length : Z) : SourceSpan :=
  mkSpan (line s) (column s) (Z.of_nat (pos s)) length.

Definition makeToken (s : State) (type : TokenType) (value : string) (length : Z)
  : Token :=
  mkToken type value (makeSpan s length).

Definition pushToken (s : State) (t : Token) : State :=
  mkState (source s) (pos s) (line s) (column s) (push (tokens s) t).

(** [ch === c] for a character read from the source ([undefined] past the
    end). *)
Definition charIs (ch : option ascii) (c : ascii) : bool :=
  match ch with
  | Some x => Ascii.eqb x c
  | None => false
  end.

Definition isDigitChar (ch : ascii) : bool :=
  Ascii.leb "0" ch && Ascii.leb ch "9".

Definition isDigit (ch : option ascii) : bool :=
  match ch with
  | Some c => isDigitChar c
  | None => false
  end.

Definition isHexDigit (ch : ascii) : bool :=
  (Ascii.leb "0" ch && Ascii.leb ch "9")
  || (Ascii.leb "a" ch && Ascii.leb ch "f")
  || (Ascii.leb "A" ch && Ascii.leb ch "F").

Definition isIdentStart (ch : ascii) : bool :=
  (Ascii.leb "a" ch && Ascii.leb ch "z")
  || (Ascii.leb "A" ch && Ascii.leb ch "Z")
  || Ascii.eqb ch "_".

Definition isIdentPart (ch : ascii) : bool :=
  isIdentStart ch || isDigitChar ch || Ascii.eqb ch "-" || Ascii.eqb ch "_".

(** [while (this.pos < this.source.length && p(this.source[this.pos]))
    this.advance()], with the number of iterations bounded by [fuel]. *)
Fixpoint advanceWhile (fuel : nat) (p : ascii -> bool) (s : State) : State :=
  match fuel with
  | O => s
  | S fuel' =>
      match String.get (pos s) (source s) with
      | Some ch => if p ch then advanceWhile fuel' p (advance s) else s
      | None => s
      end
  end.

(** The loop with the fuel that the rest of the input provides: every
    iteration consumes one character (lemma [scanWhile_stops]). *)
Definition scanWhile (p : ascii -> bool) (s : State) : State :=
  advanceWhile (String.length (source s) - pos s) p s.

(** Completes a token that starts at [start]: [value] is the slice up to the
    cursor and the span's length is the length of [value]. *)
Definition emitFrom (start : State) (s : State) (type : TokenType) : State :=
  let value := slice (source s) (pos start) (pos s) in
  pushToken s (mkToken type value
                 (makeSpan start (Z.of_nat (String.length value)))).

Definition isBlank (ch : ascii) : bool :=
  Ascii.eqb ch " " || Ascii.eqb ch ch_tab || Ascii.eqb ch ch_return.

(** [scanWhitespace]: the run is consumed and no token is pushed. *)
Definition scanWhitespace (s : State) : State := scanWhile isBlank s.

Definition scanComment (s : State) : State :=
  let s' := scanWhile (fun ch => negb (Ascii.eqb ch ch_newline)) s in
  emitFrom s s' TComment.

Definition scanString (s : State) : State :=
  let s1 := advance s in
  let s2 := scanWhile (fun ch => negb (Ascii.eqb ch ch_quote)
                                 && negb (Ascii.eqb ch ch_newline)) s1 in
  let s3 := match String.get (pos s2) (source s2) with
            | Some ch => if Ascii.eqb ch ch_quote then advance s2 else s2
            | None => s2
            end in
  emitFrom s s3 TString.

(** [\w] of a regular expression without flags. *)
Definition isWordChar (ch : ascii) : bool :=
  (Ascii.leb "a" ch && Ascii.leb ch "z")
  || (Ascii.leb "A" ch && Ascii.leb ch "Z")
  || (Ascii.leb "0" ch && Ascii.leb ch "9")
  || Ascii.eqb ch "_".

(** [\b] at index [n] of [rest], after a word character at [n - 1]. *)
Definition boundaryAt (rest : string) (n : nat) : bool :=
  match String.get n rest with
  | Some ch => negb (isWordChar ch)
  | None => true
  end.

(** [rest.match(/^(s|ms|min|h)\b/)]: the length of the match, the
    alternatives tried from left to right. *)
Definition durationMatch (rest : string) : option nat :=
  if String.prefix "s" rest && boundaryAt rest 1 then Some 1%nat
  else if String.prefix "ms" rest && boundaryAt rest 2 then Some 2%nat
  else if String.prefix "min" rest && boundaryAt rest 3 then Some 3%nat
  else if String.prefix "h" rest && boundaryAt rest 1 then Some 1%nat
  else None.

Definition scanNumber (s : State) : State :=
  if charIs (String.get (pos s) (source s)) "0"
     && (charIs (peek s 1) "x" || charIs (peek s 1) "X")
  then
    (* Hex number *)
    let s1 := advance (advance s) in
    let s2 := scanWhile isHexDigit s1 in
    emitFrom s s2 THexNumber
  else
    (* Regular number *)
    let s1 := scanWhile isDigitChar s in
    (* Decimal point *)
    let s2 :=
      if charIs (String.get (pos s1) (source s1)) "."
         && isDigit (String.get (pos s1 + 1) (source s1))
      then scanWhile isDigitChar (advance s1)
      else s1 in
    (* Check for percent suffix *)
    if charIs (String.get (pos s2) (source s2)) "%"
    then emitFrom s (advance s2) TPercent
    else
      (* Check for duration suffix *)
      let rest := slice (source s2) (pos s2) (String.length (source s2)) in
      match (if Nat.ltb (pos s2) (String.length (source s2))
             then durationMatch rest else None) with
      | Some n => emitFrom s (Nat.iter n advance s2) TDuration
      | None => emitFrom s s2 TNumber
      end.

Definition scanJMessage (s : State) : State :=
  let s1 := advance s in
  let s2 := scanWhile isDigitChar s1 in
  let s3 := if charIs (String.get (pos s2) (source s2)) "/"
            then scanWhile isDigitChar (advance s2)
            else s2 in
  emitFrom s s3 TJMessage.

Definition scanIdentifier (s : State) : State :=
  let s1 := scanWhile isIdentPart s in
  let value := slice (source s1) (pos s) (pos s1) in
  if String.eqb value "true" || String.eqb value "false"
  then emitFrom s s1 TBoolean
  else if includes KEYWORDS value
  then emitFrom s s1 TKeyword
  else emitFrom s s1 TIdentifier.

(** [emitSingle(type)], and the scanner's pushes of one or two characters
    with a literal [value]. *)
Definition emitChars (s : State) (n : nat) (type : TokenType) (value : string)
  : State :=
  pushToken (Nat.iter n advance s) (mkToken type value (makeSpan s (Z.of_nat n))).

Definition emitSingle (s : State) (ch : ascii) (type : TokenType) : State :=
  emitChars s 1 type (String ch EmptyString).

Definition scanOperator (s : State) (ch : ascii) : State :=
  let next := peek s 1 in
  if Ascii.eqb ch ">" && charIs next "=" then emitChars s 2 TGreaterThanOrEqual ">="
  else if Ascii.eqb ch "<" && charIs next "=" then emitChars s 2 TLessThanOrEqual "<="
  else if Ascii.eqb ch "=" && charIs next "=" then emitChars s 2 TEqualEqual "=="
  else if Ascii.eqb ch "!" && charIs next "=" then emitChars s 2 TNotEqual "!="
  else if Ascii.eqb ch ">" then emitSingle s ch TGreaterThan
  else if Ascii.eqb ch "<" then emitSingle s ch TLessThan
  else emitChars s 1 TUnknown (String ch EmptyString).

Definition scanToken (s : State) : State :=
  match String.get (pos s) (source s) with
  | None => s (* not reached: [tokenize] calls it inside the source *)
  | Some ch =>
      if isBlank ch then scanWhitespace s
      else if Ascii.eqb ch ch_newline then
        emitChars s 1 TNewline (String ch_newline EmptyString)
      else if Ascii.eqb ch "-" && charIs (peek s 1) "-" then scanComment s
      else if Ascii.eqb ch ch_quote then scanString s
      else if isDigitChar ch then scanNumber s
      else if Ascii.eqb ch "J" && isDigit (peek s 1) then scanJMessage s
      else if isIdentStart ch then scanIdentifier s
      else if Ascii.eqb ch "{" then emitSingle s ch TLBrace
      else if Ascii.eqb ch "}" then emitSingle s ch TRBrace
      else if Ascii.eqb ch "[" then emitSingle s ch TLBracket
      else if Ascii.eqb ch "]" then emitSingle s ch TRBracket
      else if Ascii.eqb ch ":" then emitSingle s ch TColon
      else if Ascii.eqb ch "," then emitSingle s ch TComma
      else if Ascii.eqb ch ">" || Ascii.eqb ch "<" || Ascii.eqb ch "="
              || Ascii.eqb ch "!" then scanOperator s ch
      else emitChars s 1 TUnknown (String ch EmptyString)
  end.

(** The loop of [tokenize]; [None] when [fuel] iterations do not reach the
    end of the source. *)
Fixpoint tokenizeLoop (fuel : nat) (s : State) : option State :=
  if Nat.ltb (pos s) (String.length (source s)) then
    match fuel with
    | O => None
    | S fuel' => tokenizeLoop fuel' (scanToken s)
    end
  else Some s.

Definition tokenize (fuel : nat) (src : string) : option (list Token) :=
  s ← tokenizeLoop fuel (mkState src 0 1 1 []);
  Some (push (tokens s) (makeToken s TEOF EmptyString 0)).

(** [lex], [lexWithTrivia]: both return the tokens of [tokenize]. *)
Definition lex := tokenize.
Definition lexWithTrivia := tokenize.

Definition isSignificant (t : Token) : bool :=
  negb (bool_decide (tk_type t = TComment))
  && negb (bool_decide (tk_type t = TWhitespace))
  && negb (bool_decide (tk_type t = TNewline)).

Definition lexSignificant (fuel : nat) (src : string) : option (list Token) :=
  List.filter isSignificant <$> tokenize fuel src.

End Lexer.

(* ================================================================== *)
(** * Parser ([parser.ts]) *)
(* ================================================================== *)

Module Parser.

(** The fields of the [Parser] class. [advanceCalls] is not a field of the
    class: it counts the calls of [advance], so that the number of cursor
    advances of a run can be stated. *)
Record State : Type := mkState {
  tokens : list Token;
  pos : nat;
  diagnostics : list Diagnostic;
  comments : list Token;
  advanceCalls : nat
}.

(** A method of the parser: it reads and updates the fields and returns a
    value; [None] when a loop ran out of fuel. *)
Definition P (A : Type) : Type := State -> option (A * State).

#[global] Instance P_ret : MRet P := fun A x s => Some (x, s).

#[global] Instance P_bind : MBind P := fun A B f m s =>
  match m s with
  | Some (a, s') => f a s'
  | None => None
  end.

(** Reads the fields. *)
Definition gets {A : Type} (f : State -> A) : P A := fun s => Some (f s, s).

(** [while (cond()) acc = body(acc)]. *)
Fixpoint while {A : Type} (fuel : nat) (cond : State -> bool)
    (body : A -> P A) (acc : A) : P A :=
  fun s =>
    if cond s then
      match fuel with
      | O => None
      | S fuel' =>
          match body acc s with
          | Some (acc', s') => while fuel' cond body acc' s'
          | None => None
          end
      end
    else Some (acc, s).

(* ---- token helpers ---------------------------------------------------- *)

Definition eofToken : Token := mkToken TEOF EmptyString (mkSpan 1 1 0 0).

Definition current (s : State) : Token := default eofToken (tokens s !! pos s).

Definition currentValue (s : State) : string := tk_value (current s).

Definition currentSpan (s : State) : SourceSpan := tk_span (current s).

Definition prevSpan (s : State) : SourceSpan :=
  if Nat.ltb 0 (pos s)
  then tk_span (default eofToken (tokens s !! (pos s - 1)%nat))
  else currentSpan s.

Definition isAtEnd (s : State) : bool := bool_decide (tk_type (current s) = TEOF).

Definition check (type : TokenType) (value : option string) (s : State) : bool :=
  let token := current s in
  if negb (bool_decide (tk_type token = type)) then false
  else match value with
       | Some v => String.eqb (tk_value token) v
       | None => true
       end.

Definition advance : P Token := fun s =>
  let token := current s in
  Some (token,
        if isAtEnd s
        then mkState (tokens s) (pos s) (diagnostics s) (comments s)
                     (S (advanceCalls s))
        else mkState (tokens s) (S (pos s)) (diagnostics s) (comments s)
                     (S (advanceCalls s))).

Definition error (message : string) : P unit := fun s =>
  Some (tt, mkState (tokens s) (pos s)
              (push (diagnostics s) (mkDiag message SevError (currentSpan s) None None))
              (comments s) (advanceCalls s)).

Definition expect (type : TokenType) (value : string) : P bool :=
  b ← gets (check type (Some value));
  if b : bool then advance ;; mret true
  else
    got ← gets currentValue;
    error ("Expected '" +:+ value +:+ "', got '" +:+ got +:+ "'") ;;
    mret false.

Definition expectedName (type : TokenType) : string :=
  match type with
  | TLBrace => "{"
  | TRBrace => "}"
  | TRBracket => "]"
  | TColon => ":"
  | _ => TokenType_name type
  end.

Definition expectToken (type : TokenType) : P bool :=
  b ← gets (check type None);
  if b : bool then advance ;; mret true
  else
    got ← gets currentValue;
    error ("Expected '" +:+ expectedName type +:+ "', got '" +:+ got +:+ "'") ;;
    mret false.

(** [value.slice(1, -1)]. *)
Definition stripQuotes (value : string) : string :=
  String.substring 1 (String.length value - 2) value.

Definition expectString : P string :=
  b ← gets (check TString None);
  if b : bool then
    value ← gets currentValue;
    advance ;;
    mret (stripQuotes value)
  else
    got ← gets currentValue;
    error ("Expected string, got '" +:+ got +:+ "'") ;;
    mret "<missing>".

Definition atSyncKeyword (s : State) : bool :=
  check TKeyword (Some "network") s
  || check TKeyword (Some "terminal") s
  || check TKeyword (Some "net") s
  || check TKeyword (Some "subnetwork") s
  || check TKeyword (Some "messages") s
  || check TKeyword (Some "filters") s.

(** [synchronize]: the loop ends at the end of the input, after a closing
    brace, or before a declaration keyword. *)
Fixpoint synchronize (fuel : nat) : P unit := fun s =>
  if isAtEnd s then Some (tt, s)
  else if check TRBrace None s then (advance ;; mret tt) s
  else if atSyncKeyword s then Some (tt, s)
  else match fuel with
       | O => None
       | S fuel' => (advance ;; synchronize fuel') s
       end.

Definition mergeSpans (start stop : SourceSpan) : SourceSpan :=
  mkSpan (sp_line start) (sp_column start) (sp_offset start)
         ((sp_offset stop + sp_length stop) - sp_offset start).

(** The condition of the body loops:
    [!this.check(TokenType.RBrace) && !this.isAtEnd()]. *)
Definition inBlock (s : State) : bool :=
  negb (check TRBrace None s) && negb (isAtEnd s).

Section WithNumberParsing.

(** [Number(lexeme)] and [parseFloat(lexeme)] of the runtime. *)
Variable jsNumber : string -> float.
Variable jsParseFloat : string -> float.

(* ---- properties --------------------------------------------------------- *)

Definition parseArrayValue (fuel : nat) : P (option PropertyValue) :=
  advance ;;
  elements ← while fuel
    (fun s => negb (check TRBracket None s) && negb (isAtEnd s))
    (fun elements =>
       isName ← gets (fun s => check TIdentifier None s || check TKeyword None s
                               || check TJMessage None s);
       isStr ← gets (check TString None);
       elements ←
         (if isName : bool then
            v ← gets currentValue; advance ;; mret (push elements v)
          else if isStr : bool then
            v ← gets currentValue; advance ;; mret (push elements (stripQuotes v))
          else
            got ← gets currentValue;
            error ("Unexpected token '" +:+ got +:+ "' in array") ;;
            advance ;; mret elements);
       comma ← gets (check TComma None);
       (if comma : bool then advance ;; mret elements else mret elements))
    [];
  expectToken TRBracket ;;
  mret (Some (PVArray elements)).

Definition parsePropertyValue (fuel : nat) : P (option PropertyValue) :=
  token ← gets current;
  match tk_type token with
  | TString => advance ;; mret (Some (PVString (stripQuotes (tk_value token))))
  | TNumber => advance ;; mret (Some (PVNumber (jsNumber (tk_value token))))
  | TPercent => advance ;; mret (Some (PVPercent (jsParseFloat (tk_value token))))
  | TDuration => advance ;; mret (Some (PVDuration (tk_value token)))
  | TBoolean =>
      advance ;; mret (Some (PVBoolean (String.eqb (tk_value token) "true")))
  | THexNumber => advance ;; mret (Some (PVHex (tk_value token)))
  | TIdentifier | TKeyword =>
      advance ;; mret (Some (PVIdentifier (tk_value token)))
  | TLBracket => parseArrayValue fuel
  | _ => mret None
  end.

Definition parsePropertyAssignment (fuel : nat) : P (option PropertyAssignment) :=
  startSpan ← gets currentSpan;
  key ← gets currentValue;
  advance ;;
  colon ← expectToken TColon;
  if negb colon then mret None
  else
    value ← parsePropertyValue fuel;
    match value with
    | None =>
        error ("Expected value for property '" +:+ key +:+ "'") ;; mret None
    | Some value =>
        (* Consume optional comma *)
        comma ← gets (check TComma None);
        (if comma : bool then advance ;; mret tt else mret tt) ;;
        stop ← gets prevSpan;
        mret (Some (mkProperty key value (mergeSpans startSpan stop)))
    end.

Definition isPropertyStart (s : State) : bool :=
  check TKeyword None s || check TIdentifier None s.

Definition pushOpt {A : Type} (arr : list A) (x : option A) : list A :=
  match x with
  | Some v => push arr v
  | None => arr
  end.

Definition parsePropertyBlock (fuel : nat) : P (list PropertyAssignment) :=
  while fuel inBlock
    (fun properties =>
       start ← gets isPropertyStart;
       if start : bool then
         prop ← parsePropertyAssignment fuel;
         mret (pushOpt properties prop)
       else
         got ← gets currentValue;
         error ("Unexpected token '" +:+ got +:+ "' in property block") ;;
         advance ;; mret properties)
    [].

(* ---- terminal, net, member ------------------------------------------------ *)

(** The common shape of [parseTerminalDeclaration], [parseNetDeclaration]
    and [parseMemberDeclaration]: keyword, name, a property block in braces. *)
Definition parseNamedBlock {A : Type} (fuel : nat) (keyword : string)
    (mk : string -> list PropertyAssignment -> SourceSpan -> A) : P (option A) :=
  startSpan ← gets currentSpan;
  expect TKeyword keyword ;;
  name ← expectString;
  brace ← expectToken TLBrace;
  if negb brace then synchronize fuel ;; mret None
  else
    properties ← parsePropertyBlock fuel;
    endSpan ← gets currentSpan;
    expectToken TRBrace ;;
    mret (Some (mk name properties (mergeSpans startSpan endSpan))).

Definition parseTerminalDeclaration (fuel : nat) : P (option TerminalDeclaration) :=
  parseNamedBlock fuel "terminal" mkTerminal.

Definition parseNetDeclaration (fuel : nat) : P (option NetDeclaration) :=
  parseNamedBlock fuel "net" mkNet.

Definition parseMemberDeclaration (fuel : nat) : P (option MemberDeclaration) :=
  parseNamedBlock fuel "member" mkMember.

(* ---- subnetwork -------------------------------------------------------------- *)

Definition parseSubnetworkDeclaration (fuel : nat) : P (option SubnetworkDeclaration) :=
  startSpan ← gets currentSpan;
  expect TKeyword "subnetwork" ;;
  name ← expectString;
  brace ← expectToken TLBrace;
  if negb brace then synchronize fuel ;; mret None
  else
    '(properties, members) ← while fuel inBlock
      (fun acc : list PropertyAssignment * list MemberDeclaration =>
         isMember ← gets (check TKeyword (Some "member"));
         isProp ← gets isPropertyStart;
         if isMember : bool then
           member ← parseMemberDeclaration fuel;
           mret (fst acc, pushOpt (snd acc) member)
         else if isProp : bool then
           prop ← parsePropertyAssignment fuel;
           mret (pushOpt (fst acc) prop, snd acc)
         else
           got ← gets currentValue;
           error ("Unexpected token '" +:+ got +:+ "' in subnetwork body") ;;
           advance ;; mret acc)
      ([], []);
    endSpan ← gets currentSpan;
    expectToken TRBrace ;;
    mret (Some (mkSubnetwork name properties members (mergeSpans startSpan endSpan))).

(* ---- messages ------------------------------------------------------------------ *)

Definition parseMessageEntry (fuel : nat) : P (option MessageEntry) :=
  startSpan ← gets currentSpan;
  messageId ← gets currentValue;
  advance ;;
  brace ← expectToken TLBrace;
  if negb brace then synchronize fuel ;; mret None
  else
    properties ← parsePropertyBlock fuel;
    endSpan ← gets currentSpan;
    expectToken TRBrace ;;
    mret (Some (mkMessageEntry messageId properties (mergeSpans startSpan endSpan))).

Definition parseMessageCatalog (fuel : nat) : P (option MessageCatalog) :=
  startSpan ← gets currentSpan;
  expect TKeyword "messages" ;;
  brace ← expectToken TLBrace;
  if negb brace then synchronize fuel ;; mret None
  else
    entries ← while fuel inBlock
      (fun entries =>
         isMsg ← gets (check TJMessage None);
         if isMsg : bool then
           entry ← parseMessageEntry fuel;
           mret (pushOpt entries entry)
         else
           got ← gets currentValue;
           error ("Expected J-message identifier, got '" +:+ got +:+ "'") ;;
           advance ;; mret entries)
      [];
    endSpan ← gets currentSpan;
    expectToken TRBrace ;;
    mret (Some (mkMessageCatalog entries (mergeSpans startSpan endSpan))).

(* ---- filters --------------------------------------------------------------------- *)

Definition parseCondition : P (option ConditionExpression) :=
  startSpan ← gets currentSpan;
  isField ← gets isPropertyStart;
  if negb isField then error "Expected field name in condition" ;; mret None
  else
    field ← gets currentValue;
    advance ;;
    opToken ← gets current;
    let operator :=
      match tk_type opToken with
      | TGreaterThanOrEqual => Some OpGe
      | TLessThanOrEqual => Some OpLe
      | TGreaterThan => Some OpGt
      | TLessThan => Some OpLt
      | TEqualEqual => Some OpEq
      | TNotEqual => Some OpNe
      | _ => None
      end in
    match operator with
    | None =>
        got ← gets currentValue;
        error ("Expected comparison operator, got '" +:+ got +:+ "'") ;;
        mret None
    | Some operator =>
        advance ;;
        value ← gets currentValue;
        endSpan ← gets currentSpan;
        advance ;;
        mret (Some (mkCondition field operator value (mergeSpans startSpan endSpan)))
    end.

Definition parseWhereClause : P (option WhereClause) :=
  startSpan ← gets currentSpan;
  expect TKeyword "where" ;;
  brace ← expectToken TLBrace;
  if negb brace then mret None
  else
    condition ← parseCondition;
    endSpan ← gets currentSpan;
    expectToken TRBrace ;;
    match condition with
    | None => mret None
    | Some condition =>
        mret (Some (mkWhere condition (mergeSpans startSpan endSpan)))
    end.

Definition actionName (a : FilterAction) : string :=
  match a with
  | Accept => "accept"
  | Drop => "drop"
  end.

Definition parseFilterRule : P (option FilterRule) :=
  startSpan ← gets currentSpan;
  isAccept ← gets (check TKeyword (Some "accept"));
  isDrop ← gets (check TKeyword (Some "drop"));
  if negb isAccept && negb isDrop then
    got ← gets currentValue;
    error ("Expected 'accept' or 'drop', got '" +:+ got +:+ "'") ;;
    advance ;; mret None
  else
    let action := if isAccept : bool then Accept else Drop in
    advance ;;
    isMsg ← gets (check TJMessage None);
    if negb isMsg then
      error ("Expected J-message identifier after '" +:+ actionName action +:+ "'") ;;
      mret None
    else
      messageId ← gets currentValue;
      advance ;;
      isWhere ← gets (check TKeyword (Some "where"));
      where_ ← (if isWhere : bool then parseWhereClause else mret None);
      stop ← gets prevSpan;
      mret (Some (mkFilterRule action messageId where_ (mergeSpans startSpan stop))).

(** The rules of one direction: the loop of [parseFilterRule] up to the
    closing brace, which is then expected. *)
Definition parseFilterRules (fuel : nat) (rules : list FilterRule)
  : P (list FilterRule) :=
  rules ← while fuel inBlock
    (fun rules => rule ← parseFilterRule; mret (pushOpt rules rule)) rules;
  expectToken TRBrace ;;
  mret rules.

Definition parseFilterBlock (fuel : nat) : P (option FilterBlock) :=
  startSpan ← gets currentSpan;
  expect TKeyword "filters" ;;
  brace ← expectToken TLBrace;
  if negb brace then synchronize fuel ;; mret None
  else
    '(inbound, outbound) ← while fuel inBlock
      (fun acc : list FilterRule * list FilterRule =>
         isIn ← gets (check TKeyword (Some "inbound"));
         isOut ← gets (check TKeyword (Some "outbound"));
         if isIn : bool then
           advance ;;
           brace ← expectToken TLBrace;
           if negb brace then synchronize fuel ;; mret acc
           else
             inbound ← parseFilterRules fuel (fst acc);
             mret (inbound, snd acc)
         else if isOut : bool then
           advance ;;
           brace ← expectToken TLBrace;
           if negb brace then synchronize fuel ;; mret acc
           else
             outbound ← parseFilterRules fuel (snd acc);
             mret (fst acc, outbound)
         else
           got ← gets currentValue;
           error ("Expected 'inbound' or 'outbound', got '" +:+ got +:+ "'") ;;
           advance ;; mret acc)
      ([], []);
    endSpan ← gets currentSpan;
    expectToken TRBrace ;;
    mret (Some (mkFilterBlock inbound outbound (mergeSpans startSpan endSpan))).

(* ---- network and document ---------------------------------------------------- *)

(** The local variables that the body loop of [parseNetworkDeclaration]
    fills. *)
Record NetworkBody : Type := mkBody {
  b_properties : list PropertyAssignment;
  b_terminals : list TerminalDeclaration;
  b_nets : list NetDeclaration;
  b_subnetworks : list SubnetworkDeclaration;
  b_messages : option MessageCatalog;
  b_filters : option FilterBlock
}.

Definition parseNetworkItem (fuel : nat) (b : NetworkBody) : P NetworkBody :=
  isTerminal ← gets (check TKeyword (Some "terminal"));
  isNet ← gets (check TKeyword (Some "net"));
  isSub ← gets (check TKeyword (Some "subnetwork"));
  isMessages ← gets (check TKeyword (Some "messages"));
  isFilters ← gets (check TKeyword (Some "filters"));
  isProp ← gets isPropertyStart;
  if isTerminal : bool then
    terminal ← parseTerminalDeclaration fuel;
    mret (mkBody (b_properties b) (pushOpt (b_terminals b) terminal) (b_nets b)
                 (b_subnetworks b) (b_messages b) (b_filters b))
  else if isNet : bool then
    net ← parseNetDeclaration fuel;
    mret (mkBody (b_properties b) (b_terminals b) (pushOpt (b_nets b) net)
                 (b_subnetworks b) (b_messages b) (b_filters b))
  else if isSub : bool then
    sub ← parseSubnetworkDeclaration fuel;
    mret (mkBody (b_properties b) (b_terminals b) (b_nets b)
                 (pushOpt (b_subnetworks b) sub) (b_messages b) (b_filters b))
  else if isMessages : bool then
    messages ← parseMessageCatalog fuel;
    mret (mkBody (b_properties b) (b_terminals b) (b_nets b)
                 (b_subnetworks b) messages (b_filters b))
  else if isFilters : bool then
    filters ← parseFilterBlock fuel;
    mret (mkBody (b_properties b) (b_terminals b) (b_nets b)
                 (b_subnetworks b) (b_messages b) filters)
  else if isProp : bool then
    prop ← parsePropertyAssignment fuel;
    mret (mkBody (pushOpt (b_properties b) prop) (b_terminals b) (b_nets b)
                 (b_subnetworks b) (b_messages b) (b_filters b))
  else
    got ← gets currentValue;
    error ("Unexpected token '" +:+ got +:+ "' in network body") ;;
    advance ;; mret b.

Definition parseNetworkDeclaration (fuel : nat) : P (option NetworkDeclaration) :=
  startSpan ← gets currentSpan;
  expect TKeyword "network" ;;
  name ← expectString;
  brace ← expectToken TLBrace;
  if negb brace then synchronize fuel ;; mret None
  else
    b ← while fuel inBlock (parseNetworkItem fuel) (mkBody [] [] [] [] None None);
    endSpan ← gets currentSpan;
    expectToken TRBrace ;;
    mret (Some (mkNetwork name (b_properties b) (b_terminals b) (b_nets b)
                  (b_subnetworks b) (b_messages b) (b_filters b)
                  (mergeSpans startSpan endSpan))).

(** The body of [parse] once the token fields are set. *)
Definition parseDocument (fuel : nat) : P ParseResult :=
  startSpan ← gets currentSpan;
  networks ← while fuel (fun s => negb (isAtEnd s))
    (fun networks =>
       isNetwork ← gets (check TKeyword (Some "network"));
       if isNetwork : bool then
         network ← parseNetworkDeclaration fuel;
         mret (pushOpt networks network)
       else
         got ← gets currentValue;
         error ("Expected 'network' declaration, got '" +:+ got +:+ "'") ;;
         advance ;; mret networks)
    [];
  endSpan ← gets currentSpan;
  diags ← gets diagnostics;
  mret (mkParseResult (mkDocument networks (mergeSpans startSpan endSpan)) diags).

(** The parser's fields at the start of [parse]. *)
Definition initState (allTokens : list Token) : State :=
  mkState (List.filter Lexer.isSignificant allTokens) 0 []
          (List.filter (fun t => bool_decide (tk_type t = TComment)) allTokens) 0.

(** [parse] with the final fields of the parser. *)
Definition parseState (fuel : nat) (src : string) : option (ParseResult * State) :=
  allTokens ← Lexer.lexWithTrivia fuel src;
  parseDocument fuel (initState allTokens).

Definition parse (fuel : nat) (src : string) : option ParseResult :=
  fst <$> parseState fuel src.

End WithNumberParsing.

End Parser.

(* ================================================================== *)
(** * The engine as the editor runs it ([store/appStore.ts]) *)
(* ================================================================== *)

Module Engine.

Section WithRuntime.

Variable jsNumber : string -> float.
Variable jsParseFloat : string -> float.
Variable numberToString : float -> string.

(** [runEngine]: the syntax tree with the parser's diagnostics followed by
    the validator's. *)
Definition runEngine (fuel : nat) (src : string)
  : option (DocumentNode * list Diagnostic) :=
  r ← Parser.parse jsNumber jsParseFloat fuel src;
  let validationErrors := Validator.validate numberToString (pr_ast r) in
  Some (pr_ast r, pr_diagnostics r ++ validationErrors).

End WithRuntime.

End Engine.

(* ================================================================== *)
(** * Number conversions for the worked examples *)
(* ================================================================== *)

(** The examples below run the engine on concrete inputs and need concrete
    conversions. [decimalValue] reads the leading [digits[.digits]] of a
    lexeme, as [Number] and [parseFloat] do on the lexemes of the lexer
    (exact as long as the digits fit a binary64 mantissa); [showIntegral]
    prints an integral number in decimal, as interpolation does. *)
Module Conversions.

Definition digitOf (ch : ascii) : option Z :=
  if Lexer.isDigitChar ch then Some (Z.of_nat (nat_of_ascii ch) - 48) else None.

(** The value of the leading digits of [s], the number of digits read, and
    the rest of [s]. *)
Fixpoint readDigits (s : string) (acc : Z) (n : nat) : Z * nat * string :=
  match s with
  | String ch r =>
      match digitOf ch with
      | Some d => readDigits r (10 * acc + d) (S n)
      | None => (acc, n, s)
      end
  | EmptyString => (acc, n, s)
  end.

Definition floatOfZ (z : Z) : float := PrimFloat.of_uint63 (Uint63.of_Z z).

Definition decimalValue (lexeme : string) : float :=
  let '(int, _, rest) := readDigits lexeme 0 0 in
  match rest with
  | String "." r =>
      let '(num, k, _) := readDigits r int 0 in
      PrimFloat.div (floatOfZ num) (floatOfZ (10 ^ Z.of_nat k))
  | _ => floatOfZ int
  end.

Definition showIntegral (x : float) : string :=
  match FloatOps.Prim2SF x with
  | SpecFloat.S754_zero _ => "0"
  | SpecFloat.S754_infinity false => "Infinity"
  | SpecFloat.S754_infinity true => "-Infinity"
  | SpecFloat.S754_nan => "NaN"
  | SpecFloat.S754_finite sign m e =>
      (if sign then "-" else EmptyString) +:+
      pretty (if (0 <=? e)%Z then Z.pos m * 2 ^ e else Z.pos m / 2 ^ (- e))
  end.

End Conversions.

(* ================================================================== *)
(** * What the validator returns, pass by pass *)
(* ================================================================== *)

Module ValidatorOutput.
Import Validator.

(** The diagnostics of a stateful loop, item by item: what the body pushes
    for the head, then the rest with the state the body leaves. *)
Fixpoint scan {S A : Type} (step : S * list Diagnostic -> A -> S * list Diagnostic)
    (st : S) (items : list A) : list Diagnostic :=
  match items with
  | [] => []
  | x :: rest => snd (step (st, []) x) ++ scan step (fst (step (st, []) x)) rest
  end.

Section WithNumberFormat.
Variable numberToString : float -> string.

Definition link16Output (n : NetworkDeclaration) : list Diagnostic :=
  ncsRequired n []
  ++ validateTsdfBudget numberToString n []
  ++ flat_map (coverageTerminal n []) (nw_terminals n)
  ++ flat_map (ppliTerminal []) (nw_terminals n)
  ++ flat_map (messageNpgEntry []) (catalogEntries n)
  ++ flat_map (stackingNet numberToString []) (nw_nets n)
  ++ (flat_map (npgRefTerminal []) (nw_terminals n)
      ++ flat_map (npgRefNet []) (nw_nets n))
  ++ flat_map (jmessageRefEntry []) (catalogEntries n)
  ++ flat_map (participantNet n []) (nw_nets n)
  ++ flat_map (terminalProperties numberToString []) (nw_terminals n)
  ++ flat_map (netProperties numberToString []) (nw_nets n)
  ++ validateClassification n [].

Definition link22Output (n : NetworkDeclaration) : list Diagnostic :=
  flat_map (forwardingSubnetwork []) (nw_subnetworks n)
  ++ flat_map (controllerSubnetwork []) (nw_subnetworks n)
  ++ flat_map (subnetworkProperties []) (nw_subnetworks n)
  ++ validateClassification n []
  ++ scan unitIdStep ∅ (flat_map s_members (nw_subnetworks n)).

Definition networkOutput (n : NetworkDeclaration) : list Diagnostic :=
  let linkType := getPropertyValue (nw_properties n) "link" in
  (if is_str linkType "Link16" then link16Output n
   else if is_str linkType "Link22" then link22Output n
   else unknownLinkType n linkType [])
  ++ scan (trackNumberStep numberToString) [] (nw_terminals n)
  ++ scan (netNumberStep numberToString) [] (nw_nets n).

Definition documentOutput (doc : DocumentNode) : list Diagnostic :=
  flat_map networkOutput (d_networks doc).

End WithNumberFormat.

(** The diagnostics of one rule. *)
Definition hasRule (rule : string) (d : Diagnostic) : bool :=
  bool_decide (dg_rule d = Some rule).

Definition tsdfBudgetDiagnostics (ds : list Diagnostic) : list Diagnostic :=
  List.filter (hasRule "total-tsdf-budget") ds.

End ValidatorOutput.

(* ================================================================== *)
(** * Readings of the specification that the code is compared with *)
(* ================================================================== *)

Module SpecCatalog.

(** The rule catalog of section 4.4 of the specification as it applies to
    a Link 16 network: the rules that run on every network, then the
    Link 16 rules, in the order in which the section lists them. *)
Definition catalogLink16 : list string :=
  [ "valid-link-type"; "valid-classification"; "track-number-uniqueness";
    "net-number-uniqueness";
    "ncs-required"; "valid-role"; "valid-platform-type"; "valid-track-number";
    "valid-net-number"; "valid-tsdf"; "total-tsdf-budget"; "stacking-consistency";
    "npg-subscriber-coverage"; "ppli-required"; "valid-npg-reference";
    "valid-j-message-reference"; "message-npg-match"; "participant-reference";
    "required-property" ].

(** The position of a rule code in a catalog (its length when absent). *)
Fixpoint rankIn (catalog : list string) (rule : string) : nat :=
  match catalog with
  | [] => O
  | r :: rest => if String.eqb r rule then O else S (rankIn rest rule)
  end.

Definition catalogRank (d : Diagnostic) : nat :=
  rankIn catalogLink16 (default EmptyString (dg_rule d)).

Fixpoint nondecreasing (l : list nat) : bool :=
  match l with
  | a :: (b :: _) as rest => Nat.leb a b && nondecreasing rest
  | _ => true
  end.

(** A list of diagnostics that is the concatenation of each rule's
    diagnostics in catalog order lists its rule codes in catalog order. *)
Definition inCatalogOrder (diags : list Diagnostic) : bool :=
  nondecreasing (map catalogRank diags).

(** The first property with a matching key whose value is an identifier or
    a string: the lookup helper as the specification words it. *)
Definition isIdentifierOrString (v : PropertyValue) : bool :=
  match v with
  | PVIdentifier _ | PVString _ => true
  | _ => false
  end.

Definition textOf (v : PropertyValue) : option string :=
  match v with
  | PVIdentifier s | PVString s => Some s
  | _ => None
  end.

Definition get_identifier (properties : list PropertyAssignment) (key : string)
  : option string :=
  p ← find (fun p => String.eqb (p_key p) key && isIdentifierOrString (p_value p))
         properties;
  textOf (p_value p).

End SpecCatalog.

(* ================================================================== *)
(** * Unit ids that differ in letter case *)
(* ================================================================== *)

Module CaseVariants.
Import Validator.

(** Two property values that agree up to the letter case of a hex lexeme. *)
Definition caseVariantValue (v v' : PropertyValue) : Prop :=
  match v, v' with
  | PVHex a, PVHex b => toLowerCase a = toLowerCase b
  | _, _ => v = v'
  end.

Definition caseVariantProperty (p p' : PropertyAssignment) : Prop :=
  p_key p = p_key p' /\ p_span p = p_span p'
  /\ caseVariantValue (p_value p) (p_value p').

Definition caseVariantMember (m m' : MemberDeclaration) : Prop :=
  m_name m = m_name m' /\ m_span m = m_span m'
  /\ Forall2 caseVariantProperty (m_properties m) (m_properties m').

Definition caseVariantSubnetwork (s s' : SubnetworkDeclaration) : Prop :=
  s_name s = s_name s' /\ s_span s = s_span s'
  /\ s_properties s = s_properties s'
  /\ Forall2 caseVariantMember (s_members s) (s_members s').

(** Two diagnostics of the rule that differ at most in the letter case of
    the unit_id that the message quotes. *)
Definition sameUpToCase (d d' : Diagnostic) : Prop :=
  exists v v' existing span,
    d = unitIdDiagnostic v existing span
    /\ d' = unitIdDiagnostic v' existing span
    /\ toLowerCase v = toLowerCase v'.

(** The members of a network, subnetwork by subnetwork. *)
Definition membersOf (n : NetworkDeclaration) : list MemberDeclaration :=
  flat_map s_members (nw_subnetworks n).

(** The value and the span of the [unit_id] that the rule reads. *)
Definition unitIdOf (m : MemberDeclaration) : option (string * SourceSpan) :=
  match findProp (m_properties m) "unit_id" with
  | Some (mkProperty _ (PVHex v) span) => Some (v, span)
  | _ => None
  end.

(** The map of unit ids after a list of members. *)
Definition unitIdsAfter (st : gmap string string) (ms : list MemberDeclaration)
  : gmap string string :=
  fold_left (fun st m => fst (unitIdStep (st, []) m)) ms st.

End CaseVariants.

Module ValidatorExamples.
Import Validator ValidatorOutput SpecCatalog Conversions.

Definition sp (offset length : Z) : SourceSpan := mkSpan 1 (offset + 1) offset length.

(** [network "X" { link: Link16 classification: BAD }] *)
Definition badClassification16 : DocumentNode :=
  mkDocument
    [ mkNetwork "X"
        [ mkProperty "link" (PVIdentifier "Link16") (sp 14 12);
          mkProperty "classification" (PVIdentifier "BAD") (sp 27 19) ]
        [] [] [] None None (sp 0 48) ]
    (sp 0 48).

(** [network "X" { classification: MEGA_SECRET }] *)
Definition noLinkBadClassification : DocumentNode :=
  mkDocument
    [ mkNetwork "X"
        [ mkProperty "classification" (PVIdentifier "MEGA_SECRET") (sp 14 27) ]
        [] [] [] None None (sp 0 43) ]
    (sp 0 43).

(** [link: 5 link: Link16] *)
Definition linkTwice : list PropertyAssignment :=
  [ mkProperty "link" (PVNumber 5) (sp 14 7);
    mkProperty "link" (PVIdentifier "Link16") (sp 22 12) ].

(** [role: true link: Link16] *)
Definition roleThenLink : list PropertyAssignment :=
  [ mkProperty "role" (PVBoolean true) (sp 14 10);
    mkProperty "link" (PVIdentifier "Link16") (sp 25 12) ].




(** A Link 22 network with the members [A] and [B] of one subnetwork,
    with the given unit ids. *)
Definition twoMembers (uidA uidB : string) : NetworkDeclaration :=
  mkNetwork "X" [ mkProperty "link" (PVIdentifier "Link22") (sp 14 12) ] [] []
    [ mkSubnetwork "S" []
        [ mkMember "A" [ mkProperty "unit_id" (PVHex uidA) (sp 55 15) ] (sp 42 30);
          mkMember "B" [ mkProperty "unit_id" (PVHex uidB) (sp 86 15) ] (sp 73 30) ]
        (sp 27 78) ]
    None None (sp 0 107).

End ValidatorExamples.

(* ================================================================== *)
(** * The invariants of the lexer *)
(* ================================================================== *)

Module LexerSpec.
Import Lexer.

(** The cursor moved forward within the source; nothing else changed. *)
Record Moved (s s' : State) : Prop := mkMoved {
  moved_source : source s' = source s;
  moved_tokens : tokens s' = tokens s;
  moved_pos : (pos s <= pos s')%nat;
  moved_bound : (pos s <= String.length (source s) ->
                 pos s' <= String.length (source s))%nat
}.

(** A token that a call of [scanToken] from [s] to [s'] pushed: its span
    starts at the cursor of [s] and ends at or before the cursor of [s']. *)
Definition TokenAt (s s' : State) (t : Token) : Prop :=
  sp_offset (tk_span t) = Z.of_nat (pos s)
  /\ 0 <= sp_length (tk_span t)
  /\ sp_offset (tk_span t) + sp_length (tk_span t) <= Z.of_nat (pos s')
  /\ tk_type t <> TWhitespace.

(** What one call of [scanToken] does. *)
Record Scanned (s s' : State) : Prop := mkScanned {
  sc_source : source s' = source s;
  sc_progress : (pos s < pos s')%nat;
  sc_bound : (pos s' <= String.length (source s))%nat;
  sc_tokens : tokens s' = tokens s
              \/ exists t, tokens s' = tokens s ++ [t] /\ TokenAt s s' t
}.

(** Spans in source order: each token starts at or after [lo] and after the
    end of the token before it, and the last one ends at or before [hi]. *)
Fixpoint Ordered (lo : Z) (toks : list Token) (hi : Z) : Prop :=
  match toks with
  | [] => lo <= hi
  | t :: rest =>
      lo <= sp_offset (tk_span t) /\ 0 <= sp_length (tk_span t)
      /\ Ordered (sp_offset (tk_span t) + sp_length (tk_span t)) rest hi
  end.

(** The invariant of the loop of [tokenize]. *)
Record Tokenized (s : State) : Prop := mkTokenized {
  tz_bound : (pos s <= String.length (source s))%nat;
  tz_ordered : Ordered 0 (tokens s) (Z.of_nat (pos s));
  tz_count : (List.length (tokens s) <= pos s)%nat;
  tz_types : Forall (fun t => tk_type t <> TWhitespace) (tokens s)
}.

End LexerSpec.

(* ================================================================== *)
(** * The token of a number *)
(* ================================================================== *)

Module NumberTokens.
Import Lexer.

(** The cursor after the digits of a number and its fraction, as
    [scanNumber] moves it before it looks for a suffix. *)
Definition digitsEnd (s : State) : State :=
  let s1 := scanWhile isDigitChar s in
  if charIs (String.get (pos s1) (source s1)) "."
     && isDigit (String.get (pos s1 + 1) (source s1))
  then scanWhile isDigitChar (advance s1)
  else s1.

Definition durationSuffixes : list string := ["s"; "ms"; "min"; "h"].

(** [suffix] starts [rest] and is followed by the end of the input or by a
    character that is no letter, digit or underscore. *)
Definition suffixEnds (rest suffix : string) : bool :=
  String.prefix suffix rest
  && match String.get (String.length suffix) rest with
     | Some ch => negb (isWordChar ch)
     | None => true
     end.

Definition promoted (rest : string) : bool :=
  existsb (suffixEnds rest) durationSuffixes.

(** The type of the token of a number that starts at the cursor. *)
Definition numberTokenType (s : State) : TokenType :=
  if charIs (String.get (pos s) (source s)) "0"
     && (charIs (peek s 1) "x" || charIs (peek s 1) "X")
  then THexNumber
  else
    let s2 := digitsEnd s in
    if charIs (String.get (pos s2) (source s2)) "%" then TPercent
    else if promoted (slice (source s2) (pos s2) (String.length (source s2)))
    then TDuration
    else TNumber.

End NumberTokens.

(* ================================================================== *)
(** * Worked sources *)
(* ================================================================== *)

Module LexerExamples.

Definition typesAndValues (toks : list Token) : list (TokenType * string) :=
  map (fun t => (tk_type t, tk_value t)) toks.

Definition quoted (text : string) : string :=
  String Lexer.ch_quote (text +:+ String Lexer.ch_quote EmptyString).

(** [network "X" { npg_message: J3/2 }] *)
Definition jmessageProperty : string :=
  "network " +:+ quoted "X" +:+ " { npg_message: J3/2 }".

Definition jmessagePropertyParse : option ParseResult :=
  Parser.parse Conversions.decimalValue Conversions.decimalValue 64 jmessageProperty.

(** The tokens [npg_message : J3/2] and the end of the input. *)
Definition jmessageTokens : list Token :=
  [ mkToken TIdentifier "npg_message" (mkSpan 1 1 0 11);
    mkToken TColon ":" (mkSpan 1 12 11 1);
    mkToken TJMessage "J3/2" (mkSpan 1 14 13 4);
    mkToken TEOF EmptyString (mkSpan 1 18 17 0) ].

End LexerExamples.

(* ================================================================== *)
(** * Spans within the source *)
(* ================================================================== *)

Module SpanBounds.

(** A span within a source of [len] characters. *)
Definition Within (len : Z) (sp : SourceSpan) : Prop :=
  0 <= sp_offset sp /\ 0 <= sp_length sp /\ sp_offset sp + sp_length sp <= len.

Definition propertyWithin (len : Z) (p : PropertyAssignment) : Prop :=
  Within len (p_span p).

Definition terminalWithin (len : Z) (t : TerminalDeclaration) : Prop :=
  Within len (t_span t) /\ Forall (propertyWithin len) (t_properties t).

Definition netWithin (len : Z) (n : NetDeclaration) : Prop :=
  Within len (n_span n) /\ Forall (propertyWithin len) (n_properties n).

Definition memberWithin (len : Z) (m : MemberDeclaration) : Prop :=
  Within len (m_span m) /\ Forall (propertyWithin len) (m_properties m).

Definition subnetworkWithin (len : Z) (s : SubnetworkDeclaration) : Prop :=
  Within len (s_span s) /\ Forall (propertyWithin len) (s_properties s)
  /\ Forall (memberWithin len) (s_members s).

Definition entryWithin (len : Z) (e : MessageEntry) : Prop :=
  Within len (me_span e) /\ Forall (propertyWithin len) (me_properties e).

Definition catalogWithin (len : Z) (c : MessageCatalog) : Prop :=
  Within len (mc_span c) /\ Forall (entryWithin len) (mc_entries c).

Definition conditionWithin (len : Z) (c : ConditionExpression) : Prop :=
  Within len (c_span c).

Definition whereWithin (len : Z) (w : WhereClause) : Prop :=
  Within len (w_span w) /\ conditionWithin len (w_condition w).

Definition ruleWithin (len : Z) (r : FilterRule) : Prop :=
  Within len (fr_span r) /\ from_option (whereWithin len) True (fr_where r).

Definition filtersWithin (len : Z) (f : FilterBlock) : Prop :=
  Within len (fb_span f) /\ Forall (ruleWithin len) (fb_inbound f)
  /\ Forall (ruleWithin len) (fb_outbound f).

Definition networkWithin (len : Z) (n : NetworkDeclaration) : Prop :=
  Within len (nw_span n)
  /\ Forall (propertyWithin len) (nw_properties n)
  /\ Forall (terminalWithin len) (nw_terminals n)
  /\ Forall (netWithin len) (nw_nets n)
  /\ Forall (subnetworkWithin len) (nw_subnetworks n)
  /\ from_option (catalogWithin len) True (nw_messages n)
  /\ from_option (filtersWithin len) True (nw_filters n).

(** The declarations gathered so far by the body loop of a network. *)
Definition bodyWithin (len : Z) (b : Parser.NetworkBody) : Prop :=
  Forall (propertyWithin len) (Parser.b_properties b)
  /\ Forall (terminalWithin len) (Parser.b_terminals b)
  /\ Forall (netWithin len) (Parser.b_nets b)
  /\ Forall (subnetworkWithin len) (Parser.b_subnetworks b)
  /\ from_option (catalogWithin len) True (Parser.b_messages b)
  /\ from_option (filtersWithin len) True (Parser.b_filters b).

(** Every node of the syntax tree has its span within the source. *)
Definition documentWithin (len : Z) (d : DocumentNode) : Prop :=
  Within len (d_span d) /\ Forall (networkWithin len) (d_networks d).

End SpanBounds.

(* ================================================================== *)
(** * The invariants of the parser *)
(* ================================================================== *)

Module ParserSpec.
Import Parser.

Section Tokens.

(** The tokens that the parser was given. *)
Variable toks : list Token.

(** The cursor is on a token of the list. *)
Definition OnToken (s : State) : Prop :=
  tokens s = toks /\ (pos s < List.length toks)%nat.

(** The tokens from the cursor on. *)
Definition remaining (s : State) : nat := (List.length toks - pos s)%nat.

(** What a method does to the fields: the cursor moves forward on the
    token list; at the end of the input it makes no call of [advance];
    and the calls of [advance] are paid by the cursor's moves, with one
    call to spare once the end is reached. *)
Record Step (s s' : State) : Prop := mkStep {
  st_from : OnToken s;
  st_to : OnToken s';
  st_pos : (pos s <= pos s')%nat;
  st_end : isAtEnd s = true ->
           pos s' = pos s /\ advanceCalls s' = advanceCalls s;
  st_calls : (advanceCalls s' + pos s
              <= advanceCalls s + pos s' + (if isAtEnd s' then 1 else 0))%nat
}.

(** A method returns, having moved the cursor forward. *)
Definition Ran {A : Type} (m : P A) (s : State) (Q : A -> State -> Prop) : Prop :=
  exists a s', m s = Some (a, s') /\ Step s s' /\ Q a s'.

End Tokens.

(** The methods that expect a token: the cursor moves by one when the
    token is there and stays otherwise. *)
Definition Expected (found : bool) (s s' : State) : Prop :=
  if found then pos s' = S (pos s) else pos s' = pos s.

End ParserSpec.

(* ================================================================== *)
(** * What the parser reports and what it leaves alone *)
(* ================================================================== *)

Module ParserReports.
Import Parser SpanBounds.

(** A diagnostic as [error] pushes it: an error without a rule or a
    reference, at a span within a source of [len] characters. *)
Definition parserDiagnostic (len : Z) (d : Diagnostic) : Prop :=
  dg_severity d = SevError /\ dg_rule d = None /\ dg_specRef d = None
  /\ Within len (dg_span d).

Definition isComment (t : Token) : bool := bool_decide (tk_type t = TComment).

Section Fields.

(** The token list and the comments that [parse] stored. *)
Variable toks : list Token.
Variable coms : list Token.
Variable len : Z.

(** The fields that the methods only read, and the diagnostics so far. *)
Definition Kept (s : State) : Prop :=
  tokens s = toks /\ comments s = coms
  /\ Forall (parserDiagnostic len) (diagnostics s).

(** A method that keeps the token list and the comments and pushes
    diagnostics of the parser's shape only. *)
Definition Keeps {A : Type} (m : P A) : Prop :=
  forall s a s', m s = Some (a, s') -> Kept s -> Kept s'.

End Fields.

End ParserReports.

(* ================================================================== *)
(** * The shape of the validator's diagnostics *)
(* ================================================================== *)

Module DiagnosticShape.
Import Validator.

(** The rules of each branch of [validateNetwork], in the order of its
    passes, and the two rules that follow every branch. *)
Definition link16Rules : list string :=
  [ "ncs-required"; "total-tsdf-budget"; "npg-subscriber-coverage";
    "ppli-required"; "message-npg-match"; "stacking-consistency";
    "valid-npg-reference"; "valid-j-message-reference"; "participant-reference";
    "valid-role"; "valid-platform-type"; "valid-track-number";
    "required-property"; "valid-net-number"; "valid-tsdf";
    "valid-classification" ].

Definition link22Rules : list string :=
  [ "link22-forwarding"; "link22-controller-required"; "valid-operating-mode";
    "valid-data-rate"; "valid-role"; "valid-unit-id"; "valid-forwarding";
    "required-property"; "valid-classification"; "unit-id-uniqueness" ].

Definition uniquenessRules : list string :=
  [ "track-number-uniqueness"; "net-number-uniqueness" ].

(** The rules that a network can be reported under, by the value of its
    [link] property as [getPropertyValue] reads it. *)
Definition rulesFor (linkType : option string) : list string :=
  (if is_str linkType "Link16" then link16Rules
   else if is_str linkType "Link22" then link22Rules
   else [ "valid-link-type" ])
  ++ uniquenessRules.

(** The spans of the nodes of a network that carry one: the network, its
    properties, and its terminals, nets, subnetworks, members and message
    entries with their properties. *)
Definition propertySpans (ps : list PropertyAssignment) : list SourceSpan :=
  map p_span ps.

Definition terminalSpans (t : TerminalDeclaration) : list SourceSpan :=
  t_span t :: propertySpans (t_properties t).

Definition netSpans (n : NetDeclaration) : list SourceSpan :=
  n_span n :: propertySpans (n_properties n).

Definition memberSpans (m : MemberDeclaration) : list SourceSpan :=
  m_span m :: propertySpans (m_properties m).

Definition subnetworkSpans (s : SubnetworkDeclaration) : list SourceSpan :=
  s_span s :: propertySpans (s_properties s) ++ flat_map memberSpans (s_members s).

Definition entrySpans (e : MessageEntry) : list SourceSpan :=
  me_span e :: propertySpans (me_properties e).

Definition networkSpans (n : NetworkDeclaration) : list SourceSpan :=
  nw_span n :: propertySpans (nw_properties n)
  ++ flat_map terminalSpans (nw_terminals n)
  ++ flat_map netSpans (nw_nets n)
  ++ flat_map subnetworkSpans (nw_subnetworks n)
  ++ flat_map entrySpans (catalogEntries n).

Section Spans.

(** A property of spans, and the nodes whose spans have it. *)
Variable Ok : SourceSpan -> Prop.

Definition propertiesOk (ps : list PropertyAssignment) : Prop :=
  Forall (fun p => Ok (p_span p)) ps.

Definition terminalOk (t : TerminalDeclaration) : Prop :=
  Ok (t_span t) /\ propertiesOk (t_properties t).

Definition netOk (n : NetDeclaration) : Prop :=
  Ok (n_span n) /\ propertiesOk (n_properties n).

Definition memberOk (m : MemberDeclaration) : Prop :=
  Ok (m_span m) /\ propertiesOk (m_properties m).

Definition subnetworkOk (s : SubnetworkDeclaration) : Prop :=
  Ok (s_span s) /\ propertiesOk (s_properties s) /\ Forall memberOk (s_members s).

Definition entryOk (e : MessageEntry) : Prop :=
  Ok (me_span e) /\ propertiesOk (me_properties e).

Definition networkOk (n : NetworkDeclaration) : Prop :=
  Ok (nw_span n) /\ propertiesOk (nw_properties n)
  /\ Forall terminalOk (nw_terminals n)
  /\ Forall netOk (nw_nets n)
  /\ Forall subnetworkOk (nw_subnetworks n)
  /\ Forall entryOk (catalogEntries n).

(** A diagnostic at a span with the property, under one of [rules], and an
    error or a warning. *)
Definition Shaped (rules : list string) (d : Diagnostic) : Prop :=
  Ok (dg_span d)
  /\ (exists r, dg_rule d = Some r /\ In r rules)
  /\ (dg_severity d = SevError \/ dg_severity d = SevWarning).

End Spans.

End DiagnosticShape.

(* ================================================================== *)
(** * What the tokens say about the source *)
(* ================================================================== *)

Module LexerOutput.
Import Lexer.

Definition isNewline (c : ascii) : bool := Ascii.eqb c ch_newline.

(** The 1-based line of the offset [off]: one more than the newlines
    before it. *)
Definition lineOf (src : string) (off : nat) : Z :=
  1 + Z.of_nat (List.length
                  (List.filter isNewline (take off (String.list_ascii_of_string src)))).

(** [start] is where the line of the offset [off] starts: at the start of
    the source or after a newline, with no newline from there to [off]. *)
Definition LineStart (src : string) (off start : nat) : Prop :=
  (start <= off)%nat
  /\ (forall i, (start <= i < off)%nat -> String.get i src <> Some ch_newline)
  /\ (start = 0%nat \/ String.get (start - 1) src = Some ch_newline).

(** [line] and [column] are the 1-based line and column of [off]. *)
Definition PlacedAt (src : string) (off : nat) (line column : Z) : Prop :=
  line = lineOf src off
  /\ exists start, LineStart src off start
                   /\ column = 1 + Z.of_nat (off - start).

Definition Placed (s : State) : Prop :=
  PlacedAt (source s) (pos s) (line s) (column s).

(** The fields that [advance] reads and writes. *)
Definition cursor (s : State) : string * nat * Z * Z :=
  (source s, pos s, line s, column s).

(** From [s] the cursor got to [s'] by calls of [advance]. *)
Definition Walked (s s' : State) : Prop :=
  exists k, cursor s' = cursor (Nat.iter k advance s).

(** The characters from [a] to [b] are spaces, tabs or carriage returns. *)
Definition blankRun (src : string) (a b : nat) : Prop :=
  forall i, (a <= i < b)%nat ->
    exists c, String.get i src = Some c /\ isBlank c = true.

(** What a call of [scanToken] from [s] to [s'] leaves in the token list:
    nothing, when it consumed blanks; or one token, whose span starts at
    the cursor of [s] with the length of what was consumed, and whose
    value is what was consumed. *)
Definition Emits (s s' : State) : Prop :=
  (tokens s' = tokens s /\ blankRun (source s) (pos s) (pos s'))
  \/ (exists t, tokens s' = tokens s ++ [t]
                /\ tk_type t <> TEOF
                /\ tk_span t = makeSpan s (Z.of_nat (pos s' - pos s))
                /\ tk_value t = slice (source s) (pos s) (pos s')).

(** A token that describes its lexeme: [value] is the slice of the source
    that the span covers, and [line] and [column] are those of the
    offset. *)
Definition Faithful (src : string) (t : Token) : Prop :=
  exists a n : nat,
    sp_offset (tk_span t) = Z.of_nat a
    /\ sp_length (tk_span t) = Z.of_nat n
    /\ (a + n <= String.length src)%nat
    /\ tk_value t = String.substring a n src
    /\ PlacedAt src a (sp_line (tk_span t)) (sp_column (tk_span t)).

(** The offset [i] is inside the span of [t]. *)
Definition covers (t : Token) (i : nat) : Prop :=
  sp_offset (tk_span t) <= Z.of_nat i
  < sp_offset (tk_span t) + sp_length (tk_span t).

(** Every character before [upto] that is no blank is inside a token. *)
Definition Covered (src : string) (toks : list Token) (upto : nat) : Prop :=
  forall i c, (i < upto)%nat -> String.get i src = Some c -> isBlank c = false ->
    Exists (fun t => covers t i) toks.

(** A token of the scanner proper: not the end-of-input token, and at
    least one character long. *)
Definition Scannable (t : Token) : Prop :=
  tk_type t <> TEOF /\ 1 <= sp_length (tk_span t).

(** The invariant of the loop of [tokenize] for the properties above. *)
Definition Lexed (s : State) : Prop :=
  Placed s
  /\ Forall (Faithful (source s)) (tokens s)
  /\ Forall Scannable (tokens s)
  /\ Covered (source s) (tokens s) (pos s).

End LexerOutput.

(* ================================================================== *)
(** * Where error recovery stops *)
(* ================================================================== *)

Module Recovery.
Import Parser.

(** A keyword that starts a declaration, at which [synchronize] stops. *)
Definition syncKeyword (t : Token) : bool :=
  bool_decide (tk_type t = TKeyword)
  && (String.eqb (tk_value t) "network" || String.eqb (tk_value t) "terminal"
      || String.eqb (tk_value t) "net" || String.eqb (tk_value t) "subnetwork"
      || String.eqb (tk_value t) "messages" || String.eqb (tk_value t) "filters").

(** The tokens from [from] up to [upto] that [synchronize] passed over:
    none of them ends the input, starts a declaration or closes a block. *)
Definition Skipped (toks : list Token) (from upto : nat) : Prop :=
  forall i t, (from <= i < upto)%nat -> toks !! i = Some t ->
    tk_type t <> TEOF /\ tk_type t <> TRBrace /\ syncKeyword t = false.

(** Where [synchronize] leaves the cursor: at the end of the input, at a
    keyword that starts a declaration, or after a closing brace. *)
Definition Resumes (toks : list Token) (from upto : nat) : Prop :=
  (exists t, toks !! upto = Some t /\ (tk_type t = TEOF \/ syncKeyword t = true)
             /\ Skipped toks from upto)
  \/ (exists t, (from < upto)%nat /\ toks !! (upto - 1)%nat = Some t
                /\ tk_type t = TRBrace /\ Skipped toks from (upto - 1)).

End Recovery.

(* ================================================================== *)
(** * What single rules report *)
(* ================================================================== *)

Module RuleReports.
Import Validator.

(** The two diagnostics of rule [ncs-required]. *)
Definition ncsMissing (span : SourceSpan) : Diagnostic :=
  mkDiag "A Link 16 network must have exactly one terminal with role NetControlStation."
         SevError span (Some "ncs-required") (Some "MIL-STD-6016 §3.2.1").

Definition ncsRepeated (span : SourceSpan) : Diagnostic :=
  mkDiag "Multiple NCS terminals defined. Only one NetControlStation is allowed per network."
         SevError span (Some "ncs-required") (Some "MIL-STD-6016 §3.2.1").

(** The number that the first property with the key [key] holds. *)
Definition numberOf (key : string) (ps : list PropertyAssignment) : option float :=
  match findProp ps key with
  | Some (mkProperty _ (PVNumber x) _) => Some x
  | _ => None
  end.

(** The track numbers of the terminals and the net numbers of the nets
    that have one, in document order. *)
Definition trackNumbers (n : NetworkDeclaration) : list float :=
  omap (fun t => numberOf "track_number" (t_properties t)) (nw_terminals n).

Definition netNumbers (n : NetworkDeclaration) : list float :=
  omap (fun t => numberOf "net_number" (n_properties t)) (nw_nets n).

(** Two entries of the list are the same key of a [Map]. *)
Definition duplicated (nums : list float) : Prop :=
  exists (i j : nat) (x y : float),
    (i < j)%nat /\ nums !! i = Some x /\ nums !! j = Some y
    /\ sameValueZero x y = true.

(** A later number, or a key of the map, is the same key as a number of
    the list. *)
Definition clashes (m : NumMap) (nums : list float) : Prop :=
  exists (j : nat) (y : float),
    nums !! j = Some y
    /\ ((exists e, In e m /\ sameValueZero (fst e) y = true)
        \/ (exists (i : nat) (x : float),
              (i < j)%nat /\ nums !! i = Some x /\ sameValueZero x y = true)).

(** A Link 16 network with two control stations that share the track
    number 100, and two nets that share the net number 1. *)
Definition twoStations : NetworkDeclaration :=
  mkNetwork "X"
    [ mkProperty "link" (PVIdentifier "Link16") (mkSpan 2 3 16 12) ]
    [ mkTerminal "A"
        [ mkProperty "role" (PVIdentifier "NetControlStation") (mkSpan 4 5 50 23);
          mkProperty "track_number" (PVNumber 100) (mkSpan 5 5 78 17) ]
        (mkSpan 3 3 31 68);
      mkTerminal "B"
        [ mkProperty "role" (PVIdentifier "NetControlStation") (mkSpan 8 5 121 23);
          mkProperty "track_number" (PVNumber 100) (mkSpan 9 5 149 17) ]
        (mkSpan 7 3 102 68) ]
    [ mkNet "N1" [ mkProperty "net_number" (PVNumber 1) (mkSpan 12 5 190 13) ]
        (mkSpan 11 3 173 34);
      mkNet "N2" [ mkProperty "net_number" (PVNumber 1) (mkSpan 15 5 227 13) ]
        (mkSpan 14 3 210 34) ]
    [] None None (mkSpan 1 1 0 246).

End RuleReports.

(* ================================================================== *)
(** * The values of a property that are one token *)
(* ================================================================== *)

Module PropertyForms.
Import Parser.

Section WithNumberParsing.

Variable jsNumber : string -> float.
Variable jsParseFloat : string -> float.

(** The value that a token stands for as the value of a property, for the
    token types that are a value on their own. *)
Definition simpleValue (t : Token) : option PropertyValue :=
  match tk_type t with
  | TString => Some (PVString (stripQuotes (tk_value t)))
  | TNumber => Some (PVNumber (jsNumber (tk_value t)))
  | TPercent => Some (PVPercent (jsParseFloat (tk_value t)))
  | TDuration => Some (PVDuration (tk_value t))
  | TBoolean => Some (PVBoolean (String.eqb (tk_value t) "true"))
  | THexNumber => Some (PVHex (tk_value t))
  | TIdentifier | TKeyword => Some (PVIdentifier (tk_value t))
  | _ => None
  end.

End WithNumberParsing.

(** The comma after [key : value], when there is one. *)
Definition trailingComma (s : State) : option Token :=
  match tokens s !! S (S (S (pos s))) with
  | Some c => if bool_decide (tk_type c = TComma) then Some c else None
  | None => None
  end.

(** The fields after [key : value] and the comma, when there is one, were
    consumed. *)
Definition afterAssignment (s : State) : State :=
  let n := match trailingComma s with Some _ => 4%nat | None => 3%nat end in
  mkState (tokens s) (pos s + n) (diagnostics s) (comments s)
          (advanceCalls s + n).

(** The tokens of [tsdf: 25%,] and the end of the input. *)
Definition percentTokens : list Token :=
  [ mkToken TIdentifier "tsdf" (mkSpan 1 1 0 4);
    mkToken TColon ":" (mkSpan 1 5 4 1);
    mkToken TPercent "25%" (mkSpan 1 7 6 3);
    mkToken TComma "," (mkSpan 1 10 9 1);
    mkToken TEOF EmptyString (mkSpan 1 11 10 0) ].

End PropertyForms.

(* ================================================================== *)
(** * Blanks, newlines and comments in the tokens of the lexer *)
(* ================================================================== *)

Module LexerTrivia.
Import Lexer LexerOutput.

(** The characters from [a] to [b] all satisfy [P]. *)
Definition run (P : ascii -> Prop) (src : string) (a b : nat) : Prop :=
  forall i, (a <= i < b)%nat -> exists c, String.get i src = Some c /\ P c.

(** Neither a newline nor a space, tab or carriage return. *)
Definition plain (c : ascii) : Prop := c <> ch_newline /\ isBlank c = false.

(** A character after the first one of a token of the type [type]: never
    a newline, and a blank only in a string or a comment. *)
Definition Inner (type : TokenType) (c : ascii) : Prop :=
  c <> ch_newline /\ (isBlank c = true -> type = TString \/ type = TComment).

(** From [s] the cursor moved to [s'] over characters that satisfy [P]. *)
Definition Took (P : ascii -> Prop) (s s' : State) : Prop :=
  LexerSpec.Moved s s' /\ run P (source s) (pos s) (pos s').

(** A call of [scanToken] from [s] to [s'] that pushed one token, over
    what it consumed; after the first character there are only
    characters that a token of the type holds. *)
Definition PushesOne (s s' : State) : Prop :=
  source s' = source s /\ (pos s <= pos s')%nat
  /\ exists t, tokens s' = tokens s ++ [t]
               /\ tk_span t = makeSpan s (Z.of_nat (pos s' - pos s))
               /\ run (Inner (tk_type t)) (source s) (S (pos s)) (pos s').

(** The line in which the offset [i] lies ends at [e]: at the next
    newline or at the end of the source. *)
Definition lineEnd (src : string) (i e : nat) : Prop :=
  (i <= e)%nat
  /\ (forall j, (i <= j < e)%nat -> String.get j src <> Some ch_newline)
  /\ (String.get e src = Some ch_newline \/ e = String.length src).

(** A token whose type is the one that the scanner chooses at its first
    character: no token starts at a blank, a token that starts at a
    newline is the Newline token of that character, a token that starts at
    [--] is a Comment up to the end of the line, and the characters after
    the first are those of the type. *)
Definition Classified (src : string) (t : Token) : Prop :=
  exists a n : nat,
    sp_offset (tk_span t) = Z.of_nat a
    /\ sp_length (tk_span t) = Z.of_nat n
    /\ (forall c, String.get a src = Some c -> isBlank c = false)
    /\ (String.get a src = Some ch_newline -> tk_type t = TNewline /\ n = 1%nat)
    /\ (String.get a src = Some "-"%char -> String.get (S a) src = Some "-"%char ->
        tk_type t = TComment
        /\ (String.get (a + n) src = Some ch_newline
            \/ (a + n)%nat = String.length src))
    /\ run (Inner (tk_type t)) src (S a) (a + n).

(** The offset [i] is inside [t] after its first character. *)
Definition inside (t : Token) (i : nat) : Prop :=
  sp_offset (tk_span t) < Z.of_nat i
  < sp_offset (tk_span t) + sp_length (tk_span t).

(** Two lines: an identifier, a blank and a comment, then an identifier. *)
Definition twoLines : string :=
  "a -- c" +:+ String ch_newline "b".

End LexerTrivia.

(* ================================================================== *)
(** * Properties of the validator *)
(* ================================================================== *)

Module ValidatorFacts.
Import Validator ValidatorOutput.

Lemma fold_left_append_only {A : Type}
    (step : list Diagnostic -> A -> list Diagnostic) (items : list A) :
  (forall d x, step d x = d ++ step [] x) ->
  forall d, fold_left step items d = d ++ flat_map (step []) items.
Proof.
  intros Hstep. induction items as [|x items IH]; intros d; simpl.
  - by rewrite app_nil_r.
  - rewrite IH, (Hstep d x). by rewrite <- app_assoc.
Qed.

Lemma fold_left_scan {S A : Type}
    (step : S * list Diagnostic -> A -> S * list Diagnostic) (items : list A) :
  (forall st d x, step (st, d) x
                  = (fst (step (st, []) x), d ++ snd (step (st, []) x))) ->
  forall st d, snd (fold_left step items (st, d)) = d ++ scan step st items.
Proof.
  intros Hstep. induction items as [|x items IH]; intros st d; simpl.
  - by rewrite app_nil_r.
  - rewrite (Hstep st d x), IH. by rewrite <- app_assoc.
Qed.

(** Every loop body only pushes: started on [d], it returns [d] followed by
    what it returns when started on the empty list. *)
Ltac push_only :=
  intros; unfold push; repeat case_match;
  rewrite ?app_nil_r, <- ?app_assoc; reflexivity.

Section WithNumberFormat.
Variable numberToString : float -> string.

Lemma ppliTerminal_push d t : ppliTerminal d t = d ++ ppliTerminal [] t.
Proof. unfold ppliTerminal. push_only. Qed.

Lemma messageNpgEntry_push d e : messageNpgEntry d e = d ++ messageNpgEntry [] e.
Proof. unfold messageNpgEntry. push_only. Qed.

Lemma stackedNeedsLevel_push n a b d :
  stackedNeedsLevel numberToString n a b d
  = d ++ stackedNeedsLevel numberToString n a b [].
Proof. unfold stackedNeedsLevel. push_only. Qed.

Lemma levelNeedsStacked_push n a b d :
  levelNeedsStacked n a b d = d ++ levelNeedsStacked n a b [].
Proof. unfold levelNeedsStacked. push_only. Qed.

Lemma stackingNet_push d n :
  stackingNet numberToString d n = d ++ stackingNet numberToString [] n.
Proof.
  unfold stackingNet. cbv zeta.
  rewrite levelNeedsStacked_push, stackedNeedsLevel_push.
  rewrite (levelNeedsStacked_push _ _ _ (stackedNeedsLevel _ _ _ _ [])).
  by rewrite <- app_assoc.
Qed.


Lemma coverageNpg_push n t sp d x :
  coverageNpg n t sp d x = d ++ coverageNpg n t sp [] x.
Proof. unfold coverageNpg. push_only. Qed.

Lemma coverageTerminal_push n d t :
  coverageTerminal n d t = d ++ coverageTerminal n [] t.
Proof.
  unfold coverageTerminal. repeat case_match; try by rewrite app_nil_r.
  rewrite !(fold_left_append_only _ _ (coverageNpg_push n t _)). done.
Qed.

Lemma npgRefId_push sp d x : npgRefId sp d x = d ++ npgRefId sp [] x.
Proof. unfold npgRefId. push_only. Qed.

Lemma npgRefProperty_push d p : npgRefProperty d p = d ++ npgRefProperty [] p.
Proof.
  unfold npgRefProperty. repeat case_match; try by rewrite app_nil_r.
  rewrite !(fold_left_append_only _ _ (npgRefId_push _)). done.
Qed.

Lemma npgRefTerminal_push d t : npgRefTerminal d t = d ++ npgRefTerminal [] t.
Proof.
  unfold npgRefTerminal.
  rewrite !(fold_left_append_only _ _ npgRefProperty_push). done.
Qed.

Lemma npgRefNet_push d n : npgRefNet d n = d ++ npgRefNet [] n.
Proof. unfold npgRefNet. push_only. Qed.

Lemma jmessageRefEntry_push d e : jmessageRefEntry d e = d ++ jmessageRefEntry [] e.
Proof. unfold jmessageRefEntry. push_only. Qed.

Lemma participantName_push n net sp d x :
  participantName n net sp d x = d ++ participantName n net sp [] x.
Proof. unfold participantName. push_only. Qed.

Lemma participantNet_push n d net :
  participantNet n d net = d ++ participantNet n [] net.
Proof.
  unfold participantNet. repeat case_match; try by rewrite app_nil_r.
  rewrite !(fold_left_append_only _ _ (participantName_push n net _)). done.
Qed.

Lemma terminalRole_push r d : terminalRole r d = d ++ terminalRole r [].
Proof. unfold terminalRole. push_only. Qed.

Lemma terminalPlatformType_push t d :
  terminalPlatformType t d = d ++ terminalPlatformType t [].
Proof. unfold terminalPlatformType. push_only. Qed.

Lemma terminalTrackNumber_push t d :
  terminalTrackNumber numberToString t d
  = d ++ terminalTrackNumber numberToString t [].
Proof. unfold terminalTrackNumber. push_only. Qed.

Lemma terminalRoleRequired_push t r d :
  terminalRoleRequired t r d = d ++ terminalRoleRequired t r [].
Proof. unfold terminalRoleRequired. push_only. Qed.

Lemma terminalProperties_push d t :
  terminalProperties numberToString d t
  = d ++ terminalProperties numberToString [] t.
Proof.
  unfold terminalProperties. cbv zeta.
  rewrite terminalRoleRequired_push, terminalTrackNumber_push,
    terminalPlatformType_push, terminalRole_push.
  rewrite (terminalRoleRequired_push _ _ (terminalTrackNumber _ _ _)),
    (terminalTrackNumber_push _ (terminalPlatformType _ _)),
    (terminalPlatformType_push _ (terminalRole _ _)).
  by rewrite <- !app_assoc.
Qed.

Lemma netNumberRange_push p d :
  netNumberRange numberToString p d = d ++ netNumberRange numberToString p [].
Proof. unfold netNumberRange. push_only. Qed.

Lemma netTsdfRange_push n d :
  netTsdfRange numberToString n d = d ++ netTsdfRange numberToString n [].
Proof. unfold netTsdfRange. push_only. Qed.

Lemma netNumberRequired_push n p d :
  netNumberRequired n p d = d ++ netNumberRequired n p [].
Proof. unfold netNumberRequired. push_only. Qed.

Lemma netProperties_push d n :
  netProperties numberToString d n = d ++ netProperties numberToString [] n.
Proof.
  unfold netProperties. cbv zeta.
  rewrite netNumberRequired_push, netTsdfRange_push, netNumberRange_push.
  rewrite (netNumberRequired_push _ _ (netTsdfRange _ _ _)),
    (netTsdfRange_push _ (netNumberRange _ _ _)).
  by rewrite <- !app_assoc.
Qed.

Lemma memberRole_push r d : memberRole r d = d ++ memberRole r [].
Proof. unfold memberRole. push_only. Qed.

Lemma memberUnitIdIsHex_push u d : memberUnitIdIsHex u d = d ++ memberUnitIdIsHex u [].
Proof. unfold memberUnitIdIsHex. push_only. Qed.

Lemma memberForwarding_push m d : memberForwarding m d = d ++ memberForwarding m [].
Proof. unfold memberForwarding. push_only. Qed.

Lemma memberRoleRequired_push m r d :
  memberRoleRequired m r d = d ++ memberRoleRequired m r [].
Proof. unfold memberRoleRequired. push_only. Qed.

Lemma memberUnitIdRequired_push m u d :
  memberUnitIdRequired m u d = d ++ memberUnitIdRequired m u [].
Proof. unfold memberUnitIdRequired. push_only. Qed.

Lemma memberProperties_push d m : memberProperties d m = d ++ memberProperties [] m.
Proof.
  unfold memberProperties. cbv zeta.
  rewrite memberUnitIdRequired_push, memberRoleRequired_push,
    memberForwarding_push, memberUnitIdIsHex_push, memberRole_push.
  rewrite (memberUnitIdRequired_push _ _ (memberRoleRequired _ _ _)),
    (memberRoleRequired_push _ _ (memberForwarding _ _)),
    (memberForwarding_push _ (memberUnitIdIsHex _ _)),
    (memberUnitIdIsHex_push _ (memberRole _ _)).
  by rewrite <- !app_assoc.
Qed.

Lemma subnetworkOperatingMode_push s d :
  subnetworkOperatingMode s d = d ++ subnetworkOperatingMode s [].
Proof. unfold subnetworkOperatingMode. push_only. Qed.

Lemma subnetworkDataRate_push s d :
  subnetworkDataRate s d = d ++ subnetworkDataRate s [].
Proof. unfold subnetworkDataRate. push_only. Qed.

Lemma subnetworkProperties_push d s :
  subnetworkProperties d s = d ++ subnetworkProperties [] s.
Proof.
  unfold subnetworkProperties. cbv zeta.
  rewrite !(fold_left_append_only _ _ memberProperties_push).
  rewrite subnetworkDataRate_push, subnetworkOperatingMode_push.
  rewrite (subnetworkDataRate_push _ (subnetworkOperatingMode _ _)).
  by rewrite <- !app_assoc.
Qed.

Lemma forwardingSubnetwork_push d s :
  forwardingSubnetwork d s = d ++ forwardingSubnetwork [] s.
Proof. unfold forwardingSubnetwork. push_only. Qed.

Lemma controllerSubnetwork_push d s :
  controllerSubnetwork d s = d ++ controllerSubnetwork [] s.
Proof. unfold controllerSubnetwork. push_only. Qed.

Lemma ncsExtra_push d t : ncsExtra d t = d ++ ncsExtra [] t.
Proof. reflexivity. Qed.

Lemma ncsRequired_push n d : ncsRequired n d = d ++ ncsRequired n [].
Proof.
  unfold ncsRequired. repeat case_match; try by rewrite app_nil_r.
  - reflexivity.
  - rewrite !(fold_left_append_only _ _ ncsExtra_push). done.
Qed.

Lemma validateTsdfBudget_push n d :
  validateTsdfBudget numberToString n d = d ++ validateTsdfBudget numberToString n [].
Proof. unfold validateTsdfBudget. push_only. Qed.

Lemma validateClassification_push n d :
  validateClassification n d = d ++ validateClassification n [].
Proof. unfold validateClassification. push_only. Qed.

Lemma unknownLinkType_push n l d : unknownLinkType n l d = d ++ unknownLinkType n l [].
Proof. unfold unknownLinkType. push_only. Qed.

Lemma trackNumberStep_push st d t :
  trackNumberStep numberToString (st, d) t
  = (fst (trackNumberStep numberToString (st, []) t),
     d ++ snd (trackNumberStep numberToString (st, []) t)).
Proof. unfold trackNumberStep. push_only. Qed.

Lemma netNumberStep_push st d n :
  netNumberStep numberToString (st, d) n
  = (fst (netNumberStep numberToString (st, []) n),
     d ++ snd (netNumberStep numberToString (st, []) n)).
Proof. unfold netNumberStep. push_only. Qed.

Lemma unitIdStep_push st d m :
  unitIdStep (st, d) m
  = (fst (unitIdStep (st, []) m), d ++ snd (unitIdStep (st, []) m)).
Proof. unfold unitIdStep. push_only. Qed.

Lemma unitId_members subs st :
  fold_left unitIdSubnetwork subs st
  = fold_left unitIdStep (flat_map s_members subs) st.
Proof.
  revert st. induction subs as [|s subs IH]; intros st; simpl; [done|].
  rewrite fold_left_app. apply IH.
Qed.

(** What each pass appends to [diag]. *)
Lemma validateLink16Network_output n d :
  validateLink16Network numberToString n d = d ++ link16Output numberToString n.
Proof.
  unfold validateLink16Network, link16Output,
    validateNpgSubscriberCoverage, validatePpliRequired, validateMessageNpgMatch,
    validateStackingConsistency, validateNpgReferences, validateJMessageReferences,
    validateParticipantReferences, validateLink16TerminalProperties,
    validateLink16NetProperties, catalogEntries.
  rewrite validateClassification_push.
  rewrite (fold_left_append_only _ _ netProperties_push).
  rewrite (fold_left_append_only _ _ terminalProperties_push).
  rewrite (fold_left_append_only _ _ (participantNet_push n)).
  rewrite (fold_left_append_only _ _ npgRefNet_push).
  rewrite (fold_left_append_only _ _ npgRefTerminal_push).
  rewrite (fold_left_append_only _ _ stackingNet_push).
  rewrite (fold_left_append_only _ _ ppliTerminal_push).
  rewrite (fold_left_append_only _ _ (coverageTerminal_push n)).
  rewrite validateTsdfBudget_push, ncsRequired_push.
  destruct (nw_messages n) as [mc|]; simpl.
  - rewrite (fold_left_append_only _ _ jmessageRefEntry_push).
    rewrite (fold_left_append_only _ _ messageNpgEntry_push).
    by rewrite <- !app_assoc.
  - by rewrite <- !app_assoc.
Qed.

Lemma validateLink22UnitIdUniqueness_output n d :
  validateLink22UnitIdUniqueness n d
  = d ++ scan unitIdStep ∅ (flat_map s_members (nw_subnetworks n)).
Proof.
  unfold validateLink22UnitIdUniqueness.
  rewrite unitId_members. apply fold_left_scan, unitIdStep_push.
Qed.

Lemma validateLink22Network_output n d :
  validateLink22Network n d = d ++ link22Output n.
Proof.
  unfold validateLink22Network, link22Output, validateLink22SubnetworkProperties.
  rewrite validateLink22UnitIdUniqueness_output, validateClassification_push.
  rewrite (fold_left_append_only _ _ subnetworkProperties_push).
  rewrite (fold_left_append_only _ _ controllerSubnetwork_push).
  rewrite (fold_left_append_only _ _ forwardingSubnetwork_push).
  by rewrite <- !app_assoc.
Qed.

Lemma validateNetwork_output n d :
  validateNetwork numberToString n d = d ++ networkOutput numberToString n.
Proof.
  unfold validateNetwork, networkOutput,
    validateNetNumberUniqueness, validateTrackNumberUniqueness.
  rewrite (fold_left_scan _ _ netNumberStep_push).
  rewrite (fold_left_scan _ _ trackNumberStep_push).
  repeat case_match.
  - rewrite validateLink16Network_output. by rewrite <- !app_assoc.
  - rewrite validateLink22Network_output. by rewrite <- !app_assoc.
  - rewrite unknownLinkType_push. by rewrite <- !app_assoc.
Qed.

(** C1 (as amended): the list that [validate] returns is the concatenation,
    over the networks in document order, of each network's diagnostics; a
    network's diagnostics are the outputs of the passes in the order in which
    [validateNetwork] runs them ([networkOutput]): the passes of its link
    type, then track-number-uniqueness and net-number-uniqueness; every pass
    lists what it emits item by item in document order. *)
Theorem validate_concatenates_passes (doc : DocumentNode) :
  validate numberToString doc = documentOutput numberToString doc.
Proof.
  unfold validate, documentOutput.
  rewrite (fold_left_append_only
             (fun diagnostics network => validateNetwork numberToString network diagnostics)).
  - simpl. apply flat_map_ext. intros n. by rewrite validateNetwork_output.
  - intros d n. by rewrite validateNetwork_output, (validateNetwork_output n []).
Qed.

End WithNumberFormat.
End ValidatorFacts.

Module ValidatorClaims.
Import Validator ValidatorOutput ValidatorFacts SpecCatalog ValidatorExamples Conversions.

(** C1, counterexample: on a Link 16 network without terminals and with an
    unknown classification, ncs-required comes before valid-classification,
    against the order of the catalog. *)
Lemma validate_not_in_catalog_order :
  map dg_rule (validate showIntegral badClassification16)
    = [Some "ncs-required"; Some "valid-classification"]
  /\ inCatalogOrder (validate showIntegral badClassification16) = false.
Proof. split; vm_compute; reflexivity. Qed.

(** C3, the code at the failing input: a network without a [link] property
    and with an unknown classification gets no diagnostic. *)
Lemma classification_unchecked_without_link :
  validate showIntegral noLinkBadClassification = [].
Proof. vm_compute. reflexivity. Qed.

(** C4, counterexample: with [link: 5 link: Link16] the helper returns
    nothing, where the first property with the key and an identifier or
    string value is the second one. *)
Lemma getPropertyValue_does_not_skip :
  getPropertyValue linkTwice "link" = None
  /\ get_identifier linkTwice "link" = Some "Link16".
Proof. split; vm_compute; reflexivity. Qed.

Lemma findProp_first props key :
  (Forall (fun p => p_key p <> key) props -> findProp props key = None)
  /\ (forall pre p post,
        props = pre ++ p :: post ->
        Forall (fun q => p_key q <> key) pre ->
        p_key p = key ->
        findProp props key = Some p).
Proof.
  unfold findProp. split.
  - induction 1 as [|q l Hq _ IH]; simpl; [done|].
    destruct (String.eqb_spec (p_key q) key); [done | apply IH].
  - intros pre p post -> Hpre Hp. induction Hpre as [|q l Hq _ IH]; simpl.
    + by rewrite Hp, String.eqb_refl.
    + destruct (String.eqb_spec (p_key q) key); [done | apply IH].
Qed.

(** C4 (as amended): [getPropertyValue] looks at the first property in
    source order whose key matches, and only at that one: it returns its
    value when that is an identifier or a string, and nothing when it is of
    another variant or when no property has the key. *)
Theorem getPropertyValue_first_key props key :
  (Forall (fun p => p_key p <> key) props -> getPropertyValue props key = None)
  /\ (forall pre p post,
        props = pre ++ p :: post ->
        Forall (fun q => p_key q <> key) pre ->
        p_key p = key ->
        getPropertyValue props key = textOf (p_value p)).
Proof.
  unfold getPropertyValue.
  destruct (findProp_first props key) as [Hnone Hsome]. split.
  - intros H. by rewrite (Hnone H).
  - intros pre p post Heq Hpre Hp. rewrite (Hsome pre p post Heq Hpre Hp).
    by destruct (p_value p).
Qed.

Lemma getPropertyValue_first_key_witness :
  getPropertyValue roleThenLink "link" = Some "Link16"
  /\ getPropertyValue linkTwice "link" = None
  /\ getPropertyValue roleThenLink "tsdf" = None.
Proof.
  split; [|split].
  - apply (proj2 (getPropertyValue_first_key roleThenLink "link")
                 [mkProperty "role" (PVBoolean true) (sp 14 10)]
                 (mkProperty "link" (PVIdentifier "Link16") (sp 25 12)) []).
    + reflexivity.
    + repeat constructor. discriminate.
    + reflexivity.
  - apply (proj2 (getPropertyValue_first_key linkTwice "link")
                 [] (mkProperty "link" (PVNumber 5) (sp 14 7))
                 [mkProperty "link" (PVIdentifier "Link16") (sp 22 12)]).
    + reflexivity.
    + constructor.
    + reflexivity.
  - apply (proj1 (getPropertyValue_first_key roleThenLink "tsdf")).
    repeat constructor; discriminate.
Defined.

(* ---- total-tsdf-budget ---- *)





(** A block that pushes diagnostics of other rules adds none of this one. *)
Ltac other_rule :=
  intros; unfold push, tsdfBudgetDiagnostics in *; repeat case_match;
  rewrite ?List.filter_app; simpl; rewrite ?app_nil_r; auto.

Section WithNumberFormat.
Variable numberToString : float -> string.























End WithNumberFormat.



End ValidatorClaims.

Module UnitIdFacts.
Import Validator ValidatorOutput ValidatorFacts CaseVariants.

Lemma findProp_caseVariant ps ps' key :
  Forall2 caseVariantProperty ps ps' ->
  option_Forall2 caseVariantProperty (findProp ps key) (findProp ps' key).
Proof.
  unfold findProp. induction 1 as [|p p' ps ps' (Hk & Hs & Hv) _ IH]; simpl.
  - constructor.
  - rewrite <- Hk. destruct (String.eqb (p_key p) key); [|done].
    constructor. by split.
Qed.

Lemma unitIdStep_caseVariant st m m' :
  caseVariantMember m m' ->
  fst (unitIdStep (st, []) m) = fst (unitIdStep (st, []) m')
  /\ Forall2 sameUpToCase (snd (unitIdStep (st, []) m)) (snd (unitIdStep (st, []) m')).
Proof.
  intros (Hname & _ & Hprops). unfold unitIdStep.
  destruct (findProp_caseVariant _ _ "unit_id" Hprops)
    as [[k v sp] [k' v' sp'] (Hk & Hs & Hv)|]; simpl in *; [|by split].
  subst. destruct v, v'; simpl in Hv; try discriminate; try (by split).
  rewrite Hv, Hname.
  destruct (truthy _ && negb _); simpl; split; try done.
  repeat constructor. by eexists _, _, _, _.
Qed.

Lemma scan_unitId_caseVariant ms ms' :
  Forall2 caseVariantMember ms ms' ->
  forall st, Forall2 sameUpToCase (scan unitIdStep st ms) (scan unitIdStep st ms').
Proof.
  induction 1 as [|m m' ms ms' Hm _ IH]; intros st; cbn [scan]; [constructor|].
  destruct (unitIdStep_caseVariant st m m' Hm) as [Hst Hout].
  apply Forall2_app; [done|]. rewrite Hst. apply IH.
Qed.

Lemma members_caseVariant ss ss' :
  Forall2 caseVariantSubnetwork ss ss' ->
  Forall2 caseVariantMember (flat_map s_members ss) (flat_map s_members ss').
Proof.
  induction 1 as [|s s' ss ss' (_ & _ & _ & Hm) _ IH]; simpl; [constructor|].
  by apply Forall2_app.
Qed.

Lemma scan_unitId_app ms1 ms2 : forall st,
  scan unitIdStep st (ms1 ++ ms2)
  = scan unitIdStep st ms1 ++ scan unitIdStep (unitIdsAfter st ms1) ms2.
Proof.
  induction ms1 as [|m ms1 IH]; intros st; cbn [scan app]; [done|].
  rewrite IH. by rewrite <- app_assoc.
Qed.

(** What the loop body does on a member with a hex unit id. *)
Lemma unitIdStep_hex st m v span :
  unitIdOf m = Some (v, span) ->
  unitIdStep (st, []) m
  = if truthy (st !! toLowerCase v) && negb (is_str (st !! toLowerCase v) (m_name m))
    then (st, [unitIdDiagnostic v (default EmptyString (st !! toLowerCase v)) span])
    else (<[toLowerCase v := m_name m]> st, []).
Proof.
  unfold unitIdOf, unitIdStep.
  destruct (findProp _ _) as [[k [] sp]|]; intros H; simplify_eq.
  cbv zeta. by destruct (truthy _ && negb _).
Qed.

(** The map entry of a unit id, once it is a non-empty name, stays. *)
Lemma unitIdStep_keeps st m uid name :
  st !! uid = Some name -> name <> EmptyString ->
  fst (unitIdStep (st, []) m) !! uid = Some name.
Proof.
  intros Hst Hne. unfold unitIdStep.
  destruct (findProp _ _) as [[k [] sp]|]; try done. cbv zeta.
  destruct (truthy _ && negb _) eqn:Hwarn; [done|]. cbn [fst].
  destruct (decide (toLowerCase value = uid)) as [Huid|Hother].
  - rewrite Huid in *. rewrite Hst in Hwarn. simpl in Hwarn.
    destruct (String.eqb_spec name EmptyString); [done|]. simpl in Hwarn.
    destruct (String.eqb_spec name (m_name m)); [|done].
    subst. by rewrite lookup_insert_eq.
  - by rewrite lookup_insert_ne.
Qed.

Lemma unitIdsAfter_keeps ms : forall st uid name,
  st !! uid = Some name -> name <> EmptyString ->
  unitIdsAfter st ms !! uid = Some name.
Proof.
  induction ms as [|m ms IH]; intros st uid name Hst Hne; simpl; [done|].
  apply IH; [|done]. by apply unitIdStep_keeps.
Qed.

(** Two differently named members with the same unit id up to case: one of
    them is warned. *)
Lemma scan_unitId_duplicate pre m1 mid m2 post v1 sp1 v2 sp2 st :
  unitIdOf m1 = Some (v1, sp1) ->
  unitIdOf m2 = Some (v2, sp2) ->
  toLowerCase v1 = toLowerCase v2 ->
  m_name m1 <> EmptyString ->
  m_name m1 <> m_name m2 ->
  exists d, d ∈ scan unitIdStep st (pre ++ m1 :: mid ++ m2 :: post)
            /\ ((exists existing, d = unitIdDiagnostic v1 existing sp1)
                \/ d = unitIdDiagnostic v2 (m_name m1) sp2).
Proof.
  intros H1 H2 Hv Hne Hdiff.
  rewrite scan_unitId_app. cbn [scan].
  set (st1 := unitIdsAfter st pre).
  rewrite (unitIdStep_hex st1 m1 v1 sp1 H1).
  destruct (truthy (st1 !! toLowerCase v1) && negb _) eqn:Hwarn1; cbn [fst snd].
  - exists (unitIdDiagnostic v1 (default EmptyString (st1 !! toLowerCase v1)) sp1).
    split; [|left; by eexists].
    rewrite !elem_of_app, !elem_of_cons. auto.
  - rewrite scan_unitId_app. cbn [scan].
    set (st2 := unitIdsAfter _ mid).
    assert (st2 !! toLowerCase v2 = Some (m_name m1)) as Hst2.
    { apply unitIdsAfter_keeps; [|done]. rewrite <- Hv. apply lookup_insert_eq. }
    rewrite (unitIdStep_hex st2 m2 v2 sp2 H2), Hst2. simpl.
    destruct (String.eqb_spec (m_name m1) EmptyString); [done|].
    destruct (String.eqb_spec (m_name m1) (m_name m2)); [done|]. simpl.
    exists (unitIdDiagnostic v2 (m_name m1) sp2).
    split; [|right; reflexivity].
    rewrite !elem_of_app, !elem_of_cons. auto 6.
Qed.

End UnitIdFacts.

Module UnitIdClaims.
Import Validator ValidatorOutput ValidatorFacts CaseVariants UnitIdFacts.

(** C10 (as amended): the unit-id-uniqueness check compares unit ids without
    regard to letter case. Replacing unit_id values by values that differ
    only in letter case gives the same diagnostics up to the unit id that
    each message quotes, which is the one written; and of two differently
    named members whose unit ids differ only in case, the first with a
    non-empty name, one is warned as a duplicate. *)
Theorem unit_id_uniqueness_ignores_case (n n' : NetworkDeclaration) :
  (Forall2 caseVariantSubnetwork (nw_subnetworks n) (nw_subnetworks n') ->
   Forall2 sameUpToCase (validateLink22UnitIdUniqueness n [])
                        (validateLink22UnitIdUniqueness n' []))
  /\ (forall pre m1 mid m2 post v1 sp1 v2 sp2,
        membersOf n = pre ++ m1 :: mid ++ m2 :: post ->
        unitIdOf m1 = Some (v1, sp1) ->
        unitIdOf m2 = Some (v2, sp2) ->
        toLowerCase v1 = toLowerCase v2 ->
        m_name m1 <> EmptyString ->
        m_name m1 <> m_name m2 ->
        exists d, d ∈ validateLink22UnitIdUniqueness n []
                  /\ dg_severity d = SevWarning
                  /\ dg_rule d = Some "unit-id-uniqueness"
                  /\ (dg_span d = sp1 \/ dg_span d = sp2)).
Proof.
  rewrite !validateLink22UnitIdUniqueness_output. simpl. split.
  - intros H. by apply scan_unitId_caseVariant, members_caseVariant.
  - intros pre m1 mid m2 post v1 sp1 v2 sp2 Hms H1 H2 Hv Hne Hdiff.
    unfold membersOf in Hms. rewrite Hms.
    destruct (scan_unitId_duplicate pre m1 mid m2 post v1 sp1 v2 sp2 ∅
                H1 H2 Hv Hne Hdiff) as (d & Hd & [[e ->] | ->]);
      eexists; (split; [exact Hd|]); simpl; auto.
Qed.

Lemma unit_id_uniqueness_ignores_case_witness :
  Forall2 sameUpToCase
    (validateLink22UnitIdUniqueness (ValidatorExamples.twoMembers "0x1A3F" "0x1a3f") [])
    (validateLink22UnitIdUniqueness (ValidatorExamples.twoMembers "0x1A3F" "0x1A3F") [])
  /\ exists d,
       d ∈ validateLink22UnitIdUniqueness
             (ValidatorExamples.twoMembers "0x1A3F" "0x1a3f") []
       /\ dg_severity d = SevWarning
       /\ dg_rule d = Some "unit-id-uniqueness"
       /\ (dg_span d = ValidatorExamples.sp 55 15
           \/ dg_span d = ValidatorExamples.sp 86 15).
Proof.
  split.
  - apply (proj1 (unit_id_uniqueness_ignores_case
                    (ValidatorExamples.twoMembers "0x1A3F" "0x1a3f")
                    (ValidatorExamples.twoMembers "0x1A3F" "0x1A3F"))).
    repeat constructor.
  - apply (proj2 (unit_id_uniqueness_ignores_case
                    (ValidatorExamples.twoMembers "0x1A3F" "0x1a3f")
                    (ValidatorExamples.twoMembers "0x1A3F" "0x1a3f"))
                 [] (mkMember "A" [ mkProperty "unit_id" (PVHex "0x1A3F")
                                      (ValidatorExamples.sp 55 15) ]
                       (ValidatorExamples.sp 42 30))
                 [] (mkMember "B" [ mkProperty "unit_id" (PVHex "0x1a3f")
                                      (ValidatorExamples.sp 86 15) ]
                       (ValidatorExamples.sp 73 30))
                 [] "0x1A3F" (ValidatorExamples.sp 55 15)
                 "0x1a3f" (ValidatorExamples.sp 86 15));
      try reflexivity; discriminate.
Defined.

(** C10, counterexample: the two spellings of the second unit id give two
    different diagnostics, each quoting the unit id as written. *)
Lemma unit_id_message_quotes_lexeme :
  map dg_message
    (validateLink22UnitIdUniqueness (ValidatorExamples.twoMembers "0x1A3F" "0x1a3f") [])
    = ["Duplicate unit_id 0x1a3f. Also used by member 'A'."]
  /\ map dg_message
       (validateLink22UnitIdUniqueness (ValidatorExamples.twoMembers "0x1A3F" "0x1A3F") [])
     = ["Duplicate unit_id 0x1A3F. Also used by member 'A'."]
  /\ bool_decide
       (validateLink22UnitIdUniqueness (ValidatorExamples.twoMembers "0x1A3F" "0x1a3f") []
        = validateLink22UnitIdUniqueness (ValidatorExamples.twoMembers "0x1A3F" "0x1A3F") [])
     = false.
Proof. repeat split; vm_compute; reflexivity. Qed.

End UnitIdClaims.

(* ================================================================== *)
(** * The lexer returns, with its tokens in source order *)
(* ================================================================== *)

Module StringFacts.

Lemma get_Some_lt (s : string) (i : nat) (c : ascii) :
  String.get i s = Some c -> (i < String.length s)%nat.
Proof.
  revert i. induction s as [|a s IH]; intros [|i]; simpl; try done; try lia.
  intros H. apply IH in H. lia.
Qed.

Lemma get_None_ge (s : string) (i : nat) :
  String.get i s = None -> (String.length s <= i)%nat.
Proof.
  revert i. induction s as [|a s IH]; intros [|i]; simpl; try done; try lia.
  intros H. apply IH in H. lia.
Qed.

Lemma get_lt_Some (s : string) (i : nat) :
  (i < String.length s)%nat -> exists c, String.get i s = Some c.
Proof.
  intros H. destruct (String.get i s) as [c|] eqn:E; [by eexists|].
  apply get_None_ge in E. lia.
Qed.

Lemma length_substring_le (s : string) (n m : nat) :
  (String.length (String.substring n m s) <= m)%nat.
Proof.
  revert n m. induction s as [|a s IH]; intros [|n] [|m]; simpl; try lia.
  - specialize (IH 0%nat m). lia.
  - apply (IH n 0%nat).
  - apply (IH n (S m)).
Qed.

End StringFacts.

Module LexerFacts.
Import Lexer LexerSpec StringFacts.

Lemma Moved_refl s : Moved s s.
Proof. by split. Qed.

Lemma Moved_trans s1 s2 s3 : Moved s1 s2 -> Moved s2 s3 -> Moved s1 s3.
Proof.
  intros [A1 B1 C1 D1] [A2 B2 C2 D2]. split; try congruence; try lia.
  rewrite A1 in D2. lia.
Qed.

Lemma advance_Moved s : Moved s (advance s).
Proof.
  unfold advance. destruct (String.get (pos s) (source s)) as [c|] eqn:E.
  - apply get_Some_lt in E. destruct (Ascii.eqb c ch_newline); split; simpl; lia || done.
  - apply Moved_refl.
Qed.

Lemma advance_pos s :
  (pos s < String.length (source s))%nat -> pos (advance s) = S (pos s).
Proof.
  intros H. unfold advance. destruct (get_lt_Some _ _ H) as [c ->].
  by destruct (Ascii.eqb c ch_newline).
Qed.

Lemma advance_pos_le s : (pos (advance s) <= S (pos s))%nat.
Proof.
  unfold advance. destruct (String.get _ _) as [c|]; [|lia].
  destruct (Ascii.eqb c ch_newline); simpl; lia.
Qed.

Lemma iter_advance_Moved n s : Moved s (Nat.iter n advance s).
Proof.
  induction n as [|n IH]; simpl; [apply Moved_refl|].
  eapply Moved_trans; [exact IH | apply advance_Moved].
Qed.

Lemma advanceWhile_Moved fuel p s : Moved s (advanceWhile fuel p s).
Proof.
  revert s. induction fuel as [|fuel IH]; intros s; simpl; [apply Moved_refl|].
  destruct (String.get _ _) as [c|]; [|apply Moved_refl].
  destruct (p c); [|apply Moved_refl].
  eapply Moved_trans; [apply advance_Moved | apply IH].
Qed.

Lemma scanWhile_Moved p s : Moved s (scanWhile p s).
Proof. apply advanceWhile_Moved. Qed.

(** The loop stops where the source ends or the predicate fails: the fuel
    that the rest of the input provides is never exhausted. *)
Lemma advanceWhile_stops fuel p s :
  (String.length (source s) - pos s <= fuel)%nat ->
  match String.get (pos (advanceWhile fuel p s)) (source s) with
  | Some c => p c = false
  | None => True
  end.
Proof.
  revert s. induction fuel as [|fuel IH]; intros s Hfuel; simpl.
  - destruct (String.get _ _) as [c|] eqn:E; [|done].
    apply get_Some_lt in E. lia.
  - destruct (String.get (pos s) (source s)) as [c|] eqn:E; [|by rewrite E].
    destruct (p c) eqn:Hp; [|by rewrite E].
    pose proof (advance_Moved s) as [Hsrc _ _ _].
    apply get_Some_lt in E as Hlt.
    specialize (IH (advance s)). rewrite Hsrc, advance_pos in IH by done.
    apply IH. lia.
Qed.

Lemma scanWhile_stops p s :
  match String.get (pos (scanWhile p s)) (source s) with
  | Some c => p c = false
  | None => True
  end.
Proof. by apply advanceWhile_stops. Qed.

(** The characters that the loop consumed satisfy the predicate. *)
Lemma advanceWhile_consumed fuel p s i :
  (pos s <= i < pos (advanceWhile fuel p s))%nat ->
  exists c, String.get i (source s) = Some c /\ p c = true.
Proof.
  revert s. induction fuel as [|fuel IH]; intros s; simpl; [lia|].
  destruct (String.get (pos s) (source s)) as [c|] eqn:E; [|lia].
  destruct (p c) eqn:Hp; [|lia].
  intros Hi. pose proof (advance_Moved s) as [Hsrc _ _ _].
  apply get_Some_lt in E as Hlt.
  destruct (decide (i = pos s)) as [->|Hne]; [by eexists|].
  specialize (IH (advance s)). rewrite Hsrc, advance_pos in IH by done.
  apply IH. lia.
Qed.

(** At a character that satisfies the predicate the loop advances. *)
Lemma scanWhile_progress p s c :
  String.get (pos s) (source s) = Some c -> p c = true ->
  (pos s < pos (scanWhile p s))%nat.
Proof.
  intros E Hp. unfold scanWhile. apply get_Some_lt in E as Hlt.
  destruct (String.length (source s) - pos s)%nat as [|fuel] eqn:Hf; [lia|].
  simpl. rewrite E, Hp.
  pose proof (advanceWhile_Moved fuel p (advance s)) as [_ _ Hpos _].
  rewrite advance_pos in Hpos by done. lia.
Qed.


Lemma iter_advance_pos n s :
  (pos s + n <= String.length (source s))%nat ->
  pos (Nat.iter n advance s) = (pos s + n)%nat.
Proof.
  induction n as [|n IH]; intros H; simpl; [lia|].
  pose proof (iter_advance_Moved n s) as [Hsrc _ _ _].
  rewrite advance_pos; rewrite ?Hsrc, IH; lia.
Qed.

Lemma emitFrom_Scanned start s type :
  Moved start s -> (pos start < pos s)%nat ->
  (pos start <= String.length (source start))%nat ->
  type <> TWhitespace ->
  Scanned start (emitFrom start s type).
Proof.
  intros [Hsrc Htok Hpos Hbound] Hlt Hin Hty. unfold emitFrom, pushToken.
  split; simpl; try done; try lia. right. eexists. split.
  - rewrite Htok. reflexivity.
  - unfold TokenAt, slice. simpl. repeat split; try lia; try done.
    pose proof (length_substring_le (source s) (pos start) (pos s - pos start)). lia.
Qed.

Lemma emitChars_Scanned s n type value :
  (0 < n)%nat -> (pos s + n <= String.length (source s))%nat ->
  type <> TWhitespace ->
  Scanned s (emitChars s n type value).
Proof.
  intros Hn Hlen Hty. unfold emitChars, pushToken.
  pose proof (iter_advance_Moved n s) as [Hsrc Htok _ _].
  pose proof (iter_advance_pos n s Hlen) as Hpos.
  split; simpl; try done; try lia. right. eexists. split.
  - rewrite Htok. reflexivity.
  - unfold TokenAt. simpl. repeat split; try lia; done.
Qed.

Lemma charIs_Some o c : charIs o c = true -> o = Some c.
Proof.
  destruct o as [x|]; simpl; [|done]. by intros ->%Ascii.eqb_eq.
Qed.

Lemma isDigit_Some o : isDigit o = true -> exists c, o = Some c.
Proof. destruct o; [by eexists|done]. Qed.

Section Scanners.
Variable s : State.
Variable ch : ascii.
Hypothesis Hch : String.get (pos s) (source s) = Some ch.

Lemma cursor_in_source : (pos s < String.length (source s))%nat.
Proof. by eapply get_Some_lt. Qed.

Lemma scanWhitespace_Scanned : isBlank ch = true -> Scanned s (scanWhitespace s).
Proof.
  intros Hb. unfold scanWhitespace.
  pose proof (scanWhile_Moved isBlank s) as [Hsrc Htok _ Hbound].
  pose proof cursor_in_source.
  split; auto; try lia. by eapply scanWhile_progress.
Qed.

Lemma scanComment_Scanned : Ascii.eqb ch "-" = true -> Scanned s (scanComment s).
Proof.
  intros Hc. pose proof cursor_in_source.
  assert (negb (Ascii.eqb ch ch_newline) = true) as Hnl
    by (apply Ascii.eqb_eq in Hc; by rewrite Hc).
  apply emitFrom_Scanned; try done; try lia.
  - apply scanWhile_Moved.
  - eapply scanWhile_progress; [exact Hch | exact Hnl].
Qed.

Lemma scanString_Scanned : Scanned s (scanString s).
Proof.
  pose proof cursor_in_source as Hin. unfold scanString.
  set (s2 := scanWhile _ (advance s)).
  set (s3 := match String.get (pos s2) (source s2) with
             | Some c => _
             | None => s2
             end).
  assert (Moved (advance s) s3) as Hm.
  { eapply Moved_trans; [apply scanWhile_Moved|]. subst s3. fold s2.
    repeat case_match; try apply Moved_refl; apply advance_Moved. }
  apply emitFrom_Scanned; try done; try lia.
  - eapply Moved_trans; [apply advance_Moved | exact Hm].
  - destruct Hm as [_ _ Hpos _]. rewrite advance_pos in Hpos by done. lia.
Qed.

Lemma scanNumber_Scanned : isDigitChar ch = true -> Scanned s (scanNumber s).
Proof.
  intros Hd. pose proof cursor_in_source as Hin. unfold scanNumber.
  destruct (charIs _ _ && (_ || _)) eqn:Hhex.
  - apply emitFrom_Scanned; try done; try lia.
    + eapply Moved_trans; [apply advance_Moved|].
      eapply Moved_trans; [apply advance_Moved|apply scanWhile_Moved].
    + pose proof (scanWhile_Moved isHexDigit (advance (advance s))) as [_ _ Hpos _].
      pose proof (advance_Moved (advance s)) as [_ _ Hpos' _].
      rewrite advance_pos in Hpos' by done. lia.
  - set (s1 := scanWhile isDigitChar s).
    assert (Moved s s1) as Hm1 by apply scanWhile_Moved.
    assert (pos s < pos s1)%nat as Hp1 by (by eapply scanWhile_progress).
    set (s2 := if _ && _ then _ else s1).
    assert (Moved s1 s2) as Hm2.
    { subst s2. case_match; [|apply Moved_refl].
      eapply Moved_trans; [apply advance_Moved | apply scanWhile_Moved]. }
    pose proof (Moved_trans _ _ _ Hm1 Hm2) as Hm.
    destruct Hm2 as [_ _ Hp2 _].
    repeat case_match; apply emitFrom_Scanned; try done; try lia.
    + eapply Moved_trans; [exact Hm | apply advance_Moved].
    + pose proof (advance_Moved s2) as [_ _ Hp3 _]. lia.
    + eapply Moved_trans; [exact Hm | apply iter_advance_Moved].
    + pose proof (iter_advance_Moved n s2) as [_ _ Hp3 _]. lia.
Qed.

Lemma scanJMessage_Scanned : Scanned s (scanJMessage s).
Proof.
  pose proof cursor_in_source as Hin. unfold scanJMessage.
  set (s2 := scanWhile isDigitChar (advance s)).
  set (s3 := if charIs _ _ then _ else s2).
  assert (Moved (advance s) s3) as Hm.
  { eapply Moved_trans; [apply scanWhile_Moved|]. subst s3.
    case_match; [|apply Moved_refl].
    eapply Moved_trans; [apply advance_Moved | apply scanWhile_Moved]. }
  apply emitFrom_Scanned; try done; try lia.
  - eapply Moved_trans; [apply advance_Moved | exact Hm].
  - destruct Hm as [_ _ Hpos _]. rewrite advance_pos in Hpos by done. lia.
Qed.

Lemma scanIdentifier_Scanned : isIdentStart ch = true -> Scanned s (scanIdentifier s).
Proof.
  intros Hi. pose proof cursor_in_source as Hin. unfold scanIdentifier.
  assert (pos s < pos (scanWhile isIdentPart s))%nat.
  { eapply scanWhile_progress; [done|]. unfold isIdentPart. by rewrite Hi. }
  repeat case_match; apply emitFrom_Scanned; try done; try lia;
    apply scanWhile_Moved.
Qed.

Lemma emitSingle_Scanned type : type <> TWhitespace -> Scanned s (emitSingle s ch type).
Proof.
  intros. pose proof cursor_in_source. apply emitChars_Scanned; try done; lia.
Qed.

Lemma scanOperator_Scanned : Scanned s (scanOperator s ch).
Proof.
  pose proof cursor_in_source as Hin. unfold scanOperator.
  repeat case_match; try (by apply emitSingle_Scanned);
    try (apply emitChars_Scanned; try done; try lia).
  all: match goal with
       | H : _ && charIs (peek s 1) _ = true |- _ =>
           apply andb_prop in H as [_ H%charIs_Some]; unfold peek in H;
           apply get_Some_lt in H; lia
       end.
Qed.

Lemma scanToken_Scanned : Scanned s (scanToken s).
Proof.
  pose proof cursor_in_source as Hin. unfold scanToken. rewrite Hch.
  repeat case_match;
    first [ by apply scanWhitespace_Scanned
          | by apply scanString_Scanned
          | by apply scanNumber_Scanned
          | by apply scanJMessage_Scanned
          | by apply scanIdentifier_Scanned
          | by apply scanOperator_Scanned
          | by apply emitSingle_Scanned
          | (apply emitChars_Scanned; try done; lia)
          | idtac ].
  apply scanComment_Scanned.
  match goal with H : _ && _ = true |- _ => by apply andb_prop in H as [? _] end.
Qed.

End Scanners.

Lemma Ordered_le lo toks hi : Ordered lo toks hi -> lo <= hi.
Proof.
  revert lo. induction toks as [|t toks IH]; simpl; intros lo; [done|].
  intros (H1 & H2 & H3%IH). lia.
Qed.

Lemma Ordered_lower lo lo' toks hi :
  lo' <= lo -> Ordered lo toks hi -> Ordered lo' toks hi.
Proof. destruct toks; simpl; [lia|]. intros ? (? & ? & ?). repeat split; try done; lia. Qed.

Lemma Ordered_snoc lo toks hi t :
  Ordered lo toks hi -> hi <= sp_offset (tk_span t) -> 0 <= sp_length (tk_span t) ->
  Ordered lo (toks ++ [t]) (sp_offset (tk_span t) + sp_length (tk_span t)).
Proof.
  revert lo. induction toks as [|a toks IH]; simpl; intros lo.
  - intros. repeat split; lia.
  - intros (H1 & H2 & H3) Hhi Hlen. repeat split; try done. by apply IH.
Qed.

Lemma Ordered_raise lo toks hi hi' :
  hi <= hi' -> Ordered lo toks hi -> Ordered lo toks hi'.
Proof.
  revert lo. induction toks as [|a toks IH]; simpl; intros lo Hhi; [lia|].
  intros (H1 & H2 & H3). repeat split; try done. by apply IH.
Qed.

Lemma Ordered_filter f lo toks hi :
  Ordered lo toks hi -> Ordered lo (List.filter f toks) hi.
Proof.
  revert lo. induction toks as [|a toks IH]; simpl; intros lo; [done|].
  intros (H1 & H2 & H3). destruct (f a); simpl.
  - repeat split; try done. by apply IH.
  - apply (Ordered_lower (sp_offset (tk_span a) + sp_length (tk_span a))); [lia|].
    by apply IH.
Qed.

(** Two tokens of an ordered list, the second at or after the first. *)
Lemma Ordered_lookup lo toks hi i j a b :
  Ordered lo toks hi -> toks !! i = Some a -> toks !! j = Some b -> (i <= j)%nat ->
  lo <= sp_offset (tk_span a)
  /\ 0 <= sp_length (tk_span b)
  /\ sp_offset (tk_span a) <= sp_offset (tk_span b)
  /\ sp_offset (tk_span b) + sp_length (tk_span b) <= hi.
Proof.
  revert lo i j a b. induction toks as [|t toks IH]; intros lo i j a b; [done|].
  simpl. intros (H1 & H2 & H3) Hi Hj Hij.
  destruct i as [|i], j as [|j]; simpl in *; simplify_eq; try lia.
  - apply Ordered_le in H3. lia.
  - destruct (IH _ j j b b H3 Hj Hj ltac:(lia)) as (? & ? & ? & ?). lia.
  - destruct (IH _ i j a b H3 Hi Hj ltac:(lia)) as (? & ? & ? & ?). lia.
Qed.

Lemma Scanned_Tokenized s s' : Scanned s s' -> Tokenized s -> Tokenized s'.
Proof.
  intros [Hsrc Hlt Hbound Htok] [Hb Hord Hcount Hty].
  destruct Htok as [Htok | (t & Htok & Hoff & Hlen & Hend & Htype)].
  - split; rewrite ?Htok, ?Hsrc; try lia; try done.
    eapply Ordered_raise; [|done]. lia.
  - split; rewrite ?Htok, ?Hsrc; try lia.
    + eapply Ordered_raise; [|apply (Ordered_snoc _ _ _ t Hord)]; lia.
    + rewrite length_app. simpl. lia.
    + apply Forall_app. split; [done|]. by constructor.
Qed.

(** The loop of [tokenize] ends, at the end of the source. *)
Lemma tokenizeLoop_ends fuel : forall s,
  (String.length (source s) - pos s <= fuel)%nat -> Tokenized s ->
  exists s', tokenizeLoop fuel s = Some s' /\ Tokenized s'
             /\ source s' = source s /\ pos s' = String.length (source s).
Proof.
  induction fuel as [|fuel IH]; intros s Hfuel Hinv; simpl.
  - destruct (Nat.ltb_spec (pos s) (String.length (source s))); [lia|].
    exists s. destruct Hinv. repeat split; try done. lia.
  - destruct (Nat.ltb_spec (pos s) (String.length (source s))) as [Hlt|Hge].
    + destruct (get_lt_Some _ _ Hlt) as [c Hc].
      pose proof (scanToken_Scanned s c Hc) as Hsc.
      destruct (IH (scanToken s)) as (s' & Hrun & Hinv' & Hsrc & Hpos).
      * destruct Hsc as [Hsrc Hp _ _]. rewrite Hsrc. lia.
      * by eapply Scanned_Tokenized.
      * exists s'. destruct Hsc as [Hsrc' _ _ _]. rewrite <- Hsrc'. done.
    + exists s. destruct Hinv. repeat split; try done. lia.
Qed.

(** [tokenize] returns: the tokens are in source order within the source,
    none is a [Whitespace] token, the last one is the [EOF] token at the end
    of the source, and there is at most one token per character besides. *)
Lemma tokenize_returns (src : string) (fuel : nat) :
  (String.length src <= fuel)%nat ->
  exists front eof,
    tokenize fuel src = Some (front ++ [eof])
    /\ tk_type eof = TEOF
    /\ Ordered 0 (front ++ [eof]) (Z.of_nat (String.length src))
    /\ (List.length front <= String.length src)%nat
    /\ Forall (fun t => tk_type t <> TWhitespace) (front ++ [eof]).
Proof.
  intros Hfuel. unfold tokenize.
  destruct (tokenizeLoop_ends fuel (mkState src 0 1 1 []))
    as (s' & Hrun & [Hb Hord Hcount Hty] & Hsrc & Hpos); simpl in *.
  - lia.
  - split; simpl; try done; lia.
  - rewrite Hrun. simpl. eexists _, _. split; [reflexivity|].
    rewrite <- Hpos. repeat split; simpl; try done.
    + eapply Ordered_raise; [|apply (Ordered_snoc _ _ _ _ Hord)]; simpl; lia.
    + apply Forall_app. split; [done|]. by constructor.
Qed.

End LexerFacts.

(* ================================================================== *)
(** * The parser returns, with its spans within the source *)
(* ================================================================== *)

Module ParserFacts.
Import Parser SpanBounds LexerSpec LexerFacts.

Lemma bind_run {A B : Type} (m : P A) (f : A -> P B) s a s' :
  m s = Some (a, s') -> (m ≫= f) s = f a s'.
Proof. unfold mbind, P_bind. by intros ->. Qed.

Lemma bind_gets {A B : Type} (g : State -> A) (f : A -> P B) s :
  (gets g ≫= f) s = f (g s) s.
Proof. reflexivity. Qed.

Lemma ret_run {A : Type} (a : A) s : (mret a : P A) s = Some (a, s).
Proof. reflexivity. Qed.

Section Tokens.

(** The significant tokens of a source of [len] characters: in source
    order, the last one the [EOF] token. *)
Variable toks : list Token.
Variable len : Z.
Hypothesis toks_eof : exists front eof, toks = front ++ [eof] /\ tk_type eof = TEOF.
Hypothesis toks_ordered : Ordered 0 toks len.

Local Abbreviation OnToken := (ParserSpec.OnToken toks).
Local Abbreviation remaining := (ParserSpec.remaining toks).
Local Abbreviation Step := (ParserSpec.Step toks).
Local Abbreviation Ran := (ParserSpec.Ran toks).
Local Abbreviation Expected := ParserSpec.Expected.
Local Abbreviation st_pos := (ParserSpec.st_pos toks).

Lemma isAtEnd_same s s' :
  tokens s' = tokens s -> pos s' = pos s -> isAtEnd s' = isAtEnd s.
Proof. unfold isAtEnd, current. by intros -> ->. Qed.

Lemma Step_refl s : OnToken s -> Step s s.
Proof. intros H. split; try done. destruct (isAtEnd s); lia. Qed.

Lemma Step_trans s1 s2 s3 : Step s1 s2 -> Step s2 s3 -> Step s1 s3.
Proof.
  intros [F1 T1 P1 E1 C1] [F2 T2 P2 E2 C2].
  assert (tokens s2 = tokens s1) as Ht12 by (destruct F1, T1; congruence).
  assert (tokens s3 = tokens s2) as Ht23 by (destruct F2, T2; congruence).
  split; try done; try lia.
  - intros H1. destruct (E1 H1) as [Hp Hc].
    rewrite <- (isAtEnd_same s1 s2) in H1 by done.
    destruct (E2 H1) as [Hp' Hc']. split; congruence.
  - destruct (isAtEnd s2) eqn:H2.
    + destruct (E2 eq_refl) as [Hp Hc].
      rewrite (isAtEnd_same s2 s3) by done. rewrite H2. lia.
    + lia.
Qed.

(** Not at the end, the cursor is before the last token. *)
Lemma not_at_end_room s :
  OnToken s -> isAtEnd s = false -> (S (pos s) < List.length toks)%nat.
Proof.
  intros [Ht Hp] He. destruct toks_eof as (front & eof & Heq & Heof).
  unfold isAtEnd, current in He. rewrite Ht, Heq in *.
  rewrite length_app in *. simpl in *.
  destruct (decide (pos s = List.length front)) as [E|E]; [|lia].
  rewrite E, list_lookup_middle in He by done. simpl in He.
  by rewrite bool_decide_eq_false in He.
Qed.

(** [advance], not at the end. *)
Lemma advance_run s :
  OnToken s -> isAtEnd s = false ->
  exists s', advance s = Some (current s, s') /\ Step s s'
             /\ pos s' = S (pos s).
Proof.
  intros Hon He. pose proof (not_at_end_room s Hon He) as Hroom.
  unfold advance. rewrite He. eexists. split; [reflexivity|].
  destruct Hon as [Ht Hp]. split; [|done].
  split; simpl; try done; try lia.
  by rewrite He.
Qed.

Lemma error_run msg s :
  OnToken s -> exists s', error msg s = Some (tt, s') /\ Step s s'
                            /\ pos s' = pos s.
Proof.
  intros Hon. unfold error. eexists. split; [reflexivity|]. split; [|done].
  destruct Hon. split; simpl; try done.
  match goal with |- context [isAtEnd ?x] => destruct (isAtEnd x) end; lia.
Qed.

Lemma check_not_at_end type value s :
  type <> TEOF -> check type value s = true -> isAtEnd s = false.
Proof.
  unfold check, isAtEnd. intros Hty. case_bool_decide as E; [|done].
  intros _. apply bool_decide_eq_false. congruence.
Qed.


Lemma Step_remaining s s' fuel :
  Step s s' -> (remaining s <= fuel)%nat -> (remaining s' <= fuel)%nat.
Proof. intros [_ _ Hp _ _]. unfold ParserSpec.remaining. lia. Qed.

Lemma Step_OnToken s s' : Step s s' -> OnToken s'.
Proof. by intros []. Qed.

Lemma inBlock_not_at_end s : inBlock s = true -> isAtEnd s = false.
Proof. unfold inBlock. intros [_ H]%andb_prop. by destruct (isAtEnd s). Qed.

Lemma isPropertyStart_not_at_end s : isPropertyStart s = true -> isAtEnd s = false.
Proof.
  unfold isPropertyStart. intros [H|H]%orb_prop;
    by eapply check_not_at_end in H.
Qed.

Lemma isAtEnd_stay s s' :
  OnToken s -> OnToken s' -> pos s' = pos s -> isAtEnd s = false ->
  isAtEnd s' = false.
Proof.
  intros [Ht _] [Ht' _] Hp He. rewrite <- He. apply isAtEnd_same; congruence.
Qed.

Create HintDb parser.
#[local] Hint Resolve inBlock_not_at_end isPropertyStart_not_at_end : parser.
#[local] Hint Extern 1 (isAtEnd ?s = false) =>
  eapply check_not_at_end; [ | eassumption]; first [assumption | discriminate]
  : parser.
#[local] Hint Extern 2 (isAtEnd ?s = false) =>
  match goal with
  | H : pos s = pos ?s0 |- _ =>
      apply (isAtEnd_stay s0 s); [ | | exact H | ]; eauto 2 with parser
  end : parser.
#[local] Hint Extern 1 (OnToken ?s) =>
  match goal with H : Step _ s |- _ => exact (Step_OnToken _ _ H) end : parser.
#[local] Hint Extern 1 (remaining ?s <= ?fuel)%nat =>
  match goal with
  | H : Step ?a s, H' : (remaining ?a <= fuel)%nat |- _ =>
      exact (Step_remaining a s fuel H H')
  end : parser.

Lemma bind_assoc {A B C : Type} (m : P A) (f : A -> P B) (g : B -> P C) s :
  ((m ≫= f) ≫= g) s = (m ≫= fun x => f x ≫= g) s.
Proof. unfold mbind, P_bind. by destruct (m s) as [[a s']|]. Qed.

Lemma bind_ret {A B : Type} (a : A) (f : A -> P B) s :
  (mret a ≫= f) s = f a s.
Proof. reflexivity. Qed.

(** Brings the next method call of the program to its head. *)
Ltac norm :=
  cbv beta;
  repeat first [ rewrite bind_assoc | rewrite bind_gets | rewrite bind_ret ];
  cbv beta.

(** The steps made so far, composed. *)
Ltac steps :=
  repeat match goal with
         | H1 : Step ?a ?b, H2 : Step ?b ?c |- _ =>
             lazymatch goal with
             | _ : Step a c |- _ => fail
             | _ => pose proof (Step_trans _ _ _ H1 H2)
             end
         end.

(** Uses the specification [H] of the method at the head of the program. *)
Ltac run_with H :=
  destruct H as (? & ? & ? & ? & ?);
  [ try solve [eauto 3 with parser] ..
  | norm;
    match goal with
    | Hr : _ = Some (_, _) |- _ =>
        first [rewrite (bind_run _ _ _ _ _ Hr) | rewrite Hr]; clear Hr
    end; cbv beta; steps ].

(** Closes a goal [Ran]: the program has returned. *)
Ltac ran_done :=
  eexists _, _; split; [reflexivity|];
  split; [first [assumption | by apply Step_refl]|].

Lemma advance_ran s :
  OnToken s -> isAtEnd s = false ->
  Ran advance s (fun t s' => t = current s /\ pos s' = S (pos s)).
Proof.
  intros Hon He. destruct (advance_run s Hon He) as (s' & Hrun & Hstep & Hpos).
  by exists (current s), s'.
Qed.

Lemma error_ran msg s :
  OnToken s -> Ran (error msg) s (fun _ s' => pos s' = pos s).
Proof.
  intros Hon. destruct (error_run msg s Hon) as (s' & Hrun & Hstep & Hpos).
  by exists tt, s'.
Qed.

Lemma expect_ran type value s :
  OnToken s -> type <> TEOF ->
  Ran (expect type value) s
      (fun b s' => b = check type (Some value) s /\ Expected b s s').
Proof.
  intros Hon Hty. unfold ParserSpec.Ran, expect. rewrite bind_gets.
  destruct (check type (Some value) s) eqn:Hc.
  - run_with (advance_ran s). ran_done.
    match goal with H : _ /\ pos _ = _ |- _ => by destruct H end.
  - rewrite bind_gets. run_with (error_ran
      ("Expected '" +:+ value +:+ "', got '" +:+ currentValue s +:+ "'") s).
    ran_done. done.
Qed.

Lemma expectToken_ran type s :
  OnToken s -> type <> TEOF ->
  Ran (expectToken type) s
      (fun b s' => b = check type None s /\ Expected b s s').
Proof.
  intros Hon Hty. unfold ParserSpec.Ran, expectToken. rewrite bind_gets.
  destruct (check type None s) eqn:Hc.
  - run_with (advance_ran s). ran_done.
    match goal with H : _ /\ pos _ = _ |- _ => by destruct H end.
  - rewrite bind_gets. run_with (error_ran
      ("Expected '" +:+ expectedName type +:+ "', got '" +:+ currentValue s +:+ "'") s).
    ran_done. done.
Qed.

Lemma expectString_ran s :
  OnToken s -> Ran expectString s (fun _ _ => True).
Proof.
  intros Hon. unfold ParserSpec.Ran, expectString. rewrite bind_gets.
  destruct (check TString None s) eqn:Hc.
  - rewrite bind_gets. run_with (advance_ran s). ran_done; done.
  - rewrite bind_gets. run_with (error_ran
      ("Expected string, got '" +:+ currentValue s +:+ "'") s).
    ran_done; done.
Qed.

Lemma synchronize_ran fuel : forall s,
  OnToken s -> (remaining s <= fuel)%nat ->
  Ran (synchronize fuel) s (fun _ _ => True).
Proof.
  induction fuel as [|fuel IH]; intros s Hon Hfuel; unfold ParserSpec.Ran; simpl.
  - destruct Hon as [? ?]. unfold ParserSpec.remaining in Hfuel. lia.
  - destruct (isAtEnd s) eqn:He; [ran_done; done|].
    destruct (check TRBrace None s) eqn:Hb.
    + run_with (advance_ran s). ran_done; done.
    + destruct (atSyncKeyword s); [ran_done; done|].
      run_with (advance_ran s).
      match goal with H : _ /\ pos ?s1 = S (pos s) |- _ =>
        destruct H as [_ Hpos]; run_with (IH s1) end.
      * unfold ParserSpec.remaining in *. lia.
      * ran_done; done.
Qed.


(** A loop whose body moves the cursor ends, with fuel for the tokens that
    remain. [bound] is the fuel of the loops inside the body. *)
Lemma while_ran {A : Type} (Inv : A -> Prop) (cond : State -> bool)
    (body : A -> P A) (bound : nat) :
  (forall a s, Inv a -> OnToken s -> cond s = true -> (remaining s <= bound)%nat ->
     Ran (body a) s (fun a' s' => Inv a' /\ (pos s < pos s')%nat)) ->
  forall fuel a s, Inv a -> OnToken s -> (remaining s <= bound)%nat ->
    (remaining s <= fuel)%nat ->
    Ran (while fuel cond body a) s (fun a' s' => Inv a' /\ cond s' = false).
Proof.
  intros Hbody. induction fuel as [|fuel IH]; intros a s Ha Hon Hb Hfuel;
    unfold ParserSpec.Ran; simpl.
  - destruct (cond s) eqn:Hc; [|ran_done; done].
    destruct Hon. unfold ParserSpec.remaining in Hfuel. lia.
  - destruct (cond s) eqn:Hc; [|ran_done; done].
    destruct (Hbody a s Ha Hon Hc Hb) as (a1 & s1 & Hrun & Hstep & Ha1 & Hpos).
    rewrite Hrun.
    destruct (IH a1 s1) as (a2 & s2 & Hrun2 & Hstep2 & HQ); eauto with parser.
    { destruct Hstep as [_ [_ ?] _ _ _]. unfold ParserSpec.remaining in *. lia. }
    rewrite Hrun2. steps. ran_done. done.
Qed.

(** Runs a loop: first the body is specified, for the invariant [Inv] of
    the accumulator, then the program goes on after the loop. *)
Ltac run_while Inv :=
  lazymatch goal with
  | |- ex (fun _ => ex (fun _ => ?prog ?s1 = _ /\ _)) =>
      lazymatch prog with
      | context [while ?f ?c ?b ?a] =>
          let Hbody := fresh "Hbody" in
          assert (forall acc st, Inv acc -> OnToken st -> c st = true ->
                    (remaining st <= f)%nat ->
                    Ran (b acc) st
                        (fun acc' st' => Inv acc' /\ (pos st < pos st')%nat))
            as Hbody;
          [ | run_with (while_ran Inv c b f Hbody f a s1) ]
      end
  end.

(** The span of the token under a cursor on the list. *)
Lemma current_lookup s : OnToken s -> toks !! pos s = Some (current s).
Proof.
  intros [Ht Hp]. unfold current. rewrite Ht.
  destruct (lookup_lt_is_Some_2 toks (pos s) Hp) as [t ->]. done.
Qed.

Lemma currentSpan_Within s : OnToken s -> Within len (currentSpan s).
Proof.
  intros Hon. pose proof (current_lookup s Hon) as H.
  destruct (Ordered_lookup 0 toks len _ _ _ _ toks_ordered H H (le_n _))
    as (? & ? & ? & ?).
  unfold Within, currentSpan. lia.
Qed.

(** A node from the token under [s] to the token under [s']. *)
Lemma merge_current s s' :
  OnToken s -> OnToken s' -> (pos s <= pos s')%nat ->
  Within len (mergeSpans (currentSpan s) (currentSpan s')).
Proof.
  intros Hon Hon' Hle.
  destruct (Ordered_lookup 0 toks len _ _ _ _ toks_ordered
              (current_lookup s Hon) (current_lookup s' Hon') Hle)
    as (? & ? & ? & ?).
  unfold Within, mergeSpans, currentSpan. simpl. lia.
Qed.

(** A node from the token under [s] to the token before [s']. *)
Lemma merge_prev s s' :
  OnToken s -> OnToken s' -> (pos s < pos s')%nat ->
  Within len (mergeSpans (currentSpan s) (prevSpan s')).
Proof.
  intros Hon [Ht' Hp'] Hlt. unfold prevSpan.
  destruct (Nat.ltb_spec 0 (pos s')) as [_|?]; [|lia].
  assert (pos s' - 1 < List.length toks)%nat as Hp by lia.
  destruct (lookup_lt_is_Some_2 toks _ Hp) as [t Hlk].
  rewrite Ht', Hlk. simpl.
  destruct (Ordered_lookup 0 toks len _ _ _ _ toks_ordered
              (current_lookup s Hon) Hlk ltac:(lia)) as (? & ? & ? & ?).
  unfold Within, mergeSpans, currentSpan. simpl. lia.
Qed.

Lemma Forall_pushOpt {A : Type} (Q : A -> Prop) (l : list A) (x : option A) :
  Forall Q l -> from_option Q True x -> Forall Q (pushOpt l x).
Proof.
  intros Hl Hx. destruct x as [x|]; simpl; [|done].
  apply Forall_app. split; [done|]. by constructor.
Qed.


Variable jsNumber : string -> float.
Variable jsParseFloat : string -> float.

(** Case analysis on the next test of the program. *)
Ltac branch :=
  match goal with
  | |- context [if ?b then _ else _] =>
      let E := fresh "E" in destruct b eqn:E; cbv beta iota; norm
  end.

(** Arithmetic on the cursors of the states met so far. *)
Ltac cursor :=
  repeat match goal with
         | H : _ /\ _ |- _ => destruct H
         end;
  repeat match goal with
         | H : Step ?a ?b |- _ =>
             lazymatch goal with
             | _ : (pos a <= pos b)%nat |- _ => fail
             | _ => pose proof (st_pos _ _ H)
             end
         end;
  repeat match goal with
         | H : ?x = _ |- _ =>
             is_var x; lazymatch type of x with bool => subst x end
         | H : ?c = true -> _, E : ?c = true |- _ => specialize (H E)
         end;
  unfold ParserSpec.Expected in *; try first [assumption | lia | exact I].

(** The method call at the head of the program and the current state. *)
Ltac head k :=
  norm;
  lazymatch goal with
  | |- ex (fun _ => ex (fun _ => (?m ≫= _) ?s1 = _ /\ _)) => k m s1
  | |- ex (fun _ => ex (fun _ => ?m ?s1 = _ /\ _)) => k m s1
  end.

Ltac run_advance := head ltac:(fun m s1 => run_with (advance_ran s1)).

Ltac run_error :=
  head ltac:(fun m s1 =>
    lazymatch m with
    | error ?msg => run_with (error_ran msg s1)
    end).

Ltac run_expectToken :=
  head ltac:(fun m s1 =>
    lazymatch m with
    | expectToken ?type =>
        run_with (expectToken_ran type s1 ltac:(eauto 3 with parser)
                    ltac:(discriminate))
    end).

Lemma parseArrayValue_ran fuel s :
  OnToken s -> (remaining s <= fuel)%nat -> isAtEnd s = false ->
  Ran (parseArrayValue fuel) s (fun _ s' => (pos s < pos s')%nat).
Proof.
  intros Hon Hfuel He. unfold ParserSpec.Ran, parseArrayValue.
  run_advance.
  run_while (fun _ : list string => True).
  { intros elements s1 _ Hon1 Hc1 Hfuel1. unfold ParserSpec.Ran. norm.
    apply andb_prop in Hc1 as [_ He1%negb_true_iff].
    branch; [|branch]; norm.
    - run_advance. norm. branch.
      + run_advance. ran_done. split; [done|]. cursor.
      + ran_done. split; [done|]. cursor.
    - run_advance. norm. branch.
      + run_advance. ran_done. split; [done|]. cursor.
      + ran_done. split; [done|]. cursor.
    - run_error. run_advance. norm. branch.
      + run_advance. ran_done. split; [done|]. cursor.
      + ran_done. split; [done|]. cursor. }
  run_expectToken. ran_done. cursor.
Qed.

Lemma parsePropertyValue_ran fuel s :
  OnToken s -> (remaining s <= fuel)%nat ->
  Ran (parsePropertyValue jsNumber jsParseFloat fuel) s (fun _ _ => True).
Proof.
  intros Hon Hfuel. unfold ParserSpec.Ran, parsePropertyValue. norm.
  destruct (tk_type (current s)) eqn:Hty; try (ran_done; done);
    assert (isAtEnd s = false) as He
      by (unfold isAtEnd; rewrite Hty; reflexivity);
    try (run_advance; ran_done; done).
  run_with (parseArrayValue_ran fuel s Hon Hfuel He).
  ran_done. done.
Qed.

Lemma parsePropertyAssignment_ran fuel s :
  OnToken s -> (remaining s <= fuel)%nat -> isAtEnd s = false ->
  Ran (parsePropertyAssignment jsNumber jsParseFloat fuel) s
      (fun p s' => (pos s < pos s')%nat
                   /\ from_option (propertyWithin len) True p).
Proof.
  intros Hon Hfuel He. unfold ParserSpec.Ran, parsePropertyAssignment. norm.
  run_advance. run_expectToken. branch.
  - ran_done. simpl. split; [cursor|done].
  - lazymatch goal with
    | |- ex (fun _ => ex (fun _ => ?prog ?s1 = _ /\ _)) =>
        run_with (parsePropertyValue_ran fuel s1)
    end.
    match goal with r : option PropertyValue |- _ => destruct r as [v|] end.
    + norm. branch.
      * run_advance. norm. ran_done. simpl. split; [cursor|].
        apply merge_prev; eauto 3 with parser. cursor.
      * norm. ran_done. simpl. split; [cursor|].
        apply merge_prev; eauto 3 with parser. cursor.
    + run_error. ran_done. simpl. split; [cursor|done].
Qed.

Lemma parsePropertyBlock_ran fuel s :
  OnToken s -> (remaining s <= fuel)%nat ->
  Ran (parsePropertyBlock jsNumber jsParseFloat fuel) s
      (fun ps s' => Forall (propertyWithin len) ps).
Proof.
  intros Hon Hfuel. unfold ParserSpec.Ran, parsePropertyBlock.
  run_while (Forall (propertyWithin len)).
  { intros ps s1 Hps Hon1 Hc1 Hfuel1. unfold ParserSpec.Ran. norm.
    pose proof (inBlock_not_at_end _ Hc1) as He1. branch.
    - run_with (parsePropertyAssignment_ran fuel s1). ran_done.
      split; [|cursor]. apply Forall_pushOpt; [done|]. cursor.
    - run_error. run_advance. ran_done. split; [done|]. cursor. }
  ran_done. cursor.
Qed.

(** Runs the method at the head of the program with its specification
    [k], a function of the current state. *)
Ltac at_state k := head ltac:(fun m s1 => let H := k s1 in run_with H).

Ltac run_expect :=
  head ltac:(fun m s1 =>
    lazymatch m with
    | expect ?type ?value =>
        run_with (expect_ran type value s1 ltac:(eauto 3 with parser)
                    ltac:(discriminate))
    end).

(** The result of a test that was bound to a variable. *)
Ltac branch_on_result :=
  norm;
  match goal with
  | |- context [if negb ?b then _ else _] => is_var b; destruct b; cbn [negb]; cbv iota; norm
  end.

Section NamedBlock.

Context {A : Type} (mk : string -> list PropertyAssignment -> SourceSpan -> A).
Variable Good : A -> Prop.
Hypothesis mk_Good : forall name ps sp,
  Within len sp -> Forall (propertyWithin len) ps -> Good (mk name ps sp).

Lemma parseNamedBlock_ran fuel keyword s :
  OnToken s -> (remaining s <= fuel)%nat ->
  Ran (parseNamedBlock jsNumber jsParseFloat fuel keyword mk) s
      (fun r s' => (check TKeyword (Some keyword) s = true -> (pos s < pos s')%nat)
                   /\ from_option Good True r).
Proof.
  intros Hon Hfuel. unfold ParserSpec.Ran, parseNamedBlock.
  run_expect. at_state ltac:(fun s1 => constr:(expectString_ran s1)). run_expectToken. branch_on_result.
  - at_state ltac:(fun s1 => constr:(parsePropertyBlock_ran fuel s1)).
    run_expectToken. ran_done. split.
    + intros Hc. rewrite Hc in *. cursor.
    + simpl. apply mk_Good; [|cursor].
      apply merge_current; eauto 3 with parser. cursor.
  - at_state ltac:(fun s1 => constr:(synchronize_ran fuel s1)). ran_done. split; [|done].
    intros Hc. rewrite Hc in *. cursor.
Qed.

End NamedBlock.

Lemma parseTerminalDeclaration_ran fuel s :
  OnToken s -> (remaining s <= fuel)%nat ->
  Ran (parseTerminalDeclaration jsNumber jsParseFloat fuel) s
      (fun r s' => (check TKeyword (Some "terminal") s = true -> (pos s < pos s')%nat)
                   /\ from_option (terminalWithin len) True r).
Proof. intros. by apply parseNamedBlock_ran. Qed.

Lemma parseNetDeclaration_ran fuel s :
  OnToken s -> (remaining s <= fuel)%nat ->
  Ran (parseNetDeclaration jsNumber jsParseFloat fuel) s
      (fun r s' => (check TKeyword (Some "net") s = true -> (pos s < pos s')%nat)
                   /\ from_option (netWithin len) True r).
Proof. intros. by apply parseNamedBlock_ran. Qed.

Lemma parseMemberDeclaration_ran fuel s :
  OnToken s -> (remaining s <= fuel)%nat ->
  Ran (parseMemberDeclaration jsNumber jsParseFloat fuel) s
      (fun r s' => (check TKeyword (Some "member") s = true -> (pos s < pos s')%nat)
                   /\ from_option (memberWithin len) True r).
Proof. intros. by apply parseNamedBlock_ran. Qed.

(** [advance] with its count of calls. *)
Lemma advance_counted s :
  OnToken s -> isAtEnd s = false ->
  Ran advance s (fun _ s' => pos s' = S (pos s)
                             /\ advanceCalls s' = S (advanceCalls s)).
Proof.
  intros Hon He. destruct (advance_run s Hon He) as (s' & Hrun & Hstep & Hpos).
  exists (current s), s'. do 3 (split; [done|]).
  unfold advance in Hrun. rewrite He in Hrun. by injection Hrun as <-.
Qed.

(** The last [advance] of a method that has moved the cursor with one call
    for each move: at the end of the input the call leaves the cursor
    where it is, and it is the call that the end of the input spares. *)
Lemma advance_closing s0 s :
  OnToken s0 -> isAtEnd s0 = false -> OnToken s -> (pos s0 < pos s)%nat ->
  (advanceCalls s + pos s0 = advanceCalls s0 + pos s)%nat ->
  exists s', advance s = Some (current s, s') /\ Step s0 s'
             /\ tokens s' = tokens s /\ (pos s <= pos s')%nat.
Proof.
  intros Hon0 He0 Hon Hlt Hcalls. unfold advance.
  eexists. split; [reflexivity|].
  destruct (isAtEnd s) eqn:He.
  - split; [|simpl; split; [done|lia]].
    split; simpl.
    + done.
    + done.
    + lia.
    + congruence.
    + match goal with |- context [isAtEnd ?x] =>
        rewrite (isAtEnd_same s x) by done end.
      rewrite He. lia.
  - pose proof (not_at_end_room s Hon He) as Hroom.
    split; [|simpl; split; [done|lia]].
    destruct Hon as [Ht Hp].
    split; simpl.
    + done.
    + split; simpl; [done|lia].
    + lia.
    + congruence.
    + match goal with |- context [isAtEnd ?x] => destruct (isAtEnd x) end; lia.
Qed.

#[local] Hint Extern 3 (isAtEnd ?s = false) =>
  match goal with
  | H : tk_type (current s) = _ |- _ =>
      unfold isAtEnd; rewrite H; reflexivity
  | H : negb (check _ _ s) = false |- _ =>
      apply negb_false_iff in H; eapply check_not_at_end; [|exact H]; discriminate
  end : parser.

Lemma parseCondition_ran s :
  OnToken s ->
  Ran parseCondition s (fun r _ => from_option (conditionWithin len) True r).
Proof.
  intros Hon. unfold ParserSpec.Ran, parseCondition. norm.
  destruct (isPropertyStart s) eqn:Hp; cbn [negb]; cbv iota; norm.
  2: { run_error. ran_done. done. }
  pose proof (isPropertyStart_not_at_end _ Hp) as He.
  at_state ltac:(fun s1 => constr:(advance_counted s1)). norm.
  lazymatch goal with
  | |- context [tk_type (current ?s1)] =>
      destruct (tk_type (current s1)) eqn:Hty
  end; cbv beta iota zeta; norm; try (run_error; ran_done; done).
  all: at_state ltac:(fun s2 => constr:(advance_counted s2)); norm.
  all: lazymatch goal with
       | |- ex (fun _ => ex (fun _ => (advance ≫= _) ?s2 = _ /\ _)) =>
           destruct (advance_closing s s2) as (s3 & Hrun & Hstep & Htok & Hle);
             [ eauto 3 with parser; cursor .. | ];
             rewrite (bind_run _ _ _ _ _ Hrun); cbv beta
       end.
  all: eexists _, _; (split; [reflexivity|]); (split; [exact Hstep|]); simpl.
  all: apply merge_current; eauto 3 with parser; cursor.
Qed.

Lemma parseWhereClause_ran s :
  OnToken s ->
  Ran parseWhereClause s (fun r _ => from_option (whereWithin len) True r).
Proof.
  intros Hon. unfold ParserSpec.Ran, parseWhereClause.
  run_expect. run_expectToken. branch_on_result.
  - at_state ltac:(fun s1 => constr:(parseCondition_ran s1)).
    run_expectToken.
    match goal with r : option ConditionExpression |- _ => destruct r end;
      ran_done; simpl; [|done].
    split; [|done]. apply merge_current; eauto 3 with parser. cursor.
  - ran_done. done.
Qed.

Lemma parseFilterRule_ran s :
  OnToken s -> isAtEnd s = false ->
  Ran parseFilterRule s
      (fun r s' => (pos s < pos s')%nat /\ from_option (ruleWithin len) True r).
Proof.
  intros Hon He. unfold ParserSpec.Ran, parseFilterRule. norm. branch.
  - run_error. run_advance. ran_done. split; [cursor|done].
  - run_advance. norm. branch.
    + run_error. ran_done. split; [cursor|done].
    + run_advance. norm.
      branch; branch;
        try (at_state ltac:(fun s1 => constr:(parseWhereClause_ran s1)));
        norm; ran_done; (split; [cursor|]); simpl; (split; [|cursor]);
        apply merge_prev; eauto 3 with parser; cursor.
Qed.

Lemma parseFilterRules_ran fuel rules s :
  OnToken s -> (remaining s <= fuel)%nat -> Forall (ruleWithin len) rules ->
  Ran (parseFilterRules fuel rules) s (fun rs _ => Forall (ruleWithin len) rs).
Proof.
  intros Hon Hfuel Hrules. unfold ParserSpec.Ran, parseFilterRules.
  run_while (Forall (ruleWithin len)).
  { intros rs s1 Hrs Hon1 Hc1 Hfuel1. unfold ParserSpec.Ran. norm.
    pose proof (inBlock_not_at_end _ Hc1) as He1.
    at_state ltac:(fun s1 => constr:(parseFilterRule_ran s1)).
    ran_done. split; [|cursor]. apply Forall_pushOpt; [done|]. cursor. }
  run_expectToken. ran_done. cursor.
Qed.

(** The block of a declaration once its opening brace was expected: the
    result of the test [brace], then either branch. *)
Ltac block_done :=
  ran_done; split;
  [ let Hc := fresh "Hc" in
    try (intros Hc; rewrite Hc in * ); cursor
  | simpl; try done ].

Lemma parseFilterBlock_ran fuel s :
  OnToken s -> (remaining s <= fuel)%nat ->
  Ran (parseFilterBlock fuel) s
      (fun r s' => (check TKeyword (Some "filters") s = true -> (pos s < pos s')%nat)
                   /\ from_option (filtersWithin len) True r).
Proof.
  intros Hon Hfuel. unfold ParserSpec.Ran, parseFilterBlock.
  run_expect. run_expectToken. branch_on_result.
  - run_while (fun acc : list FilterRule * list FilterRule =>
                 Forall (ruleWithin len) acc.1 /\ Forall (ruleWithin len) acc.2).
    { intros acc s1 [Hin Hout] Hon1 Hc1 Hfuel1. unfold ParserSpec.Ran. norm.
      pose proof (inBlock_not_at_end _ Hc1) as He1.
      branch; [|branch].
      - run_advance. run_expectToken. branch_on_result.
        + at_state ltac:(fun s2 => constr:(parseFilterRules_ran fuel acc.1 s2)).
          ran_done. split; [by split|cursor].
        + at_state ltac:(fun s2 => constr:(synchronize_ran fuel s2)).
          ran_done. split; [by split|cursor].
      - run_advance. run_expectToken. branch_on_result.
        + at_state ltac:(fun s2 => constr:(parseFilterRules_ran fuel acc.2 s2)).
          ran_done. split; [by split|cursor].
        + at_state ltac:(fun s2 => constr:(synchronize_ran fuel s2)).
          ran_done. split; [by split|cursor].
      - run_error. run_advance. ran_done. split; [by split|cursor]. }
    match goal with acc : (list FilterRule * list FilterRule)%type |- _ =>
      destruct acc as [inbound outbound] end.
    cbn [fst snd] in *. run_expectToken. block_done.
    unfold filtersWithin; simpl. split; [|cursor; by split].
    apply merge_current; eauto 3 with parser. cursor.
  - at_state ltac:(fun s1 => constr:(synchronize_ran fuel s1)). block_done.
Qed.

Lemma parseMessageEntry_ran fuel s :
  OnToken s -> (remaining s <= fuel)%nat -> isAtEnd s = false ->
  Ran (parseMessageEntry jsNumber jsParseFloat fuel) s
      (fun r s' => (pos s < pos s')%nat /\ from_option (entryWithin len) True r).
Proof.
  intros Hon Hfuel He. unfold ParserSpec.Ran, parseMessageEntry.
  run_advance. run_expectToken. branch_on_result.
  - at_state ltac:(fun s1 => constr:(parsePropertyBlock_ran fuel s1)).
    run_expectToken. block_done.
    unfold entryWithin; simpl. split; [|cursor].
    apply merge_current; eauto 3 with parser. cursor.
  - at_state ltac:(fun s1 => constr:(synchronize_ran fuel s1)). block_done.
Qed.

Lemma parseMessageCatalog_ran fuel s :
  OnToken s -> (remaining s <= fuel)%nat ->
  Ran (parseMessageCatalog jsNumber jsParseFloat fuel) s
      (fun r s' => (check TKeyword (Some "messages") s = true -> (pos s < pos s')%nat)
                   /\ from_option (catalogWithin len) True r).
Proof.
  intros Hon Hfuel. unfold ParserSpec.Ran, parseMessageCatalog.
  run_expect. run_expectToken. branch_on_result.
  - run_while (Forall (entryWithin len)).
    { intros entries s1 Hes Hon1 Hc1 Hfuel1. unfold ParserSpec.Ran. norm.
      pose proof (inBlock_not_at_end _ Hc1) as He1. branch.
      - at_state ltac:(fun s2 => constr:(parseMessageEntry_ran fuel s2)).
        ran_done. split; [|cursor]. apply Forall_pushOpt; [done|]. cursor.
      - run_error. run_advance. ran_done. split; [done|cursor]. }
    run_expectToken. block_done.
    unfold catalogWithin; simpl. split; [|cursor].
    apply merge_current; eauto 3 with parser. cursor.
  - at_state ltac:(fun s1 => constr:(synchronize_ran fuel s1)). block_done.
Qed.

Lemma parseSubnetworkDeclaration_ran fuel s :
  OnToken s -> (remaining s <= fuel)%nat ->
  Ran (parseSubnetworkDeclaration jsNumber jsParseFloat fuel) s
      (fun r s' => (check TKeyword (Some "subnetwork") s = true -> (pos s < pos s')%nat)
                   /\ from_option (subnetworkWithin len) True r).
Proof.
  intros Hon Hfuel. unfold ParserSpec.Ran, parseSubnetworkDeclaration.
  run_expect. at_state ltac:(fun s1 => constr:(expectString_ran s1)).
  run_expectToken. branch_on_result.
  - run_while (fun acc : list PropertyAssignment * list MemberDeclaration =>
                 Forall (propertyWithin len) acc.1 /\ Forall (memberWithin len) acc.2).
    { intros acc s1 [Hps Hms] Hon1 Hc1 Hfuel1. unfold ParserSpec.Ran. norm.
      pose proof (inBlock_not_at_end _ Hc1) as He1.
      branch; [|branch].
      - at_state ltac:(fun s2 => constr:(parseMemberDeclaration_ran fuel s2)).
        ran_done. split; [|cursor]. split; [done|].
        apply Forall_pushOpt; [done|]. cursor.
      - at_state ltac:(fun s2 => constr:(parsePropertyAssignment_ran fuel s2)).
        ran_done. split; [|cursor]. split; [|done].
        apply Forall_pushOpt; [done|]. cursor.
      - run_error. run_advance. ran_done. split; [by split|cursor]. }
    match goal with acc : (list PropertyAssignment * list MemberDeclaration)%type |- _ =>
      destruct acc as [properties members] end.
    cbn [fst snd] in *. run_expectToken. block_done.
    unfold subnetworkWithin; simpl. split; [|cursor; by split].
    apply merge_current; eauto 3 with parser. cursor.
  - at_state ltac:(fun s1 => constr:(synchronize_ran fuel s1)). block_done.
Qed.

Lemma bodyWithin_empty : bodyWithin len (mkBody [] [] [] [] None None).
Proof. unfold bodyWithin. simpl. by repeat split. Qed.

#[local] Hint Resolve bodyWithin_empty : parser.

(** One item of a network body: the accumulator keeps its spans within
    the source and the cursor moves. *)
Ltac item_done :=
  ran_done; split; [|cursor];
  unfold bodyWithin in *; simpl; cursor; repeat split; try done;
  try (apply Forall_pushOpt; [done|]); cursor.

Lemma parseNetworkItem_ran fuel b s :
  bodyWithin len b -> OnToken s -> inBlock s = true -> (remaining s <= fuel)%nat ->
  Ran (parseNetworkItem jsNumber jsParseFloat fuel b) s
      (fun b' s' => bodyWithin len b' /\ (pos s < pos s')%nat).
Proof.
  intros Hb Hon Hc Hfuel. unfold ParserSpec.Ran, parseNetworkItem. norm.
  pose proof (inBlock_not_at_end _ Hc) as He.
  branch; [|branch; [|branch; [|branch; [|branch; [|branch]]]]].
  - at_state ltac:(fun s1 => constr:(parseTerminalDeclaration_ran fuel s1)). item_done.
  - at_state ltac:(fun s1 => constr:(parseNetDeclaration_ran fuel s1)). item_done.
  - at_state ltac:(fun s1 => constr:(parseSubnetworkDeclaration_ran fuel s1)). item_done.
  - at_state ltac:(fun s1 => constr:(parseMessageCatalog_ran fuel s1)). item_done.
  - at_state ltac:(fun s1 => constr:(parseFilterBlock_ran fuel s1)). item_done.
  - at_state ltac:(fun s1 => constr:(parsePropertyAssignment_ran fuel s1)). item_done.
  - run_error. run_advance. item_done.
Qed.

Lemma parseNetworkDeclaration_ran fuel s :
  OnToken s -> (remaining s <= fuel)%nat ->
  Ran (parseNetworkDeclaration jsNumber jsParseFloat fuel) s
      (fun r s' => (check TKeyword (Some "network") s = true -> (pos s < pos s')%nat)
                   /\ from_option (networkWithin len) True r).
Proof.
  intros Hon Hfuel. unfold ParserSpec.Ran, parseNetworkDeclaration.
  run_expect. at_state ltac:(fun s1 => constr:(expectString_ran s1)).
  run_expectToken. branch_on_result.
  - run_while (bodyWithin len).
    { intros. by apply parseNetworkItem_ran. }
    run_expectToken. block_done.
    unfold networkWithin, bodyWithin in *; simpl.
    split; [|cursor; by repeat split].
    apply merge_current; eauto 3 with parser. cursor.
  - at_state ltac:(fun s1 => constr:(synchronize_ran fuel s1)). block_done.
Qed.

(** [parse] on the token list: it returns, the cursor ends on the last
    token, and every span of the tree is within the source. *)
Lemma parseDocument_ran fuel s :
  OnToken s -> (remaining s <= fuel)%nat ->
  Ran (parseDocument jsNumber jsParseFloat fuel) s
      (fun r s' => documentWithin len (pr_ast r)
                   /\ pr_diagnostics r = diagnostics s').
Proof.
  intros Hon Hfuel. unfold ParserSpec.Ran, parseDocument. norm.
  run_while (Forall (networkWithin len)).
  { intros networks s1 Hns Hon1 Hc1 Hfuel1. unfold ParserSpec.Ran. norm.
    apply negb_true_iff in Hc1. branch.
    - at_state ltac:(fun s2 => constr:(parseNetworkDeclaration_ran fuel s2)).
      ran_done. split; [|cursor]. apply Forall_pushOpt; [done|]. cursor.
    - run_error. run_advance. ran_done. split; [done|cursor]. }
  norm. ran_done. split; [|done]. unfold documentWithin; simpl. split; [|cursor].
  apply merge_current; eauto 3 with parser. cursor.
Qed.

End Tokens.
End ParserFacts.

(* ================================================================== *)
(** * The engine, the parser and the lexer on every source *)
(* ================================================================== *)

Module EngineFacts.
Import Parser SpanBounds LexerSpec StringFacts LexerFacts ParserFacts.

Lemma isSignificant_eof eof : tk_type eof = TEOF -> Lexer.isSignificant eof = true.
Proof. intros H. unfold Lexer.isSignificant. by rewrite H. Qed.

Section Runtime.

Variables jsNumber jsParseFloat : string -> float.

(** [parse] returns for every source: the lexer hands over a list of tokens
    that ends with the end-of-input token, the cursor stays on the list,
    [advance] is called at most once for each token of the list, and the
    spans of the tree are within the source. *)
Lemma parseState_returns src fuel :
  (S (String.length src) <= fuel)%nat ->
  exists allTokens r s',
    Lexer.lexWithTrivia fuel src = Some allTokens
    /\ parseState jsNumber jsParseFloat fuel src = Some (r, s')
    /\ tokens s' = List.filter Lexer.isSignificant allTokens
    /\ (List.length allTokens <= S (String.length src))%nat
    /\ (advanceCalls s' <= List.length (tokens s'))%nat
    /\ documentWithin (Z.of_nat (String.length src)) (pr_ast r).
Proof.
  intros Hfuel.
  destruct (tokenize_returns src fuel)
    as (front & eof & Hlex & Heof & Hord & Hcount & _); [lia|].
  set (toks := List.filter Lexer.isSignificant (front ++ [eof])).
  assert (toks = List.filter Lexer.isSignificant front ++ [eof]) as Heq.
  { unfold toks. rewrite List.filter_app. simpl. by rewrite isSignificant_eof. }
  pose proof (List.filter_length_le Lexer.isSignificant front) as Hfl.
  assert (ParserSpec.OnToken toks (initState (front ++ [eof]))) as Hon.
  { split; [done|]. simpl. rewrite Heq, length_app. simpl. lia. }
  destruct (parseDocument_ran toks (Z.of_nat (String.length src))
              (ex_intro _ _ (ex_intro _ eof (conj Heq Heof)))
              (Ordered_filter _ _ _ _ Hord)
              jsNumber jsParseFloat fuel (initState (front ++ [eof])))
    as (r & s' & Hrun & Hstep & Hdoc & _).
  - done.
  - unfold ParserSpec.remaining. simpl. rewrite Heq, length_app. simpl. lia.
  - exists (front ++ [eof]), r, s'. split; [done|]. split.
    { unfold parseState, Lexer.lexWithTrivia. rewrite Hlex. exact Hrun. }
    destruct Hstep as [_ [Ht Hp] _ _ Hc]. split; [done|].
    split; [rewrite length_app; simpl; lia|]. split; [|done].
    simpl in Hc. rewrite Ht. destruct (isAtEnd s'); lia.
Qed.

End Runtime.

End EngineFacts.

Module ParserClaims.
Import Parser SpanBounds ParserFacts EngineFacts.

(** C5: For every source the parser returns (with fuel for the length of
    the source it is never short of iterations, in the loops of the
    declarations and in [synchronize] alike), and it has called [advance] at
    most once for each of the tokens it was given, the significant tokens
    of the lexer. *)
Theorem parse_returns_with_linear_advances
    (jsNumber jsParseFloat : string -> float) (src : string) (fuel : nat) :
  (S (String.length src) <= fuel)%nat ->
  exists r s',
    parseState jsNumber jsParseFloat fuel src = Some (r, s')
    /\ parse jsNumber jsParseFloat fuel src = Some r
    /\ Lexer.lexSignificant fuel src = Some (tokens s')
    /\ (advanceCalls s' <= List.length (tokens s'))%nat
    /\ (List.length (tokens s') <= S (String.length src))%nat.
Proof.
  intros Hfuel.
  destruct (parseState_returns jsNumber jsParseFloat src fuel Hfuel)
    as (allTokens & r & s' & Hlex & Hrun & Htok & Hlen & Hcalls & _).
  exists r, s'. split; [done|]. split; [by unfold parse; rewrite Hrun|].
  split; [|split; [done|]].
  - unfold Lexer.lexSignificant. unfold Lexer.lexWithTrivia in Hlex.
    rewrite Hlex, Htok. done.
  - rewrite Htok. pose proof (List.filter_length_le Lexer.isSignificant allTokens).
    lia.
Qed.

Lemma parse_returns_with_linear_advances_witness :
  exists r s',
    parseState Conversions.decimalValue Conversions.decimalValue 40
      LexerExamples.jmessageProperty = Some (r, s')
    /\ parse Conversions.decimalValue Conversions.decimalValue 40
         LexerExamples.jmessageProperty = Some r
    /\ Lexer.lexSignificant 40 LexerExamples.jmessageProperty = Some (tokens s')
    /\ (advanceCalls s' <= List.length (tokens s'))%nat
    /\ (List.length (tokens s')
        <= S (String.length LexerExamples.jmessageProperty))%nat.
Proof.
  apply (parse_returns_with_linear_advances
           Conversions.decimalValue Conversions.decimalValue
           LexerExamples.jmessageProperty 40).
  vm_compute. lia.
Defined.

(** C9: For every source the analysis, [parse] then [validate], returns;
    the networks of the tree are a list; and every node of the tree has a
    span of length at least 0 that ends within the source. *)
Theorem analysis_returns_with_spans_within
    (jsNumber jsParseFloat : string -> float) (numberToString : float -> string)
    (src : string) (fuel : nat) :
  (S (String.length src) <= fuel)%nat ->
  exists (ast : DocumentNode) (diags : list Diagnostic),
    Engine.runEngine jsNumber jsParseFloat numberToString fuel src
      = Some (ast, diags)
    /\ documentWithin (Z.of_nat (String.length src)) ast.
Proof.
  intros Hfuel.
  destruct (parseState_returns jsNumber jsParseFloat src fuel Hfuel)
    as (allTokens & r & s' & _ & Hrun & _ & _ & _ & Hdoc).
  eexists _, _. split; [|exact Hdoc].
  unfold Engine.runEngine, parse. by rewrite Hrun.
Qed.

Lemma analysis_returns_with_spans_within_witness :
  exists (ast : DocumentNode) (diags : list Diagnostic),
    Engine.runEngine Conversions.decimalValue Conversions.decimalValue
      Conversions.showIntegral 40 LexerExamples.jmessageProperty
      = Some (ast, diags)
    /\ documentWithin (Z.of_nat (String.length LexerExamples.jmessageProperty)) ast.
Proof.
  apply (analysis_returns_with_spans_within
           Conversions.decimalValue Conversions.decimalValue
           Conversions.showIntegral LexerExamples.jmessageProperty 40).
  vm_compute. lia.
Defined.

(** C8, counterexample: in [network "X" { npg_message: J3/2 }] the
    assignment gives no Property node; the parser reports that the value
    is missing and then that the J-message is unexpected in the body. *)
Example jmessage_value_gives_no_property :
  (fun r => map nw_properties (d_networks (pr_ast r)))
    <$> LexerExamples.jmessagePropertyParse = Some [[]]
  /\ (fun r => map dg_message (pr_diagnostics r))
       <$> LexerExamples.jmessagePropertyParse
     = Some ["Expected value for property 'npg_message'";
             "Unexpected token 'J3/2' in network body"].
Proof. split; vm_compute; reflexivity. Qed.

(** C8 (as amended): A property assignment whose value token is a J-message
    gives no Property node: after the key and the colon the parser reports
    [Expected value for property '<key>'] at the J-message and leaves the
    cursor on it. *)
Theorem jmessage_value_is_rejected
    (jsNumber jsParseFloat : string -> float) (fuel : nat) (s : State)
    (key colon message : Token) :
  tokens s !! pos s = Some key ->
  tokens s !! S (pos s) = Some colon ->
  tokens s !! S (S (pos s)) = Some message ->
  tk_type key <> TEOF ->
  tk_type colon = TColon ->
  tk_type message = TJMessage ->
  parsePropertyAssignment jsNumber jsParseFloat fuel s
  = Some (None,
          mkState (tokens s) (S (S (pos s)))
            (push (diagnostics s)
               (mkDiag ("Expected value for property '" +:+ tk_value key +:+ "'")
                  SevError (tk_span message) None None))
            (comments s) (S (S (advanceCalls s)))).
Proof.
  intros Hkey Hcolon Hmsg Hty Hc Hm.
  assert (isAtEnd s = false) as He.
  { unfold isAtEnd, current. rewrite Hkey. simpl. by apply bool_decide_eq_false. }
  set (s1 := mkState (tokens s) (S (pos s)) (diagnostics s) (comments s)
               (S (advanceCalls s))).
  assert (advance s = Some (current s, s1)) as Hadv.
  { unfold advance. by rewrite He. }
  assert (current s1 = colon) as Hcur1.
  { unfold current. simpl. by rewrite Hcolon. }
  set (s2 := mkState (tokens s) (S (S (pos s))) (diagnostics s) (comments s)
               (S (S (advanceCalls s)))).
  assert (expectToken TColon s1 = Some (true, s2)) as Hexp.
  { unfold expectToken. rewrite bind_gets.
    assert (check TColon None s1 = true) as ->.
    { unfold check. rewrite Hcur1, Hc. done. }
    assert (advance s1 = Some (current s1, s2)) as Hadv1.
    { unfold advance, isAtEnd. rewrite Hcur1, Hc. done. }
    by rewrite (bind_run _ _ _ _ _ Hadv1). }
  assert (current s2 = message) as Hcur2.
  { unfold current. simpl. by rewrite Hmsg. }
  assert (parsePropertyValue jsNumber jsParseFloat fuel s2 = Some (None, s2)) as Hval.
  { unfold parsePropertyValue. rewrite bind_gets, Hcur2, Hm. done. }
  unfold parsePropertyAssignment. rewrite !bind_gets.
  rewrite (bind_run _ _ _ _ _ Hadv). cbv beta.
  rewrite (bind_run _ _ _ _ _ Hexp). cbv beta. cbn [negb]. cbv iota.
  rewrite (bind_run _ _ _ _ _ Hval). cbv beta iota.
  unfold currentValue, current at 1. rewrite Hkey. simpl.
  unfold mbind, P_bind, error. unfold currentSpan. rewrite Hcur2. done.
Qed.

Lemma jmessage_value_is_rejected_witness :
  parsePropertyAssignment Conversions.decimalValue Conversions.decimalValue 8
    (mkState LexerExamples.jmessageTokens 0 [] [] 0)
  = Some (None,
          mkState LexerExamples.jmessageTokens 2
            [mkDiag "Expected value for property 'npg_message'" SevError
               (mkSpan 1 14 13 4) None None]
            [] 2).
Proof.
  apply (jmessage_value_is_rejected
           Conversions.decimalValue Conversions.decimalValue 8
           (mkState LexerExamples.jmessageTokens 0 [] [] 0)
           (mkToken TIdentifier "npg_message" (mkSpan 1 1 0 11))
           (mkToken TColon ":" (mkSpan 1 12 11 1))
           (mkToken TJMessage "J3/2" (mkSpan 1 14 13 4)));
    simpl; reflexivity || discriminate.
Defined.

End ParserClaims.

Module NumberTokenFacts.
Import Lexer NumberTokens LexerSpec StringFacts LexerFacts.

Lemma substring_nothing (n : nat) (s : string) : String.substring n 0 s = EmptyString.
Proof. revert n. induction s as [|a s IH]; intros [|n]; simpl; try done. Qed.

Lemma digitsEnd_Moved s : Moved s (digitsEnd s).
Proof.
  unfold digitsEnd. destruct (_ && _).
  - eapply Moved_trans; [apply scanWhile_Moved|].
    eapply Moved_trans; [apply advance_Moved | apply scanWhile_Moved].
  - apply scanWhile_Moved.
Qed.

(** The regular expression finds a suffix exactly when one of the four
    suffixes ends at a word boundary. *)
Lemma durationMatch_promoted rest :
  promoted rest = bool_decide (is_Some (durationMatch rest)).
Proof.
  unfold promoted, durationMatch, durationSuffixes, suffixEnds, boundaryAt.
  cbn [existsb String.length].
  repeat match goal with
         | |- context [if ?b && ?c then _ else _] => destruct (b && c)
         end; done.
Qed.

Lemma emitFrom_tokens start s type :
  exists t, tokens (emitFrom start s type) = tokens s ++ [t] /\ tk_type t = type.
Proof. eexists. split; reflexivity. Qed.

End NumberTokenFacts.

Module LexerClaims.
Import Lexer NumberTokens LexerSpec StringFacts LexerFacts NumberTokenFacts.

(** C6, counterexample: in [5s-x] the suffix [s] is followed by a
    hyphen and the number is promoted to a Duration all the same. *)
Example duration_before_hyphen :
  LexerExamples.typesAndValues <$> tokenize 4 "5s-x"
  = Some [(TDuration, "5s"); (TUnknown, "-"); (TIdentifier, "x");
          (TEOF, EmptyString)].
Proof. vm_compute. reflexivity. Qed.

(** C6 (as amended): [scanNumber] pushes one token. With no hex prefix and no
    percent sign, the token is a Duration exactly when one of the suffixes
    [s], [ms], [min], [h] follows the digits and is itself followed by the
    end of the input or by a character that is no letter, digit or
    underscore; otherwise it is a Number. These characters are the
    identifier-continue characters without the hyphen. *)
Theorem duration_suffix_ends_at_word_boundary :
  (forall s : State,
     exists t, tokens (scanNumber s) = tokens s ++ [t]
               /\ tk_type t = numberTokenType s)
  /\ (forall ch : ascii, isIdentPart ch = isWordChar ch || Ascii.eqb ch "-").
Proof.
  split.
  - intros s. unfold scanNumber, numberTokenType.
    destruct (charIs _ "0" && _).
    { destruct (emitFrom_tokens s (scanWhile isHexDigit (advance (advance s)))
                  THexNumber) as (t & Ht & Hty).
      exists t. split; [|done]. rewrite Ht. f_equal.
      pose proof (scanWhile_Moved isHexDigit (advance (advance s))) as [_ -> _ _].
      pose proof (advance_Moved (advance s)) as [_ -> _ _].
      by pose proof (advance_Moved s) as [_ -> _ _]. }
    fold (digitsEnd s). cbv zeta.
    pose proof (digitsEnd_Moved s) as [_ Htok _ _].
    set (s2 := digitsEnd s) in *.
    destruct (charIs _ "%").
    { destruct (emitFrom_tokens s (advance s2) TPercent) as (t & Ht & Hty).
      exists t. split; [|done]. rewrite Ht. f_equal.
      by pose proof (advance_Moved s2) as [_ -> _ _]. }
    rewrite durationMatch_promoted.
    destruct (Nat.ltb_spec (pos s2) (String.length (source s2))) as [Hlt|Hge].
    + destruct (durationMatch _) as [n|].
      * destruct (emitFrom_tokens s (Nat.iter n advance s2) TDuration)
          as (t & Ht & Hty).
        exists t. split; [|done]. rewrite Ht. f_equal.
        by pose proof (iter_advance_Moved n s2) as [_ -> _ _].
      * destruct (emitFrom_tokens s s2 TNumber) as (t & Ht & Hty).
        exists t. split; [|done]. by rewrite Ht, Htok.
    + unfold slice.
      replace (String.length (source s2) - pos s2)%nat with 0%nat by lia.
      rewrite substring_nothing.
      destruct (emitFrom_tokens s s2 TNumber) as (t & Ht & Hty).
      exists t. split; [|done]. by rewrite Ht, Htok.
  - intros ch. unfold isIdentPart, isIdentStart, isWordChar, isDigitChar.
    repeat match goal with
           | |- context [Ascii.leb ?a ?b] => destruct (Ascii.leb a b)
           | |- context [Ascii.eqb ?a ?b] => destruct (Ascii.eqb a b)
           end; done.
Qed.

(** C7, counterexample: the blank of [a b] leaves no token between the
    two identifiers. *)
Example blank_leaves_no_token :
  LexerExamples.typesAndValues <$> tokenize 3 "a b"
  = Some [(TIdentifier, "a"); (TIdentifier, "b"); (TEOF, EmptyString)].
Proof. vm_compute. reflexivity. Qed.

End LexerClaims.

Module ParserReportFacts.
Import Parser SpanBounds LexerSpec LexerFacts ParserFacts ParserReports.

Lemma Ordered_Within lo toks hi :
  0 <= lo -> Ordered lo toks hi -> Forall (fun t => Within hi (tk_span t)) toks.
Proof.
  revert lo. induction toks as [|t toks IH]; intros lo Hlo; simpl; [constructor|].
  intros (H1 & H2 & H3). pose proof (Ordered_le _ _ _ H3). constructor.
  - unfold Within. lia.
  - eapply IH; [|exact H3]. lia.
Qed.

Section Fields.

Variable toks : list Token.
Variable coms : list Token.
Variable len : Z.
Hypothesis toks_within : Forall (fun t => Within len (tk_span t)) toks.
Hypothesis len_nonneg : 0 <= len.

Local Abbreviation Kept := (ParserReports.Kept toks coms len).
Local Abbreviation Keeps := (ParserReports.Keeps toks coms len).

Lemma Keeps_ret {A : Type} (a : A) : Keeps (mret a).
Proof. intros s a' s' [= <- <-]. done. Qed.

Lemma Keeps_gets {A : Type} (g : State -> A) : Keeps (gets g).
Proof. intros s a' s' [= <- <-]. done. Qed.

Lemma Keeps_bind {A B : Type} (m : P A) (f : A -> P B) :
  Keeps m -> (forall a, Keeps (f a)) -> Keeps (m ≫= f).
Proof.
  intros Hm Hf s b s'. unfold mbind, P_bind.
  destruct (m s) as [[a s1]|] eqn:E; [|done].
  intros Hrun Hs. exact (Hf a _ _ _ Hrun (Hm _ _ _ E Hs)).
Qed.

Lemma Keeps_advance : Keeps advance.
Proof.
  intros s a s'. unfold advance. intros [= <- <-] (Ht & Hc & Hd).
  by destruct (isAtEnd s).
Qed.

Lemma current_Within s : tokens s = toks -> Within len (currentSpan s).
Proof.
  intros Ht. unfold currentSpan, current. rewrite Ht.
  destruct (toks !! pos s) as [t|] eqn:E; simpl.
  - by apply (Forall_lookup_1 _ _ _ _ toks_within E).
  - unfold Within. simpl. lia.
Qed.

Lemma Keeps_error msg : Keeps (error msg).
Proof.
  intros s a s'. unfold error. intros [= <- <-] (Ht & Hc & Hd).
  split; [done|]. split; [done|]. simpl. unfold push.
  apply Forall_app. split; [done|]. constructor; [|constructor].
  repeat split; try done; by apply current_Within.
Qed.

Lemma Keeps_while {A : Type} fuel cond (body : A -> P A) :
  (forall a, Keeps (body a)) -> forall a, Keeps (while fuel cond body a).
Proof.
  intros Hbody. induction fuel as [|fuel IH]; intros a s a' s'; simpl.
  - destruct (cond s); [done|]. by intros [= <- <-].
  - destruct (cond s); [|by intros [= <- <-]].
    destruct (body a s) as [[a1 s1]|] eqn:E; [|done].
    intros Hrun Hs. exact (IH _ _ _ _ Hrun (Hbody _ _ _ _ E Hs)).
Qed.

(** Takes a method apart into its calls. *)
Ltac keeps :=
  repeat first
    [ apply Keeps_ret
    | apply Keeps_gets
    | apply Keeps_advance
    | apply Keeps_error
    | solve [auto]
    | apply Keeps_bind; [|intros ?]
    | apply Keeps_while; intros ?
    | match goal with
      | |- ParserReports.Keeps _ _ _ (if ?b then _ else _) => destruct b
      | |- ParserReports.Keeps _ _ _ (match ?x with _ => _ end) => destruct x
      end ].

Lemma Keeps_expect type value : Keeps (expect type value).
Proof. unfold expect. keeps. Qed.

Lemma Keeps_expectToken type : Keeps (expectToken type).
Proof. unfold expectToken. keeps. Qed.

Lemma Keeps_expectString : Keeps expectString.
Proof. unfold expectString. keeps. Qed.

Lemma Keeps_synchronize fuel : Keeps (synchronize fuel).
Proof.
  induction fuel as [|fuel IH]; intros s a s'; simpl.
  - destruct (isAtEnd s); [by intros [= <- <-]|].
    destruct (check TRBrace None s).
    { apply (Keeps_bind advance (fun _ => mret tt));
        [apply Keeps_advance | intros; apply Keeps_ret]. }
    destruct (atSyncKeyword s); [by intros [= <- <-]|done].
  - destruct (isAtEnd s); [by intros [= <- <-]|].
    destruct (check TRBrace None s).
    { apply (Keeps_bind advance (fun _ => mret tt));
        [apply Keeps_advance | intros; apply Keeps_ret]. }
    destruct (atSyncKeyword s); [by intros [= <- <-]|].
    apply (Keeps_bind advance (fun _ => synchronize fuel));
      [apply Keeps_advance | intros; apply IH].
Qed.

Create HintDb keeps.
#[local] Hint Resolve Keeps_expect Keeps_expectToken Keeps_expectString
  Keeps_synchronize : keeps.

Ltac keeps_all := repeat (keeps; try solve [eauto with keeps]).

Variable jsNumber : string -> float.
Variable jsParseFloat : string -> float.

Lemma Keeps_parseArrayValue fuel : Keeps (parseArrayValue fuel).
Proof. unfold parseArrayValue. keeps_all. Qed.

Lemma Keeps_parsePropertyValue fuel :
  Keeps (parsePropertyValue jsNumber jsParseFloat fuel).
Proof.
  pose proof (Keeps_parseArrayValue fuel).
  unfold parsePropertyValue. keeps_all.
Qed.

Lemma Keeps_parsePropertyAssignment fuel :
  Keeps (parsePropertyAssignment jsNumber jsParseFloat fuel).
Proof.
  pose proof (Keeps_parsePropertyValue fuel).
  unfold parsePropertyAssignment. keeps_all.
Qed.

Lemma Keeps_parsePropertyBlock fuel :
  Keeps (parsePropertyBlock jsNumber jsParseFloat fuel).
Proof.
  pose proof (Keeps_parsePropertyAssignment fuel).
  unfold parsePropertyBlock. keeps_all.
Qed.

Lemma Keeps_parseNamedBlock {A : Type} fuel keyword
    (mk : string -> list PropertyAssignment -> SourceSpan -> A) :
  Keeps (parseNamedBlock jsNumber jsParseFloat fuel keyword mk).
Proof.
  pose proof (Keeps_parsePropertyBlock fuel).
  unfold parseNamedBlock. keeps_all.
Qed.

Lemma Keeps_parseSubnetworkDeclaration fuel :
  Keeps (parseSubnetworkDeclaration jsNumber jsParseFloat fuel).
Proof.
  pose proof (Keeps_parsePropertyAssignment fuel).
  pose proof (Keeps_parseNamedBlock fuel "member" mkMember).
  unfold parseSubnetworkDeclaration, parseMemberDeclaration. keeps_all.
Qed.

Lemma Keeps_parseMessageEntry fuel :
  Keeps (parseMessageEntry jsNumber jsParseFloat fuel).
Proof.
  pose proof (Keeps_parsePropertyBlock fuel).
  unfold parseMessageEntry. keeps_all.
Qed.

Lemma Keeps_parseMessageCatalog fuel :
  Keeps (parseMessageCatalog jsNumber jsParseFloat fuel).
Proof.
  pose proof (Keeps_parseMessageEntry fuel).
  unfold parseMessageCatalog. keeps_all.
Qed.

Lemma Keeps_parseCondition : Keeps parseCondition.
Proof. unfold parseCondition. keeps_all. Qed.

Lemma Keeps_parseWhereClause : Keeps parseWhereClause.
Proof.
  pose proof Keeps_parseCondition.
  unfold parseWhereClause. keeps_all.
Qed.

Lemma Keeps_parseFilterRule : Keeps parseFilterRule.
Proof.
  pose proof Keeps_parseWhereClause.
  unfold parseFilterRule. keeps_all.
Qed.

Lemma Keeps_parseFilterRules fuel rules : Keeps (parseFilterRules fuel rules).
Proof.
  pose proof Keeps_parseFilterRule.
  unfold parseFilterRules. keeps_all.
Qed.

Lemma Keeps_parseFilterBlock fuel : Keeps (parseFilterBlock fuel).
Proof.
  pose proof (Keeps_parseFilterRules fuel).
  unfold parseFilterBlock. keeps_all.
Qed.

Lemma Keeps_parseNetworkItem fuel b :
  Keeps (parseNetworkItem jsNumber jsParseFloat fuel b).
Proof.
  pose proof (Keeps_parseNamedBlock fuel "terminal" mkTerminal).
  pose proof (Keeps_parseNamedBlock fuel "net" mkNet).
  pose proof (Keeps_parseSubnetworkDeclaration fuel).
  pose proof (Keeps_parseMessageCatalog fuel).
  pose proof (Keeps_parseFilterBlock fuel).
  pose proof (Keeps_parsePropertyAssignment fuel).
  unfold parseNetworkItem, parseTerminalDeclaration, parseNetDeclaration.
  keeps_all.
Qed.

Lemma Keeps_parseNetworkDeclaration fuel :
  Keeps (parseNetworkDeclaration jsNumber jsParseFloat fuel).
Proof.
  pose proof (Keeps_parseNetworkItem fuel).
  unfold parseNetworkDeclaration. keeps_all.
Qed.

Lemma Keeps_parseDocument fuel :
  Keeps (parseDocument jsNumber jsParseFloat fuel).
Proof.
  pose proof (Keeps_parseNetworkDeclaration fuel).
  unfold parseDocument. keeps_all.
Qed.

End Fields.

End ParserReportFacts.

Module DiagnosticShapeFacts.
Import Validator ValidatorOutput ValidatorFacts DiagnosticShape.

Lemma Forall_fold {A D : Type} (Q : D -> Prop)
    (f : list D -> A -> list D) (l : list A) :
  (forall d x, In x l -> Forall Q d -> Forall Q (f d x)) ->
  forall d, Forall Q d -> Forall Q (fold_left f l d).
Proof.
  induction l as [|x l IH]; intros Hf d Hd; simpl; [done|].
  apply IH.
  - intros d' y Hy. apply Hf. by right.
  - apply Hf; [by left|done].
Qed.

Lemma Forall_fold_snd {St A D : Type} (Q : D -> Prop)
    (f : St * list D -> A -> St * list D) (l : list A) :
  (forall st d x, In x l -> Forall Q d -> Forall Q (snd (f (st, d) x))) ->
  forall st d, Forall Q d -> Forall Q (snd (fold_left f l (st, d))).
Proof.
  induction l as [|x l IH]; intros Hf st d Hd; simpl; [done|].
  destruct (f (st, d) x) as [st' d'] eqn:E.
  apply IH.
  - intros st0 d0 y Hy. apply Hf. by right.
  - change d' with (snd (st', d')). rewrite <- E. apply Hf; [by left|done].
Qed.

Lemma In_Forall {A : Type} (Q : A -> Prop) (l : list A) (x : A) :
  Forall Q l -> In x l -> Q x.
Proof. intros H Hx. rewrite Forall_forall in H. apply H. by apply list_elem_of_In. Qed.

Section Spans.

Variable Ok : SourceSpan -> Prop.
Variable rules : list string.

Local Abbreviation Sh := (Shaped Ok rules).

Lemma findProp_Ok ps key p :
  propertiesOk Ok ps -> findProp ps key = Some p -> Ok (p_span p).
Proof.
  unfold findProp. intros Hps Hf. apply find_some in Hf as [Hin _].
  exact (In_Forall _ _ _ Hps Hin).
Qed.

(** The span of the diagnostic that a check pushes. *)
Ltac span_ok :=
  simpl in *;
  first
    [ assumption
    | match goal with
      | H : findProp ?ps ?k = Some ?p, Hps : propertiesOk _ ?ps |- _ =>
          exact (findProp_Ok ps k p Hps H)
      end ].

(** A check: on each of its paths it returns [diag], or [diag] with one
    more diagnostic. *)
Ltac shaped_push :=
  unfold push; apply Forall_app; split; [assumption|];
  constructor; [|constructor];
  split; [ span_ok
         | split; [ simpl; eexists; split; [reflexivity|assumption]
                  | simpl; auto ] ].

Ltac shaped := repeat case_match; subst; try assumption; shaped_push.

Section WithNumberFormat.
Variable numberToString : float -> string.

Lemma ppliTerminal_shaped d t :
  In "ppli-required" rules -> terminalOk Ok t ->
  Forall Sh d -> Forall Sh (ppliTerminal d t).
Proof. intros Hr [Hs Hps] Hd. unfold ppliTerminal. shaped. Qed.

Lemma coverageNpg_shaped n t span d id :
  In "npg-subscriber-coverage" rules -> Ok span ->
  Forall Sh d -> Forall Sh (coverageNpg n t span d id).
Proof. intros Hr Hs Hd. unfold coverageNpg. shaped. Qed.

Lemma coverageTerminal_shaped n d t :
  In "npg-subscriber-coverage" rules -> terminalOk Ok t ->
  Forall Sh d -> Forall Sh (coverageTerminal n d t).
Proof.
  intros Hr [Hs Hps] Hd. unfold coverageTerminal.
  repeat case_match; subst; try assumption.
  apply Forall_fold; [|done]. intros. apply coverageNpg_shaped; try done.
  span_ok.
Qed.

Lemma validateTsdfBudget_shaped n d :
  In "total-tsdf-budget" rules -> Ok (nw_span n) ->
  Forall Sh d -> Forall Sh (validateTsdfBudget numberToString n d).
Proof. intros Hr Hs Hd. unfold validateTsdfBudget. shaped. Qed.

Lemma messageNpgEntry_shaped d e :
  In "message-npg-match" rules -> entryOk Ok e ->
  Forall Sh d -> Forall Sh (messageNpgEntry d e).
Proof. intros Hr [Hs Hps] Hd. unfold messageNpgEntry. shaped. Qed.

Lemma stackedNeedsLevel_shaped net a b d :
  In "stacking-consistency" rules -> Ok (n_span net) ->
  (forall p, b = Some p -> Ok (p_span p)) ->
  Forall Sh d -> Forall Sh (stackedNeedsLevel numberToString net a b d).
Proof.
  intros Hr Hs Hb Hd. unfold stackedNeedsLevel.
  repeat case_match; subst; try assumption;
    try (specialize (Hb _ eq_refl)); shaped_push.
Qed.

Lemma levelNeedsStacked_shaped net a b d :
  In "stacking-consistency" rules ->
  (forall p, b = Some p -> Ok (p_span p)) ->
  Forall Sh d -> Forall Sh (levelNeedsStacked net a b d).
Proof.
  intros Hr Hb Hd. unfold levelNeedsStacked.
  repeat case_match; subst; try assumption;
    try (specialize (Hb _ eq_refl)); shaped_push.
Qed.

Lemma stackingNet_shaped d net :
  In "stacking-consistency" rules -> netOk Ok net ->
  Forall Sh d -> Forall Sh (stackingNet numberToString d net).
Proof.
  intros Hr [Hs Hps] Hd. unfold stackingNet. cbv zeta.
  apply levelNeedsStacked_shaped; [done|by intros p; apply findProp_Ok|].
  apply stackedNeedsLevel_shaped; try done. by intros p; apply findProp_Ok.
Qed.

Lemma npgRefId_shaped span d id :
  In "valid-npg-reference" rules -> Ok span ->
  Forall Sh d -> Forall Sh (npgRefId span d id).
Proof. intros Hr Hs Hd. unfold npgRefId. shaped. Qed.

Lemma npgRefProperty_shaped d p :
  In "valid-npg-reference" rules -> Ok (p_span p) ->
  Forall Sh d -> Forall Sh (npgRefProperty d p).
Proof.
  intros Hr Hs Hd. unfold npgRefProperty.
  repeat case_match; subst; try assumption.
  apply Forall_fold; [|done]. intros. by apply npgRefId_shaped.
Qed.

Lemma npgRefTerminal_shaped d t :
  In "valid-npg-reference" rules -> terminalOk Ok t ->
  Forall Sh d -> Forall Sh (npgRefTerminal d t).
Proof.
  intros Hr [Hs Hps] Hd. unfold npgRefTerminal.
  apply Forall_fold; [|done]. intros d' p Hp Hd'.
  apply npgRefProperty_shaped; try done. exact (In_Forall _ _ _ Hps Hp).
Qed.

Lemma npgRefNet_shaped d net :
  In "valid-npg-reference" rules -> netOk Ok net ->
  Forall Sh d -> Forall Sh (npgRefNet d net).
Proof. intros Hr [Hs Hps] Hd. unfold npgRefNet. shaped. Qed.

Lemma jmessageRefEntry_shaped d e :
  In "valid-j-message-reference" rules -> entryOk Ok e ->
  Forall Sh d -> Forall Sh (jmessageRefEntry d e).
Proof. intros Hr [Hs Hps] Hd. unfold jmessageRefEntry. shaped. Qed.

Lemma participantName_shaped n net span d name :
  In "participant-reference" rules -> Ok span ->
  Forall Sh d -> Forall Sh (participantName n net span d name).
Proof. intros Hr Hs Hd. unfold participantName. shaped. Qed.

Lemma participantNet_shaped n d net :
  In "participant-reference" rules -> netOk Ok net ->
  Forall Sh d -> Forall Sh (participantNet n d net).
Proof.
  intros Hr [Hs Hps] Hd. unfold participantNet.
  repeat case_match; subst; try assumption.
  apply Forall_fold; [|done]. intros. apply participantName_shaped; try done.
  span_ok.
Qed.

Lemma trackNumberStep_shaped st d t :
  In "track-number-uniqueness" rules -> terminalOk Ok t ->
  Forall Sh d -> Forall Sh (snd (trackNumberStep numberToString (st, d) t)).
Proof.
  intros Hr [Hs Hps] Hd. unfold trackNumberStep.
  repeat case_match; subst; simpl; try assumption. shaped_push.
Qed.

Lemma netNumberStep_shaped st d net :
  In "net-number-uniqueness" rules -> netOk Ok net ->
  Forall Sh d -> Forall Sh (snd (netNumberStep numberToString (st, d) net)).
Proof.
  intros Hr [Hs Hps] Hd. unfold netNumberStep.
  repeat case_match; subst; simpl; try assumption. shaped_push.
Qed.

Lemma validateClassification_shaped n d :
  In "valid-classification" rules -> propertiesOk Ok (nw_properties n) ->
  Forall Sh d -> Forall Sh (validateClassification n d).
Proof. intros Hr Hps Hd. unfold validateClassification. shaped. Qed.

Lemma terminalRole_shaped roleProp d :
  In "valid-role" rules -> (forall p, roleProp = Some p -> Ok (p_span p)) ->
  Forall Sh d -> Forall Sh (terminalRole roleProp d).
Proof.
  intros Hr Hp Hd. unfold terminalRole.
  repeat case_match; subst; try assumption;
    try (specialize (Hp _ eq_refl)); shaped_push.
Qed.

Lemma terminalPlatformType_shaped t d :
  In "valid-platform-type" rules -> terminalOk Ok t ->
  Forall Sh d -> Forall Sh (terminalPlatformType t d).
Proof. intros Hr [Hs Hps] Hd. unfold terminalPlatformType. shaped. Qed.

Lemma terminalTrackNumber_shaped t d :
  In "valid-track-number" rules -> terminalOk Ok t ->
  Forall Sh d -> Forall Sh (terminalTrackNumber numberToString t d).
Proof. intros Hr [Hs Hps] Hd. unfold terminalTrackNumber. shaped. Qed.

Lemma terminalRoleRequired_shaped t roleProp d :
  In "required-property" rules -> Ok (t_span t) ->
  Forall Sh d -> Forall Sh (terminalRoleRequired t roleProp d).
Proof. intros Hr Hs Hd. unfold terminalRoleRequired. shaped. Qed.

Lemma terminalProperties_shaped d t :
  In "valid-role" rules -> In "valid-platform-type" rules ->
  In "valid-track-number" rules -> In "required-property" rules ->
  terminalOk Ok t ->
  Forall Sh d -> Forall Sh (terminalProperties numberToString d t).
Proof.
  intros H1 H2 H3 H4 Ht Hd. unfold terminalProperties. cbv zeta.
  apply terminalRoleRequired_shaped; [done|by destruct Ht|].
  apply terminalTrackNumber_shaped; try done.
  apply terminalPlatformType_shaped; try done.
  apply terminalRole_shaped; try done.
  destruct Ht as [_ Hps]. by intros p; apply findProp_Ok.
Qed.

Lemma netNumberRange_shaped nnProp d :
  In "valid-net-number" rules -> (forall p, nnProp = Some p -> Ok (p_span p)) ->
  Forall Sh d -> Forall Sh (netNumberRange numberToString nnProp d).
Proof.
  intros Hr Hp Hd. unfold netNumberRange.
  repeat case_match; subst; try assumption;
    try (specialize (Hp _ eq_refl)); shaped_push.
Qed.

Lemma netTsdfRange_shaped net d :
  In "valid-tsdf" rules -> netOk Ok net ->
  Forall Sh d -> Forall Sh (netTsdfRange numberToString net d).
Proof. intros Hr [Hs Hps] Hd. unfold netTsdfRange. shaped. Qed.

Lemma netNumberRequired_shaped net nnProp d :
  In "required-property" rules -> Ok (n_span net) ->
  Forall Sh d -> Forall Sh (netNumberRequired net nnProp d).
Proof. intros Hr Hs Hd. unfold netNumberRequired. shaped. Qed.

Lemma netProperties_shaped d net :
  In "valid-net-number" rules -> In "valid-tsdf" rules ->
  In "required-property" rules -> netOk Ok net ->
  Forall Sh d -> Forall Sh (netProperties numberToString d net).
Proof.
  intros H1 H2 H3 Hn Hd. unfold netProperties. cbv zeta.
  apply netNumberRequired_shaped; [done|by destruct Hn|].
  apply netTsdfRange_shaped; try done.
  apply netNumberRange_shaped; try done.
  destruct Hn as [_ Hps]. by intros p; apply findProp_Ok.
Qed.

Lemma ncsExtra_shaped d t :
  In "ncs-required" rules -> Ok (t_span t) ->
  Forall Sh d -> Forall Sh (ncsExtra d t).
Proof. intros Hr Hs Hd. unfold ncsExtra. shaped_push. Qed.

Lemma ncsRequired_shaped n d :
  In "ncs-required" rules -> Ok (nw_span n) -> Forall (terminalOk Ok) (nw_terminals n) ->
  Forall Sh d -> Forall Sh (ncsRequired n d).
Proof.
  intros Hr Hs Hts Hd. unfold ncsRequired. cbv zeta.
  repeat case_match; try assumption; [shaped_push|].
  apply Forall_fold; [|done]. intros d' t Ht Hd'. apply ncsExtra_shaped; try done.
  assert (In t (nw_terminals n)) as Hin.
  { apply list_elem_of_In in Ht. apply list_elem_of_In.
    apply (subseteq_drop 1) in Ht. unfold ncsTerminals in Ht.
    apply list_elem_of_In, filter_In in Ht as [Ht _]. by apply list_elem_of_In. }
  by destruct (In_Forall _ _ _ Hts Hin).
Qed.

Lemma memberRole_shaped roleProp d :
  In "valid-role" rules -> (forall p, roleProp = Some p -> Ok (p_span p)) ->
  Forall Sh d -> Forall Sh (memberRole roleProp d).
Proof.
  intros Hr Hp Hd. unfold memberRole.
  repeat case_match; subst; try assumption;
    try (specialize (Hp _ eq_refl)); shaped_push.
Qed.

Lemma memberUnitIdIsHex_shaped uidProp d :
  In "valid-unit-id" rules -> (forall p, uidProp = Some p -> Ok (p_span p)) ->
  Forall Sh d -> Forall Sh (memberUnitIdIsHex uidProp d).
Proof.
  intros Hr Hp Hd. unfold memberUnitIdIsHex.
  repeat case_match; subst; try assumption;
    try (specialize (Hp _ eq_refl)); shaped_push.
Qed.

Lemma memberForwarding_shaped m d :
  In "valid-forwarding" rules -> memberOk Ok m ->
  Forall Sh d -> Forall Sh (memberForwarding m d).
Proof. intros Hr [Hs Hps] Hd. unfold memberForwarding. shaped. Qed.

Lemma memberRoleRequired_shaped m roleProp d :
  In "required-property" rules -> Ok (m_span m) ->
  Forall Sh d -> Forall Sh (memberRoleRequired m roleProp d).
Proof. intros Hr Hs Hd. unfold memberRoleRequired. shaped. Qed.

Lemma memberUnitIdRequired_shaped m uidProp d :
  In "required-property" rules -> Ok (m_span m) ->
  Forall Sh d -> Forall Sh (memberUnitIdRequired m uidProp d).
Proof. intros Hr Hs Hd. unfold memberUnitIdRequired. shaped. Qed.

Lemma memberProperties_shaped d m :
  In "valid-role" rules -> In "valid-unit-id" rules ->
  In "valid-forwarding" rules -> In "required-property" rules ->
  memberOk Ok m ->
  Forall Sh d -> Forall Sh (memberProperties d m).
Proof.
  intros H1 H2 H3 H4 Hm Hd. unfold memberProperties. cbv zeta.
  pose proof Hm as [Hs Hps].
  apply memberUnitIdRequired_shaped; try done.
  apply memberRoleRequired_shaped; try done.
  apply memberForwarding_shaped; try done.
  apply memberUnitIdIsHex_shaped; [done|by intros p; apply findProp_Ok|].
  apply memberRole_shaped; try done. by intros p; apply findProp_Ok.
Qed.

Lemma subnetworkOperatingMode_shaped s d :
  In "valid-operating-mode" rules -> propertiesOk Ok (s_properties s) ->
  Forall Sh d -> Forall Sh (subnetworkOperatingMode s d).
Proof. intros Hr Hps Hd. unfold subnetworkOperatingMode. shaped. Qed.

Lemma subnetworkDataRate_shaped s d :
  In "valid-data-rate" rules -> propertiesOk Ok (s_properties s) ->
  Forall Sh d -> Forall Sh (subnetworkDataRate s d).
Proof. intros Hr Hps Hd. unfold subnetworkDataRate. shaped. Qed.

Lemma subnetworkProperties_shaped d s :
  In "valid-operating-mode" rules -> In "valid-data-rate" rules ->
  In "valid-role" rules -> In "valid-unit-id" rules ->
  In "valid-forwarding" rules -> In "required-property" rules ->
  subnetworkOk Ok s ->
  Forall Sh d -> Forall Sh (subnetworkProperties d s).
Proof.
  intros H1 H2 H3 H4 H5 H6 (Hs & Hps & Hms) Hd. unfold subnetworkProperties.
  cbv zeta. apply Forall_fold.
  - intros d' m Hm Hd'. apply memberProperties_shaped; try done.
    exact (In_Forall _ _ _ Hms Hm).
  - apply subnetworkDataRate_shaped; try done.
    by apply subnetworkOperatingMode_shaped.
Qed.

Lemma unitIdStep_shaped st d m :
  In "unit-id-uniqueness" rules -> memberOk Ok m ->
  Forall Sh d -> Forall Sh (snd (unitIdStep (st, d) m)).
Proof.
  intros Hr [Hs Hps] Hd. unfold unitIdStep.
  repeat case_match; subst; simpl; try assumption.
  unfold unitIdDiagnostic. shaped_push.
Qed.

Lemma forwardingSubnetwork_shaped d s :
  In "link22-forwarding" rules -> Ok (s_span s) ->
  Forall Sh d -> Forall Sh (forwardingSubnetwork d s).
Proof. intros Hr Hs Hd. unfold forwardingSubnetwork. cbv zeta. shaped. Qed.

Lemma controllerSubnetwork_shaped d s :
  In "link22-controller-required" rules -> Ok (s_span s) ->
  Forall Sh d -> Forall Sh (controllerSubnetwork d s).
Proof. intros Hr Hs Hd. unfold controllerSubnetwork. cbv zeta. shaped. Qed.

Lemma unknownLinkType_shaped n linkType d :
  In "valid-link-type" rules -> propertiesOk Ok (nw_properties n) ->
  Forall Sh d -> Forall Sh (unknownLinkType n linkType d).
Proof. intros Hr Hps Hd. unfold unknownLinkType. shaped. Qed.


(** A rule of the list of a branch is among [rules]. *)
Ltac rule_in :=
  match goal with
  | H : forall r, In r ?l -> In r rules |- In _ rules =>
      apply H; simpl; repeat first [left; reflexivity | right]
  end.

Lemma validateLink16Network_shaped n d :
  (forall r, In r link16Rules -> In r rules) -> networkOk Ok n ->
  Forall Sh d -> Forall Sh (validateLink16Network numberToString n d).
Proof.
  intros Hrules (Hs & Hps & Hts & Hns & Hss & Hes) Hd.
  unfold validateLink16Network. cbv zeta.
  apply validateClassification_shaped; [rule_in|done|].
  apply Forall_fold.
  { intros d' x Hx Hd'. apply netProperties_shaped; try rule_in; try done.
    exact (In_Forall _ _ _ Hns Hx). }
  apply Forall_fold.
  { intros d' x Hx Hd'. apply terminalProperties_shaped; try rule_in; try done.
    exact (In_Forall _ _ _ Hts Hx). }
  apply Forall_fold.
  { intros d' x Hx Hd'. apply participantNet_shaped; try rule_in; try done.
    exact (In_Forall _ _ _ Hns Hx). }
  assert (forall d', Forall Sh d' -> Forall Sh (validateJMessageReferences n d'))
    as Hjm.
  { intros d' Hd'. unfold validateJMessageReferences, catalogEntries in *.
    destruct (nw_messages n); [|done].
    apply Forall_fold; [|done]. intros d'' x Hx Hd''.
    apply jmessageRefEntry_shaped; try rule_in; try done.
    exact (In_Forall _ _ _ Hes Hx). }
  apply Hjm.
  unfold validateNpgReferences. cbv zeta. apply Forall_fold.
  { intros d' x Hx Hd'. apply npgRefNet_shaped; try rule_in; try done.
    exact (In_Forall _ _ _ Hns Hx). }
  apply Forall_fold.
  { intros d' x Hx Hd'. apply npgRefTerminal_shaped; try rule_in; try done.
    exact (In_Forall _ _ _ Hts Hx). }
  apply Forall_fold.
  { intros d' x Hx Hd'. apply stackingNet_shaped; try rule_in; try done.
    exact (In_Forall _ _ _ Hns Hx). }
  assert (forall d', Forall Sh d' -> Forall Sh (validateMessageNpgMatch n d'))
    as Hmm.
  { intros d' Hd'. unfold validateMessageNpgMatch, catalogEntries in *.
    destruct (nw_messages n); [|done].
    apply Forall_fold; [|done]. intros d'' x Hx Hd''.
    apply messageNpgEntry_shaped; try rule_in; try done.
    exact (In_Forall _ _ _ Hes Hx). }
  apply Hmm.
  apply Forall_fold.
  { intros d' x Hx Hd'. apply ppliTerminal_shaped; try rule_in; try done.
    exact (In_Forall _ _ _ Hts Hx). }
  apply Forall_fold.
  { intros d' x Hx Hd'. apply coverageTerminal_shaped; try rule_in; try done.
    exact (In_Forall _ _ _ Hts Hx). }
  apply validateTsdfBudget_shaped; [rule_in|done|].
  apply ncsRequired_shaped; try done. rule_in.
Qed.

Lemma subnetwork_members_Ok n m :
  Forall (subnetworkOk Ok) (nw_subnetworks n) ->
  In m (flat_map s_members (nw_subnetworks n)) -> memberOk Ok m.
Proof.
  intros Hss Hm. apply in_flat_map in Hm as (s & Hs & Hm).
  destruct (In_Forall _ _ _ Hss Hs) as (_ & _ & Hms).
  exact (In_Forall _ _ _ Hms Hm).
Qed.

Lemma validateLink22Network_shaped n d :
  (forall r, In r link22Rules -> In r rules) -> networkOk Ok n ->
  Forall Sh d -> Forall Sh (validateLink22Network n d).
Proof.
  intros Hrules (Hs & Hps & Hts & Hns & Hss & Hes) Hd.
  unfold validateLink22Network. cbv zeta.
  unfold validateLink22UnitIdUniqueness. rewrite unitId_members.
  apply Forall_fold_snd.
  { intros st d' m Hm Hd'. apply unitIdStep_shaped; try rule_in; try done.
    by apply (subnetwork_members_Ok n). }
  apply validateClassification_shaped; [rule_in|done|].
  apply Forall_fold.
  { intros d' x Hx Hd'. apply subnetworkProperties_shaped; try rule_in; try done.
    exact (In_Forall _ _ _ Hss Hx). }
  apply Forall_fold.
  { intros d' x Hx Hd'. apply controllerSubnetwork_shaped; try rule_in; try done.
    by destruct (In_Forall _ _ _ Hss Hx). }
  apply Forall_fold; [|done].
  intros d' x Hx Hd'. apply forwardingSubnetwork_shaped; try rule_in; try done.
  by destruct (In_Forall _ _ _ Hss Hx).
Qed.

Lemma validateNetwork_shaped n d :
  (forall r, In r (rulesFor (getPropertyValue (nw_properties n) "link")) ->
             In r rules) ->
  networkOk Ok n ->
  Forall Sh d -> Forall Sh (validateNetwork numberToString n d).
Proof.
  intros Hrules Hn Hd. pose proof Hn as (Hs & Hps & Hts & Hns & Hss & Hes).
  assert (forall r, In r uniquenessRules -> In r rules) as Hu.
  { intros r Hr. apply Hrules. unfold rulesFor. apply in_or_app. by right. }
  unfold validateNetwork. cbv zeta.
  apply Forall_fold_snd.
  { intros st d' x Hx Hd'. apply netNumberStep_shaped; try rule_in; try done.
    exact (In_Forall _ _ _ Hns Hx). }
  apply Forall_fold_snd.
  { intros st d' x Hx Hd'. apply trackNumberStep_shaped; try rule_in; try done.
    exact (In_Forall _ _ _ Hts Hx). }
  unfold rulesFor in Hrules.
  destruct (is_str _ "Link16").
  { apply validateLink16Network_shaped; try done.
    intros r Hr. apply Hrules, in_or_app. by left. }
  destruct (is_str _ "Link22").
  { apply validateLink22Network_shaped; try done.
    intros r Hr. apply Hrules, in_or_app. by left. }
  apply unknownLinkType_shaped; try done. apply Hrules. by left.
Qed.


End WithNumberFormat.
End Spans.
Lemma propertySpans_Ok (l : list SourceSpan) ps :
  (forall sp, In sp (propertySpans ps) -> In sp l) ->
  propertiesOk (fun sp => In sp l) ps.
Proof.
  intros H. apply Forall_forall. intros p Hp. apply H.
  apply in_map. by apply list_elem_of_In.
Qed.

(** Every node of a network has its span in [networkSpans]. *)
Lemma networkOk_nodes n : networkOk (fun sp => In sp (networkSpans n)) n.
Proof.
  unfold networkOk, networkSpans. split; [by left|]. split.
  { apply propertySpans_Ok. intros sp H. right. apply in_or_app. by left. }
  split.
  { apply Forall_forall. intros t Ht%list_elem_of_In.
    assert (forall sp, In sp (terminalSpans t) ->
                       In sp (flat_map terminalSpans (nw_terminals n))) as Hin.
    { intros sp Hsp. apply in_flat_map. by exists t. }
    split.
    - right. apply in_or_app. right. apply in_or_app. left. apply Hin. by left.
    - apply propertySpans_Ok. intros sp Hsp.
      right. apply in_or_app. right. apply in_or_app. left. apply Hin. by right. }
  split.
  { apply Forall_forall. intros t Ht%list_elem_of_In.
    assert (forall sp, In sp (netSpans t) ->
                       In sp (flat_map netSpans (nw_nets n))) as Hin.
    { intros sp Hsp. apply in_flat_map. by exists t. }
    split.
    - right. do 2 (apply in_or_app; right). apply in_or_app. left.
      apply Hin. by left.
    - apply propertySpans_Ok. intros sp Hsp.
      right. do 2 (apply in_or_app; right). apply in_or_app. left.
      apply Hin. by right. }
  split.
  { apply Forall_forall. intros s Hs%list_elem_of_In.
    assert (forall sp, In sp (subnetworkSpans s) ->
                       In sp (networkSpans n)) as Hin.
    { intros sp Hsp. right. do 3 (apply in_or_app; right). apply in_or_app. left.
      apply in_flat_map. by exists s. }
    split; [apply Hin; by left|]. split.
    - apply propertySpans_Ok. intros sp Hsp. apply Hin. right.
      apply in_or_app. by left.
    - apply Forall_forall. intros m Hm%list_elem_of_In.
      assert (forall sp, In sp (memberSpans m) -> In sp (networkSpans n)) as Hin'.
      { intros sp Hsp. apply Hin. right. apply in_or_app. right.
        apply in_flat_map. by exists m. }
      split; [apply Hin'; by left|].
      apply propertySpans_Ok. intros sp Hsp. apply Hin'. by right. }
  apply Forall_forall. intros e He%list_elem_of_In.
  assert (forall sp, In sp (entrySpans e) -> In sp (networkSpans n)) as Hin.
  { intros sp Hsp. right. do 4 (apply in_or_app; right).
    apply in_flat_map. by exists e. }
  split; [apply Hin; by left|].
  apply propertySpans_Ok. intros sp Hsp. apply Hin. by right.
Qed.

Lemma Forall_always {A : Type} (l : list A) : Forall (fun _ => True) l.
Proof. by apply Forall_forall. Qed.

Lemma networkOk_always n : networkOk (fun _ => True) n.
Proof.
  unfold networkOk, propertiesOk. split; [done|]. split; [apply Forall_always|].
  repeat split; apply Forall_forall; intros x _;
    unfold terminalOk, netOk, subnetworkOk, entryOk, propertiesOk;
    repeat split; try apply Forall_always.
  apply Forall_forall. intros m _. split; [done|apply Forall_always].
Qed.

Lemma networkOk_Within len n :
  SpanBounds.networkWithin len n -> networkOk (SpanBounds.Within len) n.
Proof.
  intros (Hs & Hps & Hts & Hns & Hss & Hm & _).
  split; [done|]. split; [done|]. split; [done|]. split; [done|]. split; [done|].
  unfold catalogEntries. destruct (nw_messages n) as [mc|]; [|constructor].
  by destruct Hm.
Qed.

Section WithNumberFormat.
Variable numberToString : float -> string.

(** The diagnostics of a document whose spans are within the source are
    within the source. *)
Lemma validate_Within len doc :
  SpanBounds.documentWithin len doc ->
  Forall (fun d => SpanBounds.Within len (dg_span d)) (validate numberToString doc).
Proof.
  intros [_ Hns]. unfold validate.
  apply Forall_fold; [|constructor]. intros d n Hn Hd.
  pose proof (validateNetwork_shaped (SpanBounds.Within len)
                (rulesFor (getPropertyValue (nw_properties n) "link"))
                numberToString n [] ltac:(done)
                (networkOk_Within len n (In_Forall _ _ _ Hns Hn))
                ltac:(constructor)) as H.
  rewrite validateNetwork_output. apply Forall_app. split; [done|].
  rewrite validateNetwork_output in H. simpl in H.
  eapply Forall_impl; [exact H|]. by intros x [? _].
Qed.

End WithNumberFormat.

End DiagnosticShapeFacts.

Module DiagnosticShapeClaims.
Import Validator ValidatorOutput ValidatorFacts DiagnosticShape DiagnosticShapeFacts.

(** Every diagnostic of [validate] is placed at the span of a node of one
    of the networks of the document: the network, one of its terminals,
    nets, subnetworks, members or message entries, or one of their
    properties. *)
Theorem validate_reports_at_node_spans
    (numberToString : float -> string) (doc : DocumentNode) :
  Forall (fun d => exists n, In n (d_networks doc)
                             /\ In (dg_span d) (networkSpans n))
         (validate numberToString doc).
Proof.
  unfold validate. apply Forall_fold; [|constructor]. intros d n Hn Hd.
  pose proof (validateNetwork_shaped (fun sp => In sp (networkSpans n))
                (rulesFor (getPropertyValue (nw_properties n) "link"))
                numberToString n [] ltac:(done) (networkOk_nodes n)
                ltac:(constructor)) as H.
  rewrite validateNetwork_output. apply Forall_app. split; [done|].
  rewrite validateNetwork_output in H. simpl in H.
  eapply Forall_impl; [exact H|]. intros x [Hx _]. by exists n.
Qed.

(** Every diagnostic that [validateNetwork] pushes for a network is an
    error or a warning and carries a rule; the rule is one of the Link 16
    rules when the link is [Link16], one of the Link 22 rules when it is
    [Link22] and [valid-link-type] otherwise, or one of the two uniqueness
    rules. *)
Theorem validateNetwork_rules_by_link_type
    (numberToString : float -> string) (n : NetworkDeclaration) :
  Forall (fun d =>
            (exists r, dg_rule d = Some r
                       /\ In r (rulesFor (getPropertyValue (nw_properties n) "link")))
            /\ (dg_severity d = SevError \/ dg_severity d = SevWarning))
         (validateNetwork numberToString n []).
Proof.
  pose proof (validateNetwork_shaped (fun _ => True)
                (rulesFor (getPropertyValue (nw_properties n) "link"))
                numberToString n [] ltac:(done) (networkOk_always n)
                ltac:(constructor)) as H.
  eapply Forall_impl; [exact H|]. by intros x (_ & ? & ?).
Qed.

End DiagnosticShapeClaims.

Module EngineReportFacts.
Import Parser SpanBounds LexerSpec StringFacts LexerFacts ParserFacts EngineFacts.
Import ParserReports ParserReportFacts.

Section Runtime.

Variables jsNumber jsParseFloat : string -> float.

(** [parse] on a source: besides returning, it keeps the token list and the
    comments that it stored at the start, and its diagnostics are those of
    the final state, each of the parser's shape. *)
Lemma parseState_kept src fuel :
  (S (String.length src) <= fuel)%nat ->
  exists allTokens r s',
    Lexer.lexWithTrivia fuel src = Some allTokens
    /\ parseState jsNumber jsParseFloat fuel src = Some (r, s')
    /\ Kept (List.filter Lexer.isSignificant allTokens)
            (List.filter isComment allTokens)
            (Z.of_nat (String.length src)) s'
    /\ pr_diagnostics r = diagnostics s'
    /\ documentWithin (Z.of_nat (String.length src)) (pr_ast r).
Proof.
  intros Hfuel.
  destruct (tokenize_returns src fuel)
    as (front & eof & Hlex & Heof & Hord & Hcount & _); [lia|].
  set (toks := List.filter Lexer.isSignificant (front ++ [eof])).
  assert (toks = List.filter Lexer.isSignificant front ++ [eof]) as Heq.
  { unfold toks. rewrite List.filter_app. simpl. by rewrite isSignificant_eof. }
  pose proof (List.filter_length_le Lexer.isSignificant front) as Hfl.
  assert (ParserSpec.OnToken toks (initState (front ++ [eof]))) as Hon.
  { split; [done|]. simpl. rewrite Heq, length_app. simpl. lia. }
  pose proof (Ordered_filter Lexer.isSignificant _ _ _ Hord) as Hord'.
  destruct (parseDocument_ran toks (Z.of_nat (String.length src))
              (ex_intro _ _ (ex_intro _ eof (conj Heq Heof))) Hord'
              jsNumber jsParseFloat fuel (initState (front ++ [eof])))
    as (r & s' & Hrun & Hstep & Hdoc & Hdiags).
  - done.
  - unfold ParserSpec.remaining. simpl. rewrite Heq, length_app. simpl. lia.
  - exists (front ++ [eof]), r, s'. split; [done|]. split.
    { unfold parseState, Lexer.lexWithTrivia. rewrite Hlex. exact Hrun. }
    split; [|done].
    apply (Keeps_parseDocument toks (List.filter isComment (front ++ [eof]))
             (Z.of_nat (String.length src))
             (Ordered_Within 0 _ _ (Z.le_refl 0) Hord') (Nat2Z.is_nonneg _)
             jsNumber jsParseFloat fuel _ _ _ Hrun).
    split; [done|]. split; [done|]. constructor.
Qed.

End Runtime.

End EngineReportFacts.

Module EngineReportClaims.
Import Parser SpanBounds ParserReports EngineReportFacts.
Import DiagnosticShapeFacts.

(** Every diagnostic of [parse] is an error without a rule or a reference,
    at a span within the source. *)
Theorem parse_reports_errors_within_source
    (jsNumber jsParseFloat : string -> float) (src : string) (fuel : nat) :
  (S (String.length src) <= fuel)%nat ->
  exists r, parse jsNumber jsParseFloat fuel src = Some r
            /\ Forall (parserDiagnostic (Z.of_nat (String.length src)))
                      (pr_diagnostics r).
Proof.
  intros Hfuel.
  destruct (parseState_kept jsNumber jsParseFloat src fuel Hfuel)
    as (allTokens & r & s' & _ & Hrun & (_ & _ & Hd) & Hdiags & _).
  exists r. split; [by unfold parse; rewrite Hrun|]. by rewrite Hdiags.
Qed.

Lemma parse_reports_errors_within_source_witness :
  exists r, parse Conversions.decimalValue Conversions.decimalValue 40
              LexerExamples.jmessageProperty = Some r
            /\ Forall (parserDiagnostic
                         (Z.of_nat (String.length LexerExamples.jmessageProperty)))
                      (pr_diagnostics r).
Proof.
  apply (parse_reports_errors_within_source
           Conversions.decimalValue Conversions.decimalValue
           LexerExamples.jmessageProperty 40).
  vm_compute. lia.
Defined.

(** When [parse] returns, the parser still holds the significant tokens of
    the lexer, and its [comments] are the Comment tokens of the lexer in
    source order: no method of the parser writes either field. *)
Theorem parse_keeps_tokens_and_comments
    (jsNumber jsParseFloat : string -> float) (src : string) (fuel : nat) :
  (S (String.length src) <= fuel)%nat ->
  exists allTokens r s',
    Lexer.lexWithTrivia fuel src = Some allTokens
    /\ parseState jsNumber jsParseFloat fuel src = Some (r, s')
    /\ tokens s' = List.filter Lexer.isSignificant allTokens
    /\ comments s' = List.filter isComment allTokens.
Proof.
  intros Hfuel.
  destruct (parseState_kept jsNumber jsParseFloat src fuel Hfuel)
    as (allTokens & r & s' & Hlex & Hrun & (Ht & Hc & _) & _).
  by exists allTokens, r, s'.
Qed.

Lemma parse_keeps_tokens_and_comments_witness :
  exists allTokens r s',
    Lexer.lexWithTrivia 40 LexerExamples.jmessageProperty = Some allTokens
    /\ parseState Conversions.decimalValue Conversions.decimalValue 40
         LexerExamples.jmessageProperty = Some (r, s')
    /\ tokens s' = List.filter Lexer.isSignificant allTokens
    /\ comments s' = List.filter isComment allTokens.
Proof.
  apply (parse_keeps_tokens_and_comments
           Conversions.decimalValue Conversions.decimalValue
           LexerExamples.jmessageProperty 40).
  vm_compute. lia.
Defined.

(** Every diagnostic of the analysis, of the parser or of the validator,
    has its span within the source. *)
Theorem analysis_reports_within_source
    (jsNumber jsParseFloat : string -> float) (numberToString : float -> string)
    (src : string) (fuel : nat) :
  (S (String.length src) <= fuel)%nat ->
  exists ast diags,
    Engine.runEngine jsNumber jsParseFloat numberToString fuel src
      = Some (ast, diags)
    /\ Forall (fun d => Within (Z.of_nat (String.length src)) (dg_span d)) diags.
Proof.
  intros Hfuel.
  destruct (parseState_kept jsNumber jsParseFloat src fuel Hfuel)
    as (allTokens & r & s' & _ & Hrun & (_ & _ & Hd) & Hdiags & Hdoc).
  exists (pr_ast r),
    (pr_diagnostics r ++ Validator.validate numberToString (pr_ast r)).
  split.
  { unfold Engine.runEngine, parse. by rewrite Hrun. }
  apply Forall_app. split.
  - rewrite Hdiags. eapply Forall_impl; [exact Hd|]. by intros d (_ & _ & _ & ?).
  - by apply validate_Within.
Qed.

Lemma analysis_reports_within_source_witness :
  exists ast diags,
    Engine.runEngine Conversions.decimalValue Conversions.decimalValue
      Conversions.showIntegral 40 LexerExamples.jmessageProperty
      = Some (ast, diags)
    /\ Forall (fun d => Within (Z.of_nat (String.length LexerExamples.jmessageProperty))
                          (dg_span d)) diags.
Proof.
  apply (analysis_reports_within_source
           Conversions.decimalValue Conversions.decimalValue
           Conversions.showIntegral LexerExamples.jmessageProperty 40).
  vm_compute. lia.
Defined.

End EngineReportClaims.

Module LexerOutputFacts.
Import Lexer LexerSpec StringFacts LexerFacts LexerOutput.

(* ---- strings ---- *)

Lemma chars_lookup src n : String.list_ascii_of_string src !! n = String.get n src.
Proof. revert n. induction src as [|a src IH]; intros [|n]; simpl; auto. Qed.

Lemma length_substring (s : string) (n m : nat) :
  (n + m <= String.length s)%nat -> String.length (String.substring n m s) = m.
Proof.
  revert n m. induction s as [|a s IH]; intros [|n] [|m]; simpl; try lia; intros H.
  - f_equal. apply (IH 0%nat). lia.
  - apply IH. lia.
  - apply IH. lia.
Qed.

Lemma substring_S (s : string) (n m : nat) (c : ascii) :
  String.get n s = Some c ->
  String.substring n (S m) s = String c (String.substring (S n) m s).
Proof.
  revert n. induction s as [|a s IH]; intros [|n]; simpl; try done.
  - by intros [= ->].
  - intros H. rewrite (IH _ H). done.
Qed.

Lemma substring_none (n : nat) (s : string) : String.substring n 0 s = EmptyString.
Proof. revert n. induction s as [|a s IH]; intros [|n]; simpl; try done. Qed.

(* ---- lines and columns ---- *)

Lemma lineOf_S src n c :
  String.get n src = Some c ->
  lineOf src (S n) = lineOf src n + (if isNewline c then 1 else 0).
Proof.
  intros H. unfold lineOf. rewrite <- chars_lookup in H.
  rewrite (take_S_r _ _ _ H), List.filter_app, length_app. simpl.
  destruct (isNewline c); simpl; lia.
Qed.

Lemma advance_Placed s : Placed s -> Placed (advance s).
Proof.
  unfold advance. destruct (String.get (pos s) (source s)) as [c|] eqn:E; [|done].
  intros [Hline (start & (Hle & Hno & Hst) & Hcol)].
  destruct (Ascii.eqb c ch_newline) eqn:Hn; unfold Placed, PlacedAt; simpl.
  - apply Ascii.eqb_eq in Hn as ->. split.
    + rewrite (lineOf_S _ _ _ E). unfold isNewline. rewrite Ascii.eqb_refl. lia.
    + exists (S (pos s)). split; [|lia]. split; [lia|]. split; [lia|].
      right. by replace (S (pos s) - 1)%nat with (pos s) by lia.
  - split.
    + rewrite (lineOf_S _ _ _ E). unfold isNewline. rewrite Hn. lia.
    + exists start. split; [|lia]. split; [lia|]. split; [|done].
      intros i Hi. destruct (decide (i = pos s)) as [->|Hne].
      * rewrite E. intros [= ->]. by rewrite Ascii.eqb_refl in Hn.
      * apply Hno. lia.
Qed.

Lemma iter_advance_Placed k s : Placed s -> Placed (Nat.iter k advance s).
Proof. intros H. induction k as [|k IH]; simpl; [done|]. by apply advance_Placed. Qed.

Lemma advance_cursor a b : cursor a = cursor b -> cursor (advance a) = cursor (advance b).
Proof.
  destruct a, b. unfold cursor, advance. simpl. intros [= -> -> -> ->].
  destruct (String.get _ _) as [c|]; [|done]. by destruct (Ascii.eqb _ _).
Qed.

Lemma Walked_Placed s s' : Walked s s' -> Placed s -> Placed s'.
Proof.
  intros [k Hk] Hs. pose proof (iter_advance_Placed k s Hs) as H.
  destruct s', (Nat.iter k advance s). unfold Placed, cursor in *. simpl in *.
  by injection Hk as -> -> -> ->.
Qed.

Lemma Walked_refl s : Walked s s.
Proof. by exists 0%nat. Qed.

Lemma Walked_advance s x : Walked s x -> Walked s (advance x).
Proof. intros [k Hk]. exists (S k). simpl. by apply advance_cursor. Qed.

Lemma Walked_advanceWhile fuel p s x :
  Walked s x -> Walked s (advanceWhile fuel p x).
Proof.
  revert x. induction fuel as [|fuel IH]; intros x Hx; simpl; [done|].
  destruct (String.get _ _) as [c|]; [|done]. destruct (p c); [|done].
  by apply IH, Walked_advance.
Qed.

Lemma Walked_scanWhile p s x : Walked s x -> Walked s (scanWhile p x).
Proof. apply Walked_advanceWhile. Qed.

Lemma Walked_iter n s x : Walked s x -> Walked s (Nat.iter n advance x).
Proof. intros H. induction n as [|n IH]; simpl; [done|]. by apply Walked_advance. Qed.

Lemma Walked_pushToken s x t : Walked s x -> Walked s (pushToken x t).
Proof. by intros [k Hk]; exists k. Qed.

Lemma Walked_emitFrom s start x type : Walked s x -> Walked s (emitFrom start x type).
Proof. apply Walked_pushToken. Qed.

Lemma Walked_emitChars s x n type value :
  Walked s x -> Walked s (emitChars x n type value).
Proof. intros H. by apply Walked_pushToken, Walked_iter. Qed.

(** A scanner: calls of [advance], loops of them, and a push at the end. *)
Ltac walk :=
  cbv zeta;
  repeat first
    [ apply Walked_refl
    | apply Walked_emitFrom
    | apply Walked_emitChars
    | apply Walked_pushToken
    | apply Walked_scanWhile
    | apply Walked_iter
    | apply Walked_advance
    | match goal with
      | |- Walked _ (if ?b then _ else _) => destruct b
      | |- Walked _ (match ?x with _ => _ end) => destruct x
      | |- Walked _ (emitFrom _ (if ?b then _ else _) _) => destruct b
      | |- Walked _ (emitFrom _ (match ?x with _ => _ end) _) => destruct x
      end ].

Lemma scanToken_Walked s : Walked s (scanToken s).
Proof.
  unfold scanToken, scanWhitespace, scanComment, scanString, scanNumber,
    scanJMessage, scanIdentifier, scanOperator, emitSingle.
  walk.
Qed.

(* ---- what a scanner pushes ---- *)

Lemma emitFrom_Emits start s type :
  Moved start s -> (pos start <= String.length (source start))%nat ->
  type <> TEOF -> Emits start (emitFrom start s type).
Proof.
  intros [Hsrc Htok Hpos Hbound] Hin Hty. right. unfold emitFrom, pushToken.
  eexists. simpl. split; [by rewrite Htok|]. split; [done|].
  rewrite Hsrc. split; [|done]. unfold makeSpan, slice. simpl.
  rewrite length_substring; [done|]. specialize (Hbound Hin). lia.
Qed.

Lemma emitChars_Emits s n type value :
  (pos s + n <= String.length (source s))%nat ->
  value = slice (source s) (pos s) (pos s + n) ->
  type <> TEOF -> Emits s (emitChars s n type value).
Proof.
  intros Hlen Hval Hty. right. unfold emitChars, pushToken.
  pose proof (iter_advance_Moved n s) as [Hsrc Htok _ _].
  pose proof (iter_advance_pos n s Hlen) as Hpos.
  eexists. simpl. split; [by rewrite Htok|]. split; [done|].
  rewrite Hpos. replace (pos s + n - pos s)%nat with n by lia. done.
Qed.

Lemma slice_one src n c :
  String.get n src = Some c -> String c EmptyString = slice src n (n + 1).
Proof.
  intros H. unfold slice. replace (n + 1 - n)%nat with 1%nat by lia.
  by rewrite (substring_S _ _ _ _ H), substring_none.
Qed.

Lemma slice_two src n c1 c2 :
  String.get n src = Some c1 -> String.get (n + 1) src = Some c2 ->
  String c1 (String c2 EmptyString) = slice src n (n + 2).
Proof.
  intros H1 H2. unfold slice. replace (n + 2 - n)%nat with 2%nat by lia.
  rewrite (substring_S _ _ _ _ H1).
  replace (S n) with (n + 1)%nat by lia.
  rewrite (substring_S _ _ _ _ H2), substring_none. done.
Qed.

Section Scanners.
Variable s : State.
Variable ch : ascii.
Hypothesis Hch : String.get (pos s) (source s) = Some ch.

Lemma scanWhitespace_Emits : Emits s (scanWhitespace s).
Proof.
  left. unfold scanWhitespace.
  pose proof (scanWhile_Moved isBlank s) as [_ Htok _ _]. split; [done|].
  intros i Hi. eapply advanceWhile_consumed. exact Hi.
Qed.

Lemma scanComment_Emits : Emits s (scanComment s).
Proof.
  pose proof (cursor_in_source s ch Hch).
  apply emitFrom_Emits; try done; try lia. apply scanWhile_Moved.
Qed.

Lemma scanString_Emits : Emits s (scanString s).
Proof.
  pose proof (cursor_in_source s ch Hch). unfold scanString. cbv zeta.
  apply emitFrom_Emits; try done; try lia.
  eapply Moved_trans; [apply advance_Moved|].
  eapply Moved_trans; [apply scanWhile_Moved|].
  repeat case_match; try apply Moved_refl; apply advance_Moved.
Qed.

Lemma scanNumber_Emits : Emits s (scanNumber s).
Proof.
  pose proof (cursor_in_source s ch Hch). unfold scanNumber.
  destruct (charIs _ _ && (_ || _)) eqn:Hhex.
  - apply emitFrom_Emits; try done; try lia.
    eapply Moved_trans; [apply advance_Moved|].
    eapply Moved_trans; [apply advance_Moved|apply scanWhile_Moved].
  - set (s1 := scanWhile isDigitChar s).
    set (s2 := if _ && _ then _ else s1).
    assert (Moved s s2) as Hm.
    { eapply Moved_trans; [apply scanWhile_Moved|]. fold s1. subst s2.
      case_match; [|apply Moved_refl].
      eapply Moved_trans; [apply advance_Moved | apply scanWhile_Moved]. }
    clearbody s2.
    repeat case_match; apply emitFrom_Emits; try done; try lia.
    + eapply Moved_trans; [exact Hm | apply advance_Moved].
    + eapply Moved_trans; [exact Hm | apply iter_advance_Moved].
Qed.

Lemma scanJMessage_Emits : Emits s (scanJMessage s).
Proof.
  pose proof (cursor_in_source s ch Hch). unfold scanJMessage. cbv zeta.
  apply emitFrom_Emits; try done; try lia.
  eapply Moved_trans; [apply advance_Moved|].
  eapply Moved_trans; [apply scanWhile_Moved|].
  case_match; [|apply Moved_refl].
  eapply Moved_trans; [apply advance_Moved | apply scanWhile_Moved].
Qed.

Lemma scanIdentifier_Emits : Emits s (scanIdentifier s).
Proof.
  pose proof (cursor_in_source s ch Hch). unfold scanIdentifier. cbv zeta.
  repeat case_match; apply emitFrom_Emits; try done; try lia;
    apply scanWhile_Moved.
Qed.

Lemma emitSingle_Emits type : type <> TEOF -> Emits s (emitSingle s ch type).
Proof.
  intros. pose proof (cursor_in_source s ch Hch).
  apply emitChars_Emits; try done; try lia. by apply slice_one.
Qed.

Lemma emitUnknown_Emits : Emits s (emitChars s 1 TUnknown (String ch EmptyString)).
Proof. by apply (emitSingle_Emits TUnknown). Qed.

Lemma scanOperator_Emits : Emits s (scanOperator s ch).
Proof.
  pose proof (cursor_in_source s ch Hch) as Hin. unfold scanOperator.
  repeat case_match; try (by apply emitSingle_Emits);
    try apply emitUnknown_Emits.
  all: match goal with
       | H : Ascii.eqb ch _ && charIs (peek s 1) _ = true |- _ =>
           apply andb_prop in H as [Hc%Ascii.eqb_eq Hn%charIs_Some];
           unfold peek in Hn; pose proof (get_Some_lt _ _ _ Hn);
           rewrite Hc in Hch;
           apply emitChars_Emits; [lia | by apply slice_two | done]
       end.
Qed.

Lemma scanToken_Emits : Emits s (scanToken s).
Proof.
  unfold scanToken. rewrite Hch.
  repeat case_match;
    first [ by apply scanWhitespace_Emits
          | by apply scanComment_Emits
          | by apply scanString_Emits
          | by apply scanNumber_Emits
          | by apply scanJMessage_Emits
          | by apply scanIdentifier_Emits
          | by apply scanOperator_Emits
          | by apply emitSingle_Emits
          | by apply emitUnknown_Emits
          | idtac ].
  match goal with H : Ascii.eqb ch ch_newline = true |- _ =>
    apply Ascii.eqb_eq in H; rewrite H in Hch end.
  pose proof (cursor_in_source s _ Hch).
  apply emitChars_Emits; [lia | by apply slice_one | done].
Qed.

End Scanners.

(* ---- the loop of [tokenize] ---- *)

Lemma scanToken_Lexed s ch :
  String.get (pos s) (source s) = Some ch ->
  Lexed s -> Lexed (scanToken s).
Proof.
  intros Hch (Hpl & Hfa & Hsc & Hco).
  destruct (scanToken_Scanned s ch Hch) as [Hsrc Hlt Hbound _].
  pose proof (scanToken_Emits s ch Hch) as Hem.
  split; [exact (Walked_Placed _ _ (scanToken_Walked s) Hpl)|].
  rewrite Hsrc.
  destruct Hem as [[Htok Hblank] | (t & Htok & Hty & Hspan & Hval)]; rewrite Htok.
  - split; [done|]. split; [done|].
    intros i c Hi Hc Hnb.
    destruct (Nat.lt_ge_cases i (pos s)) as [Hold|Hnew]; [by eapply Hco|].
    destruct (Hblank i ltac:(lia)) as (c' & Hc' & Hb). congruence.
  - split; [|split].
    + apply Forall_app. split; [done|]. constructor; [|constructor].
      exists (pos s), (pos (scanToken s) - pos s)%nat. rewrite Hspan, Hval.
      simpl. split; [done|]. split; [done|]. split; [lia|]. split; [done|].
      exact Hpl.
    + apply Forall_app. split; [done|]. constructor; [|constructor].
      split; [done|]. rewrite Hspan. simpl. lia.
    + intros i c Hi Hc Hnb. apply Exists_app.
      destruct (Nat.lt_ge_cases i (pos s)) as [Hold|Hnew];
        [left; by eapply Hco|].
      right. constructor. unfold covers. rewrite Hspan. simpl. lia.
Qed.

Lemma tokenizeLoop_Lexed fuel : forall s s',
  tokenizeLoop fuel s = Some s' -> Lexed s -> Lexed s'.
Proof.
  induction fuel as [|fuel IH]; intros s s'; simpl.
  - destruct (Nat.ltb_spec (pos s) (String.length (source s))); [done|].
    by intros [= <-].
  - destruct (Nat.ltb_spec (pos s) (String.length (source s))) as [Hlt|Hge];
      [|by intros [= <-]].
    intros Hrun Hs. destruct (get_lt_Some _ _ Hlt) as [c Hc].
    exact (IH _ _ Hrun (scanToken_Lexed s c Hc Hs)).
Qed.

(** [tokenize] on a source: the tokens of the scanner, then the
    end-of-input token at the end of the source. *)
Lemma tokenize_Lexed (src : string) (fuel : nat) :
  (String.length src <= fuel)%nat ->
  exists front eof,
    tokenize fuel src = Some (front ++ [eof])
    /\ tk_type eof = TEOF
    /\ Faithful src eof
    /\ sp_offset (tk_span eof) = Z.of_nat (String.length src)
    /\ sp_length (tk_span eof) = 0
    /\ Forall (Faithful src) front
    /\ Forall Scannable front
    /\ Covered src front (String.length src)
    /\ Ordered 0 (front ++ [eof]) (Z.of_nat (String.length src)).
Proof.
  intros Hfuel. unfold tokenize.
  destruct (tokenizeLoop_ends fuel (mkState src 0 1 1 []))
    as (s' & Hrun & [Hb Hord Hcount Hty] & Hsrc & Hpos); simpl in *.
  - lia.
  - split; simpl; try done; lia.
  - destruct (tokenizeLoop_Lexed fuel _ _ Hrun) as (Hpl & Hfa & Hsc & Hco).
    { split; [|split; [constructor|split; [constructor|]]].
      - split; [done|]. exists 0%nat. simpl. split; [|done].
        split; [lia|]. split; [lia|by left].
      - intros i c Hi. simpl in Hi. lia. }
    rewrite Hsrc in *. rewrite Hrun. simpl.
    exists (tokens s'), (makeToken s' TEOF EmptyString 0).
    split; [done|]. split; [done|]. split.
    { exists (pos s'), 0%nat. simpl. rewrite substring_none.
      split; [done|]. split; [done|]. split; [lia|]. split; [done|].
      unfold Placed in Hpl. by rewrite Hsrc in Hpl. }
    simpl. rewrite Hpos in *. repeat split; try done.
    eapply Ordered_raise; [|apply (Ordered_snoc _ _ _ _ Hord)]; simpl; lia.
Qed.

End LexerOutputFacts.

Module LexerOutputClaims.
Import Lexer LexerSpec LexerOutput LexerOutputFacts.

(** Every token of [tokenize] holds in [value] the characters of the
    source that its span covers: the span is within the source, its length
    is the length of [value], and [value] is the slice of the source at the
    span (the empty slice at the end of the source for the end-of-input
    token). *)
Theorem token_values_are_source_slices (src : string) (fuel : nat) :
  (String.length src <= fuel)%nat ->
  exists toks,
    tokenize fuel src = Some toks
    /\ Forall (fun t => exists a n : nat,
                 sp_offset (tk_span t) = Z.of_nat a
                 /\ sp_length (tk_span t) = Z.of_nat n
                 /\ (a + n <= String.length src)%nat
                 /\ tk_value t = String.substring a n src) toks.
Proof.
  intros Hfuel.
  destruct (tokenize_Lexed src fuel Hfuel)
    as (front & eof & Hrun & _ & Heof & _ & _ & Hfa & _).
  exists (front ++ [eof]). split; [done|].
  assert (Forall (Faithful src) (front ++ [eof])) as H.
  { apply Forall_app. split; [done|]. by constructor. }
  eapply Forall_impl; [exact H|].
  intros t (a & n & ? & ? & ? & ? & _). by exists a, n.
Qed.

Lemma token_values_are_source_slices_witness :
  exists toks,
    tokenize 4 "5s-x" = Some toks
    /\ Forall (fun t => exists a n : nat,
                 sp_offset (tk_span t) = Z.of_nat a
                 /\ sp_length (tk_span t) = Z.of_nat n
                 /\ (a + n <= String.length "5s-x")%nat
                 /\ tk_value t = String.substring a n "5s-x") toks.
Proof. apply (token_values_are_source_slices "5s-x" 4). simpl. lia. Defined.

(** Every token of [tokenize] carries the line and the column of its
    offset: the line is one more than the number of newlines before the
    offset, and the column is one more than the distance from the start of
    that line. *)
Theorem token_lines_and_columns (src : string) (fuel : nat) :
  (String.length src <= fuel)%nat ->
  exists toks,
    tokenize fuel src = Some toks
    /\ Forall (fun t => exists a : nat,
                 sp_offset (tk_span t) = Z.of_nat a
                 /\ PlacedAt src a (sp_line (tk_span t)) (sp_column (tk_span t)))
              toks.
Proof.
  intros Hfuel.
  destruct (tokenize_Lexed src fuel Hfuel)
    as (front & eof & Hrun & _ & Heof & _ & _ & Hfa & _).
  exists (front ++ [eof]). split; [done|].
  assert (Forall (Faithful src) (front ++ [eof])) as H.
  { apply Forall_app. split; [done|]. by constructor. }
  eapply Forall_impl; [exact H|].
  intros t (a & n & ? & ? & ? & ? & ?). by exists a.
Qed.

Lemma token_lines_and_columns_witness :
  exists toks,
    tokenize 4 "5s-x" = Some toks
    /\ Forall (fun t => exists a : nat,
                 sp_offset (tk_span t) = Z.of_nat a
                 /\ PlacedAt "5s-x" a (sp_line (tk_span t)) (sp_column (tk_span t)))
              toks.
Proof. apply (token_lines_and_columns "5s-x" 4). simpl. lia. Defined.

(** The lexer drops nothing but blanks: every character of the source
    that is no space, tab or carriage return is inside the span of a token
    of [tokenize]. *)
Theorem tokens_cover_all_but_blanks (src : string) (fuel : nat) :
  (String.length src <= fuel)%nat ->
  exists toks,
    tokenize fuel src = Some toks
    /\ forall (i : nat) (c : ascii),
         String.get i src = Some c -> isBlank c = false ->
         Exists (fun t => covers t i) toks.
Proof.
  intros Hfuel.
  destruct (tokenize_Lexed src fuel Hfuel)
    as (front & eof & Hrun & _ & _ & _ & _ & _ & _ & Hco & _).
  exists (front ++ [eof]). split; [done|].
  intros i c Hc Hnb. apply Exists_app. left.
  apply (Hco i c); try done. by eapply StringFacts.get_Some_lt.
Qed.

Lemma tokens_cover_all_but_blanks_witness :
  exists toks,
    tokenize 4 "5s-x" = Some toks
    /\ forall (i : nat) (c : ascii),
         String.get i "5s-x" = Some c -> isBlank c = false ->
         Exists (fun t => covers t i) toks.
Proof. apply (tokens_cover_all_but_blanks "5s-x" 4). simpl. lia. Defined.

(** The tokens of [tokenize] are in source order and do not overlap: each
    starts at or after the end of the one before it. The last one is the
    end-of-input token, of length 0 at the end of the source; every token
    before it is of another type and at least one character long. *)
Theorem tokens_in_source_order_then_eof (src : string) (fuel : nat) :
  (String.length src <= fuel)%nat ->
  exists front eof,
    tokenize fuel src = Some (front ++ [eof])
    /\ Ordered 0 (front ++ [eof]) (Z.of_nat (String.length src))
    /\ Forall Scannable front
    /\ tk_type eof = TEOF
    /\ sp_offset (tk_span eof) = Z.of_nat (String.length src)
    /\ sp_length (tk_span eof) = 0.
Proof.
  intros Hfuel.
  destruct (tokenize_Lexed src fuel Hfuel)
    as (front & eof & Hrun & Hty & _ & Hoff & Hlen & _ & Hsc & _ & Hord).
  by exists front, eof.
Qed.

Lemma tokens_in_source_order_then_eof_witness :
  exists front eof,
    tokenize 4 "5s-x" = Some (front ++ [eof])
    /\ Ordered 0 (front ++ [eof]) (Z.of_nat (String.length "5s-x"))
    /\ Forall Scannable front
    /\ tk_type eof = TEOF
    /\ sp_offset (tk_span eof) = Z.of_nat (String.length "5s-x")
    /\ sp_length (tk_span eof) = 0.
Proof. apply (tokens_in_source_order_then_eof "5s-x" 4). simpl. lia. Defined.

End LexerOutputClaims.

Module RecoveryFacts.
Import Parser SpanBounds LexerSpec LexerFacts ParserFacts Recovery.

Lemma check_type type s :
  check type None s = bool_decide (tk_type (current s) = type).
Proof. unfold check. by case_bool_decide. Qed.

Lemma check_keyword v s :
  check TKeyword (Some v) s
  = bool_decide (tk_type (current s) = TKeyword) && String.eqb (tk_value (current s)) v.
Proof. unfold check. by case_bool_decide. Qed.

Lemma atSyncKeyword_current s : atSyncKeyword s = syncKeyword (current s).
Proof.
  unfold atSyncKeyword, syncKeyword. rewrite !check_keyword.
  destruct (bool_decide _); simpl; [done|]. done.
Qed.

Lemma while_exit {A : Type} fuel cond (body : A -> P A) : forall a s a' s',
  while fuel cond body a s = Some (a', s') -> cond s' = false.
Proof.
  induction fuel as [|fuel IH]; intros a s a' s'; simpl.
  - destruct (cond s) eqn:E; [done|]. by intros [= <- <-].
  - destruct (cond s) eqn:E; [|by intros [= <- <-]].
    destruct (body a s) as [[a1 s1]|]; [|done]. apply IH.
Qed.

(** [synchronize], from a cursor on a token list that ends with the
    end-of-input token, returns with fuel for the tokens that remain. It
    pushes no diagnostic and leaves the cursor on the end-of-input token, on
    a keyword that starts a declaration ([network], [terminal], [net],
    [subnetwork], [messages], [filters]) or just after a closing brace, the
    first of these that it meets: the tokens it passed over are none of
    them. *)
Theorem synchronize_resumes (toks front : list Token) (eof : Token) fuel : forall s,
  toks = front ++ [eof] -> tk_type eof = TEOF ->
  tokens s = toks -> (pos s < List.length toks)%nat ->
  (List.length toks - pos s <= fuel)%nat ->
  exists s', synchronize fuel s = Some (tt, s')
             /\ tokens s' = tokens s /\ diagnostics s' = diagnostics s
             /\ comments s' = comments s
             /\ (pos s' < List.length toks)%nat
             /\ Resumes toks (pos s) (pos s').
Proof.
  intros s Heq Heof. revert s.
  assert (forall s, tokens s = toks -> (pos s < List.length toks)%nat ->
            isAtEnd s = false -> (S (pos s) < List.length toks)%nat) as Hroom.
  { intros s Ht Hp He. unfold isAtEnd, current in He. rewrite Ht, Heq in *.
    rewrite length_app in *. simpl in *.
    destruct (decide (pos s = List.length front)) as [E|E]; [|lia].
    rewrite E, list_lookup_middle in He by done. simpl in He.
    by rewrite bool_decide_eq_false in He. }
  assert (forall s, tokens s = toks -> (pos s < List.length toks)%nat ->
            toks !! pos s = Some (current s)) as Hcur.
  { intros s Ht Hp. unfold current. rewrite Ht.
    by destruct (lookup_lt_is_Some_2 toks (pos s) Hp) as [t ->]. }
  induction fuel as [|fuel IH]; intros s Ht Hp Hfuel; [lia|]. simpl.
  destruct (isAtEnd s) eqn:He.
  { exists s. repeat split; try done. left. exists (current s).
    split; [by apply Hcur|]. split.
    - left. unfold isAtEnd in He. by apply bool_decide_eq_true in He.
    - intros i t Hi. lia. }
  pose proof (Hroom s Ht Hp He) as Hr.
  destruct (check TRBrace None s) eqn:Hb.
  { unfold mbind, P_bind, advance. rewrite He. simpl.
    eexists. split; [reflexivity|]. simpl. repeat split; try done.
    right. exists (current s). replace (S (pos s) - 1)%nat with (pos s) by lia.
    split; [lia|]. split; [by apply Hcur|]. split.
    - rewrite check_type in Hb. by apply bool_decide_eq_true in Hb.
    - intros i t Hi. lia. }
  destruct (atSyncKeyword s) eqn:Hk.
  { exists s. repeat split; try done. left. exists (current s).
    split; [by apply Hcur|]. split.
    - right. by rewrite <- atSyncKeyword_current.
    - intros i t Hi. lia. }
  unfold mbind, P_bind, advance. rewrite He.
  set (s1 := mkState (tokens s) (S (pos s)) (diagnostics s) (comments s)
               (S (advanceCalls s))).
  destruct (IH s1 Ht ltac:(simpl; lia) ltac:(simpl; lia))
    as (s' & Hrun & Ht' & Hd' & Hc' & Hp' & Hres).
  exists s'. split; [done|]. simpl in *. do 4 (split; [done|]).
  assert (forall upto, Skipped toks (pos s1) upto -> Skipped toks (pos s) upto)
    as Hskip.
  { intros upto Hsk i t Hi Hit.
    destruct (decide (i = pos s)) as [->|Hne];
      [|apply (Hsk i t); simpl; [lia|done]].
    rewrite (Hcur s Ht Hp) in Hit. injection Hit as <-.
    split; [|split].
    - unfold isAtEnd in He. by apply bool_decide_eq_false in He.
    - rewrite check_type in Hb. by apply bool_decide_eq_false in Hb.
    - by rewrite <- atSyncKeyword_current. }
  destruct Hres as [(t & Hlk & Hstop & Hsk) | (t & Hlt & Hlk & Hty & Hsk)].
  - left. exists t. split; [done|]. split; [done|]. by apply Hskip.
  - right. exists t. simpl in Hlt. split; [lia|]. split; [done|].
    split; [done|]. by apply Hskip.
Qed.

(** The result of [parse] on the token list: the loop has reached the end
    of the input, and the span of the document is merged from the spans of
    the first and of the last token under the cursor. *)
Lemma parseDocument_result jsNumber jsParseFloat fuel s r s' :
  parseDocument jsNumber jsParseFloat fuel s = Some (r, s') ->
  isAtEnd s' = true
  /\ d_span (pr_ast r) = mergeSpans (currentSpan s) (currentSpan s').
Proof.
  unfold parseDocument. rewrite bind_gets. unfold mbind at 1, P_bind at 1.
  match goal with |- context [while ?f ?c ?b ?a s] =>
    destruct (while f c b a s) as [[nets s1]|] eqn:E; [|done] end.
  rewrite !bind_gets. intros [= <- <-]. split; [|done].
  apply while_exit in E. by apply negb_false_iff in E.
Qed.

Lemma synchronize_resumes_witness :
  exists s',
    synchronize 3 (mkState [mkToken TIdentifier "x" (mkSpan 1 1 0 1);
                            mkToken TRBrace "}" (mkSpan 1 3 2 1);
                            mkToken TEOF EmptyString (mkSpan 1 4 3 0)] 0 [] [] 0)
    = Some (tt, s')
    /\ tokens s' = [mkToken TIdentifier "x" (mkSpan 1 1 0 1);
                    mkToken TRBrace "}" (mkSpan 1 3 2 1);
                    mkToken TEOF EmptyString (mkSpan 1 4 3 0)]
    /\ diagnostics s' = [] /\ comments s' = []
    /\ (pos s' < 3)%nat
    /\ Resumes [mkToken TIdentifier "x" (mkSpan 1 1 0 1);
                mkToken TRBrace "}" (mkSpan 1 3 2 1);
                mkToken TEOF EmptyString (mkSpan 1 4 3 0)] 0 (pos s').
Proof.
  apply (synchronize_resumes
           [mkToken TIdentifier "x" (mkSpan 1 1 0 1);
            mkToken TRBrace "}" (mkSpan 1 3 2 1);
            mkToken TEOF EmptyString (mkSpan 1 4 3 0)]
           [mkToken TIdentifier "x" (mkSpan 1 1 0 1);
            mkToken TRBrace "}" (mkSpan 1 3 2 1)]
           (mkToken TEOF EmptyString (mkSpan 1 4 3 0)) 3
           (mkState [mkToken TIdentifier "x" (mkSpan 1 1 0 1);
                     mkToken TRBrace "}" (mkSpan 1 3 2 1);
                     mkToken TEOF EmptyString (mkSpan 1 4 3 0)] 0 [] [] 0));
    simpl; first [reflexivity | lia].
Defined.

Lemma eof_is_last (front : list Token) (eof t : Token) (i : nat) :
  Forall (fun t => tk_type t <> TEOF) front ->
  (front ++ [eof]) !! i = Some t -> tk_type t = TEOF -> t = eof.
Proof.
  intros Hfront Hi Ht. apply lookup_app_Some in Hi as [Hi | [_ Hi]].
  - by destruct (Forall_lookup_1 _ _ _ _ Hfront Hi).
  - apply list_lookup_singleton_Some in Hi as [_ ->]. done.
Qed.

End RecoveryFacts.

Module DocumentSpanClaims.
Import Parser SpanBounds LexerSpec LexerFacts ParserFacts EngineFacts.
Import LexerOutput LexerOutputFacts RecoveryFacts.

(** The span of the document that [parse] returns starts at the first
    significant token of the source, with its line and column, and ends at
    the end of the source: blanks, newlines and comments before the first
    token are outside it, and for a source without a significant token it
    is the empty span at the end of the source. *)
Theorem document_span_runs_to_end_of_source
    (jsNumber jsParseFloat : string -> float) (src : string) (fuel : nat) :
  (S (String.length src) <= fuel)%nat ->
  exists toks first r,
    Lexer.lexSignificant fuel src = Some toks
    /\ head toks = Some first
    /\ parse jsNumber jsParseFloat fuel src = Some r
    /\ d_span (pr_ast r)
       = mkSpan (sp_line (tk_span first)) (sp_column (tk_span first))
                (sp_offset (tk_span first))
                (Z.of_nat (String.length src) - sp_offset (tk_span first)).
Proof.
  intros Hfuel.
  destruct (tokenize_Lexed src fuel)
    as (front & eof & Hlex & Heof & _ & Hoff & Hlen & _ & Hsc & _ & Hord); [lia|].
  set (toks := List.filter Lexer.isSignificant (front ++ [eof])).
  assert (toks = List.filter Lexer.isSignificant front ++ [eof]) as Heq.
  { unfold toks. rewrite List.filter_app. simpl. by rewrite isSignificant_eof. }
  assert (Forall (fun t => tk_type t <> TEOF)
                 (List.filter Lexer.isSignificant front)) as Hfront.
  { apply Forall_forall. intros t Ht%list_elem_of_In%filter_In.
    destruct Ht as [Ht%list_elem_of_In _].
    rewrite Forall_forall in Hsc. by destruct (Hsc t Ht). }
  pose proof (List.filter_length_le Lexer.isSignificant front) as Hfl.
  assert (List.length front <= String.length src)%nat as Hcount.
  { destruct (tokenize_returns src fuel) as (f & e & Hlex' & _ & _ & Hc & _); [lia|].
    rewrite Hlex in Hlex'. injection Hlex' as Hfe.
    apply app_inj_tail in Hfe as [-> _]. done. }
  assert (ParserSpec.OnToken toks (initState (front ++ [eof]))) as Hon.
  { split; [done|]. simpl. rewrite Heq, length_app. simpl. lia. }
  destruct (parseDocument_ran toks (Z.of_nat (String.length src))
              (ex_intro _ _ (ex_intro _ eof (conj Heq Heof)))
              (Ordered_filter _ _ _ _ Hord)
              jsNumber jsParseFloat fuel (initState (front ++ [eof])))
    as (r & s' & Hrun & Hstep & _).
  - done.
  - unfold ParserSpec.remaining. simpl. rewrite Heq, length_app. simpl. lia.
  - destruct (parseDocument_result _ _ _ _ _ _ Hrun) as [Hend Hspan].
    destruct Hstep as [_ Hon' _ _ _].
    pose proof (current_lookup toks _ Hon) as Hfirst.
    pose proof (current_lookup toks _ Hon') as Hlast.
    assert (current s' = eof) as Hcur.
    { rewrite Heq in Hlast. apply (eof_is_last _ _ _ _ Hfront Hlast).
      unfold isAtEnd in Hend. by apply bool_decide_eq_true in Hend. }
    exists toks, (current (initState (front ++ [eof]))), r.
    split. { unfold Lexer.lexSignificant. by rewrite Hlex. }
    split. { simpl in Hfirst. by rewrite <- head_lookup in Hfirst. }
    split. { unfold parse, parseState, Lexer.lexWithTrivia.
             rewrite Hlex. simpl. by rewrite Hrun. }
    rewrite Hspan. unfold mergeSpans, currentSpan. rewrite Hcur, Hoff, Hlen.
    f_equal. lia.
Qed.

Lemma document_span_runs_to_end_of_source_witness :
  exists toks first r,
    Lexer.lexSignificant 40 LexerExamples.jmessageProperty = Some toks
    /\ head toks = Some first
    /\ parse Conversions.decimalValue Conversions.decimalValue 40
         LexerExamples.jmessageProperty = Some r
    /\ d_span (pr_ast r)
       = mkSpan (sp_line (tk_span first)) (sp_column (tk_span first))
                (sp_offset (tk_span first))
                (Z.of_nat (String.length LexerExamples.jmessageProperty)
                 - sp_offset (tk_span first)).
Proof.
  apply (document_span_runs_to_end_of_source
           Conversions.decimalValue Conversions.decimalValue
           LexerExamples.jmessageProperty 40).
  vm_compute. lia.
Defined.

End DocumentSpanClaims.

Module RuleReportFacts.
Import Validator ValidatorOutput ValidatorFacts DiagnosticShape DiagnosticShapeFacts.
Import RuleReports.

Lemma filter_other_rule rules r l :
  Forall (Shaped (fun _ => True) rules) l -> ~ In r rules ->
  List.filter (hasRule r) l = [].
Proof.
  intros Hl Hr. induction Hl as [|d l (_ & (r' & Hd & Hin) & _) _ IH]; [done|].
  simpl. unfold hasRule at 1. rewrite Hd.
  case_bool_decide as E; [|done]. injection E as ->. done.
Qed.

Lemma filter_same_rule r l :
  Forall (fun d => dg_rule d = Some r) l -> List.filter (hasRule r) l = l.
Proof.
  intros Hl. induction Hl as [|d l Hd _ IH]; [done|].
  simpl. unfold hasRule at 1. rewrite Hd, bool_decide_eq_true_2 by done.
  by rewrite IH.
Qed.

Lemma Forall_flat_map_intro {A B : Type} (Q : B -> Prop) (f : A -> list B) l :
  (forall x, In x l -> Forall Q (f x)) -> Forall Q (flat_map f l).
Proof.
  intros H. induction l as [|x l IH]; simpl; [constructor|].
  apply Forall_app. split; [apply H; by left|]. apply IH. intros y Hy.
  apply H. by right.
Qed.

Lemma Forall_scan {St A : Type} (Q : Diagnostic -> Prop)
    (step : St * list Diagnostic -> A -> St * list Diagnostic) l :
  (forall st x, Forall Q (snd (step (st, []) x))) ->
  forall st, Forall Q (scan step st l).
Proof.
  intros H. induction l as [|x l IH]; intros st; simpl; [constructor|].
  apply Forall_app. split; [apply H|apply IH].
Qed.

Lemma always_properties ps : propertiesOk (fun _ => True) ps.
Proof. apply Forall_always. Qed.

Lemma always_terminal t : terminalOk (fun _ => True) t.
Proof. split; [done|apply Forall_always]. Qed.

Lemma always_net t : netOk (fun _ => True) t.
Proof. split; [done|apply Forall_always]. Qed.

Lemma always_member t : memberOk (fun _ => True) t.
Proof. split; [done|apply Forall_always]. Qed.

Lemma always_entry t : entryOk (fun _ => True) t.
Proof. split; [done|apply Forall_always]. Qed.

Lemma always_subnetwork t : subnetworkOk (fun _ => True) t.
Proof.
  split; [done|]. split; [apply Forall_always|].
  apply Forall_forall. intros m _. apply always_member.
Qed.

Section WithNumberFormat.
Variable numberToString : float -> string.

Local Abbreviation Sh := (Shaped (fun _ => True)).

Ltac other_rule H :=
  apply H; simpl; repeat first [left; reflexivity | right].

(** The passes of a Link 16 network after [ncs-required], and the passes
    that follow every branch, report under other rules. *)
Lemma link16_other_rules n rules :
  (forall r, In r (tail link16Rules) -> In r rules) ->
  Forall (Sh rules)
    (validateTsdfBudget numberToString n []
     ++ flat_map (coverageTerminal n []) (nw_terminals n)
     ++ flat_map (ppliTerminal []) (nw_terminals n)
     ++ flat_map (messageNpgEntry []) (catalogEntries n)
     ++ flat_map (stackingNet numberToString []) (nw_nets n)
     ++ (flat_map (npgRefTerminal []) (nw_terminals n)
         ++ flat_map (npgRefNet []) (nw_nets n))
     ++ flat_map (jmessageRefEntry []) (catalogEntries n)
     ++ flat_map (participantNet n []) (nw_nets n)
     ++ flat_map (terminalProperties numberToString []) (nw_terminals n)
     ++ flat_map (netProperties numberToString []) (nw_nets n)
     ++ validateClassification n []).
Proof.
  intros Hrules.
  assert (forall r, In r (tail link16Rules) -> In r rules) as H by done.
  rewrite !Forall_app. repeat split;
    try (apply Forall_flat_map_intro; intros x _).
  - apply validateTsdfBudget_shaped; [other_rule H|done|constructor].
  - apply coverageTerminal_shaped;
      [other_rule H|apply always_terminal|constructor].
  - apply ppliTerminal_shaped; [other_rule H|apply always_terminal|constructor].
  - apply messageNpgEntry_shaped; [other_rule H|apply always_entry|constructor].
  - apply stackingNet_shaped; [other_rule H|apply always_net|constructor].
  - apply npgRefTerminal_shaped; [other_rule H|apply always_terminal|constructor].
  - apply npgRefNet_shaped; [other_rule H|apply always_net|constructor].
  - apply jmessageRefEntry_shaped; [other_rule H|apply always_entry|constructor].
  - apply participantNet_shaped; [other_rule H|apply always_net|constructor].
  - apply terminalProperties_shaped;
      [other_rule H|other_rule H|other_rule H|other_rule H
      |apply always_terminal|constructor].
  - apply netProperties_shaped;
      [other_rule H|other_rule H|other_rule H|apply always_net|constructor].
  - apply validateClassification_shaped;
      [other_rule H|apply always_properties|constructor].
Qed.

Lemma uniqueness_rules n :
  Forall (Sh uniquenessRules)
    (scan (trackNumberStep numberToString) [] (nw_terminals n)
     ++ scan (netNumberStep numberToString) [] (nw_nets n)).
Proof.
  apply Forall_app. split; apply Forall_scan; intros st x.
  - apply trackNumberStep_shaped; [by left|apply always_terminal|constructor].
  - apply netNumberStep_shaped; [by right; left|apply always_net|constructor].
Qed.

Lemma fold_ncsExtra l d :
  fold_left ncsExtra l d = d ++ map (fun t => ncsRepeated (t_span t)) l.
Proof.
  revert d. induction l as [|t l IH]; intros d; simpl; [by rewrite app_nil_r|].
  rewrite IH. unfold ncsExtra, push. by rewrite <- app_assoc.
Qed.

Lemma ncsRequired_reports n :
  ncsRequired n []
  = match ncsTerminals n with
    | [] => [ncsMissing (nw_span n)]
    | _ :: extra => map (fun t => ncsRepeated (t_span t)) extra
    end.
Proof.
  unfold ncsRequired. cbv zeta.
  destruct (ncsTerminals n) as [|t [|t' extra]]; simpl; try done.
  by rewrite fold_ncsExtra.
Qed.

End WithNumberFormat.

(* ---- the uniqueness rules ---- *)

Lemma numMap_get_None m k :
  numMap_get m k = None -> forall e, In e m -> sameValueZero (fst e) k = false.
Proof.
  unfold numMap_get. destruct (find _ m) as [e0|] eqn:E; [done|].
  intros _ e He. exact (find_none _ _ E e He).
Qed.

Lemma numMap_get_Some m k v :
  numMap_get m k = Some v ->
  exists e, In e m /\ sameValueZero (fst e) k = true /\ snd e = v.
Proof.
  unfold numMap_get. destruct (find _ m) as [e0|] eqn:E; [|done].
  intros [= <-]. apply find_some in E as [? ?]. by exists e0.
Qed.

Section Uniqueness.

(** The loop of a uniqueness rule over declarations with a name and a
    number: [number] reads the number, [step] is the body of the loop. *)
Context {A : Type}.
Variable name : A -> string.
Variable number : A -> option float.
Variable step : NumMap * list Diagnostic -> A -> NumMap * list Diagnostic.

Hypothesis step_none : forall m x,
  number x = None -> step (m, []) x = (m, []).
Hypothesis step_new : forall m x k,
  number x = Some k -> truthy (numMap_get m k) = false ->
  step (m, []) x = (numMap_set m k (name x), []).
Hypothesis step_seen : forall m x k,
  number x = Some k -> truthy (numMap_get m k) = true ->
  snd (step (m, []) x) <> [].

Lemma scan_clashes (l : list A) : forall m,
  Forall (fun x => name x <> EmptyString) l ->
  Forall (fun e => snd e <> EmptyString) m ->
  scan step m l <> [] <-> clashes m (omap number l).
Proof.
  induction l as [|x l IH]; intros m Hl Hm.
  { simpl. split; [done|]. by intros (j & y & Hj & _). }
  apply Forall_cons in Hl as [Hx Hl]. cbn [scan].
  assert (omap number (x :: l)
          = match number x with
            | Some y => y :: omap number l
            | None => omap number l
            end) as -> by reflexivity.
  destruct (number x) as [k|] eqn:Hk.
  2: { rewrite (step_none m x Hk). simpl. by apply IH. }
  destruct (truthy (numMap_get m k)) eqn:Htr.
  - split.
    + intros _. exists 0%nat, k. split; [done|]. left.
      destruct (numMap_get m k) as [v|] eqn:Hg; [|done].
      apply numMap_get_Some in Hg as (e & He & Hs & _). by exists e.
    + intros _ H. apply app_eq_nil in H as [H _].
      by apply (step_seen m x k Hk Htr).
  - assert (forall e, In e m -> sameValueZero (fst e) k = false) as Hno.
    { destruct (numMap_get m k) as [v|] eqn:Hg.
      - apply numMap_get_Some in Hg as (e & He & Hs & Hv).
        rewrite Forall_forall in Hm. apply list_elem_of_In, Hm in He.
        unfold truthy in Htr. subst v.
        destruct (snd e); [done|discriminate Htr].
      - by apply numMap_get_None. }
    rewrite (step_new m x k Hk Htr). simpl.
    rewrite (IH (numMap_set m k (name x)) Hl).
    2: { unfold numMap_set. by constructor. }
    unfold clashes, numMap_set. split.
    + intros (j & y & Hj & [(e & [<-|He] & Hs) | (i & z & Hi & Hz & Hs)]).
      * exists (S j), y. split; [done|]. right. exists 0%nat, k.
        split; [lia|]. by split.
      * exists (S j), y. split; [done|]. left. by exists e.
      * exists (S j), y. split; [done|]. right. exists (S i), z.
        split; [lia|]. by split.
    + intros (j & y & Hj & H). destruct j as [|j].
      { simpl in Hj. injection Hj as <-.
        destruct H as [(e & He & Hs) | (i & z & Hi & _)]; [|lia].
        by rewrite (Hno e He) in Hs. }
      simpl in Hj. exists j, y. split; [done|].
      destruct H as [(e & He & Hs) | (i & z & Hi & Hz & Hs)].
      * left. exists e. split; [by right|done].
      * destruct i as [|i].
        -- simpl in Hz. injection Hz as <-. left. exists (k, name x).
           split; [by left|done].
        -- right. exists i, z. split; [lia|]. by split.
Qed.

Lemma scan_duplicated (l : list A) :
  Forall (fun x => name x <> EmptyString) l ->
  scan step [] l <> [] <-> duplicated (omap number l).
Proof.
  intros Hl. rewrite (scan_clashes l [] Hl) by constructor.
  unfold clashes, duplicated. split.
  - intros (j & y & Hj & [(e & [] & _) | (i & x & Hi & Hx & Hs)]).
    by exists i, j, x, y.
  - intros (i & j & x & y & Hi & Hx & Hy & Hs).
    exists j, y. split; [done|]. right. by exists i, x.
Qed.

End Uniqueness.

Section WithNumberFormat.
Variable numberToString : float -> string.

Lemma truthy_false (o : option string) :
  truthy o = false -> o = None \/ o = Some EmptyString.
Proof. destruct o as [[|a s]|]; simpl; auto. discriminate. Qed.

End WithNumberFormat.

End RuleReportFacts.


Module RuleReportClaims.
Import Validator ValidatorOutput ValidatorFacts DiagnosticShape DiagnosticShapeFacts.
Import RuleReports RuleReportFacts.

(** Rule [ncs-required] on a Link 16 network: with no terminal whose role
    reads [NetControlStation] there is one error, at the span of the
    network; otherwise there is one error for each such terminal after the
    first, at the span of that terminal, so none when there is exactly
    one. No other pass reports under this rule. *)
Theorem ncs_required_reports
    (numberToString : float -> string) (n : NetworkDeclaration) :
  is_str (getPropertyValue (nw_properties n) "link") "Link16" = true ->
  List.filter (hasRule "ncs-required") (validateNetwork numberToString n [])
  = match ncsTerminals n with
    | [] => [ncsMissing (nw_span n)]
    | _ :: extra => map (fun t => ncsRepeated (t_span t)) extra
    end.
Proof.
  intros Hlink. rewrite validateNetwork_output. simpl.
  unfold networkOutput. cbv zeta. rewrite Hlink. unfold link16Output.
  rewrite 2!List.filter_app.
  rewrite (filter_other_rule (tail link16Rules) _ _
             (link16_other_rules numberToString n _ (fun r H => H))).
  2: { simpl. intuition discriminate. }
  rewrite (filter_other_rule uniquenessRules _ _
             (uniqueness_rules numberToString n)).
  2: { simpl. intuition discriminate. }
  rewrite !app_nil_r, ncsRequired_reports.
  apply filter_same_rule.
  destruct (ncsTerminals n) as [|t extra]; [by constructor|].
  apply Forall_forall. intros d Hd%list_elem_of_In%in_map_iff.
  by destruct Hd as (x & <- & _).
Qed.

Lemma ncs_required_reports_witness :
  List.filter (hasRule "ncs-required")
    (validateNetwork Conversions.showIntegral twoStations [])
  = match ncsTerminals twoStations with
    | [] => [ncsMissing (nw_span twoStations)]
    | _ :: extra => map (fun t => ncsRepeated (t_span t)) extra
    end.
Proof.
  apply (ncs_required_reports Conversions.showIntegral twoStations).
  reflexivity.
Defined.

(** Rule [track-number-uniqueness], for terminals with non-empty names:
    the pass reports a duplicate exactly when two terminals have track
    numbers that are the same key of a [Map] (the same number, [+0] and
    [-0] alike). The track number of a terminal is the number of its first
    [track_number] property. *)
Theorem track_number_uniqueness_finds_duplicates
    (numberToString : float -> string) (n : NetworkDeclaration) :
  Forall (fun t => t_name t <> EmptyString) (nw_terminals n) ->
  validateTrackNumberUniqueness numberToString n [] <> []
  <-> duplicated (trackNumbers n).
Proof.
  intros Hn. unfold validateTrackNumberUniqueness.
  rewrite (fold_left_scan _ _ (trackNumberStep_push numberToString)). simpl.
  apply (scan_duplicated t_name
           (fun t => numberOf "track_number" (t_properties t))); [| | |done].
  - intros m x. unfold numberOf, trackNumberStep.
    repeat case_match; try done.
  - intros m x k. unfold numberOf, trackNumberStep.
    repeat case_match; try done; intros [= ->] Ht; congruence.
  - intros m x k. unfold numberOf, trackNumberStep.
    repeat case_match; try done; intros [= ->] Ht; simpl; try congruence.
Qed.

Lemma track_number_uniqueness_finds_duplicates_witness :
  validateTrackNumberUniqueness Conversions.showIntegral twoStations [] <> []
  <-> duplicated (trackNumbers twoStations).
Proof.
  apply (track_number_uniqueness_finds_duplicates
           Conversions.showIntegral twoStations).
  repeat constructor; discriminate.
Defined.

(** Rule [net-number-uniqueness], for nets with non-empty names: the pass
    reports a duplicate exactly when two nets have net numbers that are the
    same key of a [Map]. The net number of a net is the number of its first
    [net_number] property. *)
Theorem net_number_uniqueness_finds_duplicates
    (numberToString : float -> string) (n : NetworkDeclaration) :
  Forall (fun t => n_name t <> EmptyString) (nw_nets n) ->
  validateNetNumberUniqueness numberToString n [] <> []
  <-> duplicated (netNumbers n).
Proof.
  intros Hn. unfold validateNetNumberUniqueness.
  rewrite (fold_left_scan _ _ (netNumberStep_push numberToString)). simpl.
  apply (scan_duplicated n_name
           (fun t => numberOf "net_number" (n_properties t))); [| | |done].
  - intros m x. unfold numberOf, netNumberStep.
    repeat case_match; try done.
  - intros m x k. unfold numberOf, netNumberStep.
    repeat case_match; try done; intros [= ->] Ht; congruence.
  - intros m x k. unfold numberOf, netNumberStep.
    repeat case_match; try done; intros [= ->] Ht; simpl; try congruence.
Qed.

Lemma net_number_uniqueness_finds_duplicates_witness :
  validateNetNumberUniqueness Conversions.showIntegral twoStations [] <> []
  <-> duplicated (netNumbers twoStations).
Proof.
  apply (net_number_uniqueness_finds_duplicates
           Conversions.showIntegral twoStations).
  repeat constructor; discriminate.
Defined.

(** Rule [valid-link-type]: a network whose [link] value reads as a
    non-empty text other than [Link16] and [Link22] gets one error, at the
    span of its first [link] property; a network whose link is [Link16] or
    [Link22], is the empty string, is no identifier or string, or is
    missing gets none. *)
Theorem valid_link_type_reports
    (numberToString : float -> string) (n : NetworkDeclaration) :
  List.filter (hasRule "valid-link-type") (validateNetwork numberToString n [])
  = match getPropertyValue (nw_properties n) "link",
          findProp (nw_properties n) "link" with
    | Some v, Some p =>
        if String.eqb v "Link16" || String.eqb v "Link22" || String.eqb v ""
        then []
        else [mkDiag ("Unknown link type '" +:+ v +:+
                      "'. Expected 'Link16' or 'Link22'.")
                     SevError (p_span p) (Some "valid-link-type") None]
    | _, _ => []
    end.
Proof.
  rewrite validateNetwork_output. simpl. unfold networkOutput. cbv zeta.
  rewrite List.filter_app.
  rewrite (filter_other_rule uniquenessRules _ _
             (uniqueness_rules numberToString n)).
  2: { simpl. intuition discriminate. }
  rewrite !app_nil_r.
  destruct (getPropertyValue (nw_properties n) "link") as [v|] eqn:Hv; simpl.
  2: { by unfold unknownLinkType. }
  destruct (String.eqb v "Link16") eqn:E16; simpl.
  { assert (Forall (Shaped (fun _ => True) link16Rules)
                   (link16Output numberToString n)) as H.
    { rewrite <- (app_nil_l (link16Output _ _)),
        <- validateLink16Network_output.
      apply validateLink16Network_shaped;
        [done|apply networkOk_always|constructor]. }
    rewrite (filter_other_rule _ _ _ H); [by destruct (findProp _ _)|].
    simpl. intuition discriminate. }
  destruct (String.eqb v "Link22") eqn:E22; simpl.
  { assert (Forall (Shaped (fun _ => True) link22Rules) (link22Output n)) as H.
    { rewrite <- (app_nil_l (link22Output _)), <- validateLink22Network_output.
      apply validateLink22Network_shaped;
        [done|apply networkOk_always|constructor]. }
    rewrite (filter_other_rule _ _ _ H); [by destruct (findProp _ _)|].
    simpl. intuition discriminate. }
  unfold unknownLinkType, truthy. simpl.
  destruct v as [|a v]; simpl; [by destruct (findProp _ _)|].
  by destruct (findProp _ _).
Qed.

End RuleReportClaims.

Module PropertyFormFacts.
Import Parser ParserFacts PropertyForms.

Lemma advance_at s t :
  tokens s !! pos s = Some t -> tk_type t <> TEOF ->
  advance s = Some (t, mkState (tokens s) (S (pos s)) (diagnostics s)
                         (comments s) (S (advanceCalls s))).
Proof.
  intros Ht Hty. unfold advance, isAtEnd, current. rewrite Ht. simpl.
  by rewrite bool_decide_eq_false_2.
Qed.

Lemma current_at s t : tokens s !! pos s = Some t -> current s = t.
Proof. intros Ht. unfold current. by rewrite Ht. Qed.

Lemma current_none s : tokens s !! pos s = None -> current s = eofToken.
Proof. intros Ht. unfold current. by rewrite Ht. Qed.

Lemma simpleValue_run jsNumber jsParseFloat fuel s v pv :
  tokens s !! pos s = Some v ->
  simpleValue jsNumber jsParseFloat v = Some pv ->
  parsePropertyValue jsNumber jsParseFloat fuel s
  = Some (Some pv, mkState (tokens s) (S (pos s)) (diagnostics s)
                     (comments s) (S (advanceCalls s))).
Proof.
  intros Hv Hpv. unfold parsePropertyValue. rewrite bind_gets.
  rewrite (current_at s v Hv). unfold simpleValue in Hpv.
  destruct (tk_type v) eqn:Hty; try discriminate Hpv;
    injection Hpv as <-;
    rewrite (bind_run _ _ _ _ _ (advance_at s v Hv ltac:(congruence)));
    reflexivity.
Qed.

End PropertyFormFacts.

Module PropertyFormClaims.
Import Parser ParserFacts PropertyForms PropertyFormFacts.

(** A property assignment [key : value] whose value is one token, a
    string, number, percentage, duration, boolean, hex number, identifier
    or keyword, gives a Property node with the key's text and the token's
    value and pushes no diagnostic. A comma after the value is consumed
    with it, and the span of the node runs from the key to the last token
    consumed, the comma included. *)
Theorem assignment_of_simple_value
    (jsNumber jsParseFloat : string -> float) (fuel : nat) (s : State)
    (key colon value : Token) (pv : PropertyValue) :
  tokens s !! pos s = Some key ->
  tokens s !! S (pos s) = Some colon ->
  tokens s !! S (S (pos s)) = Some value ->
  tk_type key <> TEOF ->
  tk_type colon = TColon ->
  simpleValue jsNumber jsParseFloat value = Some pv ->
  parsePropertyAssignment jsNumber jsParseFloat fuel s
  = Some (Some (mkProperty (tk_value key) pv
                  (mergeSpans (tk_span key)
                     (tk_span (default value (trailingComma s))))),
          afterAssignment s).
Proof.
  intros Hkey Hcolon Hval Hty Hc Hpv.
  set (s1 := mkState (tokens s) (S (pos s)) (diagnostics s) (comments s)
               (S (advanceCalls s))).
  set (s2 := mkState (tokens s) (S (S (pos s))) (diagnostics s) (comments s)
               (S (S (advanceCalls s)))).
  assert (expectToken TColon s1 = Some (true, s2)) as Hexp.
  { unfold expectToken. rewrite bind_gets.
    assert (check TColon None s1 = true) as ->.
    { unfold check. rewrite (current_at s1 colon Hcolon), Hc. done. }
    rewrite (bind_run _ _ _ _ _ (advance_at s1 colon Hcolon ltac:(congruence))).
    done. }
  assert (tk_type value <> TEOF) as Hvty.
  { intros E. unfold simpleValue in Hpv. by rewrite E in Hpv. }
  unfold parsePropertyAssignment. rewrite !bind_gets.
  rewrite (bind_run _ _ _ _ _ (advance_at s key Hkey Hty)). cbv beta.
  fold s1. rewrite (bind_run _ _ _ _ _ Hexp). cbv beta. cbn [negb]. cbv iota.
  rewrite (bind_run _ _ _ _ _
             (simpleValue_run jsNumber jsParseFloat fuel s2 value pv Hval Hpv)).
  cbv beta iota. rewrite bind_gets.
  match goal with |- context [check TComma None ?x] => set (s3 := x) end.
  unfold currentValue, currentSpan. rewrite (current_at s key Hkey).
  unfold afterAssignment, trailingComma.
  destruct (tokens s !! S (S (S (pos s)))) as [c|] eqn:Hnext.
  - unfold check at 1. rewrite (current_at s3 c Hnext).
    destruct (bool_decide (tk_type c = TComma)) eqn:Hcomma; simpl negb; cbv iota.
    + apply bool_decide_eq_true in Hcomma.
      assert (advance s3 = Some (c, mkState (tokens s) (S (S (S (S (pos s)))))
                                      (diagnostics s) (comments s)
                                      (S (S (S (S (advanceCalls s))))))) as Hadv.
      { apply (advance_at s3 c Hnext). congruence. }
      rewrite bind_assoc, (bind_run _ _ _ _ _ Hadv). cbv beta.
      rewrite bind_ret, bind_gets. unfold mret, P_ret, prevSpan. simpl.
      replace (pos s - 0)%nat with (pos s) by lia. rewrite Hnext. simpl.
      subst s3. simpl. repeat (f_equal; try lia).
    + rewrite bind_ret, bind_gets. unfold mret, P_ret, prevSpan. simpl.
      replace (pos s - 0)%nat with (pos s) by lia. rewrite Hval. simpl.
      subst s3. simpl. repeat (f_equal; try lia).
  - unfold check at 1. rewrite (current_none s3 Hnext). simpl.
    rewrite bind_ret, bind_gets. unfold mret, P_ret, prevSpan. simpl.
    replace (pos s - 0)%nat with (pos s) by lia. rewrite Hval. simpl.
    subst s3. simpl. repeat (f_equal; try lia).
Qed.

Lemma assignment_of_simple_value_witness :
  parsePropertyAssignment Conversions.decimalValue Conversions.decimalValue 8
    (mkState percentTokens 0 [] [] 0)
  = Some (Some (mkProperty "tsdf" (PVPercent (Conversions.decimalValue "25%"))
                  (mergeSpans (mkSpan 1 1 0 4)
                     (tk_span (default (mkToken TPercent "25%" (mkSpan 1 7 6 3))
                                 (trailingComma (mkState percentTokens 0 [] [] 0)))))),
          afterAssignment (mkState percentTokens 0 [] [] 0)).
Proof.
  apply (assignment_of_simple_value
           Conversions.decimalValue Conversions.decimalValue 8
           (mkState percentTokens 0 [] [] 0)
           (mkToken TIdentifier "tsdf" (mkSpan 1 1 0 4))
           (mkToken TColon ":" (mkSpan 1 5 4 1))
           (mkToken TPercent "25%" (mkSpan 1 7 6 3))
           (PVPercent (Conversions.decimalValue "25%")));
    simpl; reflexivity || discriminate.
Defined.

End PropertyFormClaims.

Module LexerTriviaFacts.
Import Lexer LexerSpec StringFacts LexerFacts LexerOutput LexerOutputFacts.
Import LexerTrivia.

(* ---- characters ---- *)

Lemma plain_Inner type c : plain c -> Inner type c.
Proof. intros [Hn Hb]. split; [done|]. by rewrite Hb. Qed.

(** A class of characters without the newline and the three blanks. *)
Lemma plain_of (p : ascii -> bool) :
  p ch_newline = false -> p " "%char = false ->
  p ch_tab = false -> p ch_return = false ->
  forall c, p c = true -> plain c.
Proof.
  intros Hn Hs Ht Hr c Hc. split; [intros ->; congruence|].
  destruct (isBlank c) eqn:E; [|done]. unfold isBlank in E.
  apply orb_true_iff in E as [E|E%Ascii.eqb_eq]; [|congruence].
  apply orb_true_iff in E as [E%Ascii.eqb_eq|E%Ascii.eqb_eq]; congruence.
Qed.

Lemma isDigitChar_plain c : isDigitChar c = true -> plain c.
Proof. by apply plain_of. Qed.

Lemma isHexDigit_plain c : isHexDigit c = true -> plain c.
Proof. by apply plain_of. Qed.

Lemma isIdentPart_plain c : isIdentPart c = true -> plain c.
Proof. by apply plain_of. Qed.

Lemma is_plain (x c : ascii) :
  Ascii.eqb x ch_newline = false -> isBlank x = false -> c = x -> plain c.
Proof. intros Hn Hb ->. split; [|done]. intros ->. by rewrite Ascii.eqb_refl in Hn. Qed.

(* ---- runs ---- *)

Lemma run_empty P src a b : (b <= a)%nat -> run P src a b.
Proof. intros H i Hi. lia. Qed.

Lemma run_impl (P Q : ascii -> Prop) src a b :
  (forall c, P c -> Q c) -> run P src a b -> run Q src a b.
Proof. intros H Hr i Hi. destruct (Hr i Hi) as (c & ? & ?). eauto. Qed.

Lemma run_tail P src a b : run P src a b -> run P src (S a) b.
Proof. intros Hr i Hi. apply Hr. lia. Qed.

Lemma Took_refl P s : Took P s s.
Proof. split; [apply Moved_refl|]. apply run_empty. lia. Qed.

Lemma Took_trans P s1 s2 s3 : Took P s1 s2 -> Took P s2 s3 -> Took P s1 s3.
Proof.
  intros [Hm1 Hr1] [Hm2 Hr2]. split; [by eapply Moved_trans|].
  destruct Hm1 as [Hsrc _ _ _]. rewrite Hsrc in Hr2.
  intros i Hi. destruct (Nat.lt_ge_cases i (pos s2)); [apply Hr1|apply Hr2]; lia.
Qed.

Lemma Took_advance (P : ascii -> Prop) s :
  (forall c, String.get (pos s) (source s) = Some c -> P c) ->
  Took P s (advance s).
Proof.
  intros H. split; [apply advance_Moved|]. intros i Hi.
  pose proof (advance_pos_le s). assert (i = pos s) as -> by lia.
  destruct (String.get (pos s) (source s)) as [c|] eqn:E; [by eauto|].
  unfold advance in Hi. rewrite E in Hi. lia.
Qed.

Lemma Took_scanWhile (P : ascii -> Prop) p s :
  (forall c, p c = true -> P c) -> Took P s (scanWhile p s).
Proof.
  intros H. split; [apply scanWhile_Moved|]. intros i Hi.
  destruct (advanceWhile_consumed _ p s i Hi) as (c & ? & ?). eauto.
Qed.

Lemma Took_iter (P : ascii -> Prop) n s :
  (pos s + n <= String.length (source s))%nat ->
  (forall k c, (k < n)%nat -> String.get (pos s + k) (source s) = Some c -> P c) ->
  Took P s (Nat.iter n advance s).
Proof.
  induction n as [|n IH]; intros Hlen H; simpl; [apply Took_refl|].
  eapply Took_trans; [apply IH; [lia|]; intros k c ?; apply H; lia|].
  apply Took_advance. intros c.
  pose proof (iter_advance_Moved n s) as [-> _ _ _].
  rewrite iter_advance_pos by lia. apply H. lia.
Qed.

(* ---- the suffix of a duration ---- *)

Lemma prefix_get (p rest : string) (k : nat) :
  String.prefix p rest = true -> (k < String.length p)%nat ->
  String.get k rest = String.get k p.
Proof.
  revert rest k. induction p as [|a p IH]; intros [|b rest] k; simpl; try done; try lia.
  destruct (Ascii.ascii_dec a b) as [->|]; [|done].
  intros H Hk. destruct k as [|k]; [done|]. apply IH; [done|lia].
Qed.

Lemma durationMatch_plain rest n :
  durationMatch rest = Some n ->
  forall k, (k < n)%nat -> exists c, String.get k rest = Some c /\ plain c.
Proof.
  unfold durationMatch.
  repeat case_match; intros [= <-] k Hk;
    match goal with
    | H : String.prefix ?p rest && _ = true |- _ =>
        apply andb_prop in H as [H _];
        rewrite (prefix_get p rest k H) by (simpl; lia)
    end;
    destruct k as [|[|[|k]]]; simpl; try lia;
    (eexists; split; [reflexivity|]; by split).
Qed.

Lemma get_rest src a k c :
  String.get k (slice src a (String.length src)) = Some c ->
  String.get (a + k) src = Some c.
Proof.
  intros H. pose proof (get_Some_lt _ _ _ H) as Hk.
  pose proof (length_substring_le src a (String.length src - a)).
  unfold slice in *.
  rewrite String.substring_correct1 in H by lia.
  by rewrite Nat.add_comm.
Qed.

(* ---- what a scanner pushes ---- *)

Lemma emitFrom_PushesOne start s type :
  Took (Inner type) start s ->
  (pos start <= String.length (source start))%nat ->
  PushesOne start (emitFrom start s type).
Proof.
  intros [[Hsrc Htok Hpos Hbound] Hrun] Hin. unfold emitFrom, pushToken.
  split; [done|]. split; [done|]. eexists. simpl.
  split; [by rewrite Htok|]. split.
  - unfold makeSpan, slice. rewrite Hsrc.
    rewrite length_substring; [done|]. specialize (Hbound Hin). lia.
  - by apply run_tail.
Qed.

Lemma emitChars_PushesOne s n type value :
  (pos s + n <= String.length (source s))%nat ->
  run (Inner type) (source s) (S (pos s)) (pos s + n) ->
  PushesOne s (emitChars s n type value).
Proof.
  intros Hlen Hrun. unfold emitChars, pushToken.
  pose proof (iter_advance_Moved n s) as [Hsrc Htok _ _].
  pose proof (iter_advance_pos n s Hlen) as Hpos.
  split; [done|]. simpl. split; [lia|]. eexists.
  split; [by rewrite Htok|]. simpl. rewrite Hpos.
  replace (pos s + n - pos s)%nat with n by lia. done.
Qed.

Section Scanners.
Variable s : State.
Variable ch : ascii.
Hypothesis Hch : String.get (pos s) (source s) = Some ch.
Hypothesis Hplain : plain ch.

Lemma first_Took type : Took (Inner type) s (advance s).
Proof.
  apply Took_advance. intros c Hc. apply plain_Inner.
  rewrite Hch in Hc. by injection Hc as <-.
Qed.

Lemma scanString_PushesOne : PushesOne s (scanString s).
Proof.
  pose proof (cursor_in_source s ch Hch). unfold scanString. cbv zeta.
  set (s2 := scanWhile _ (advance s)).
  assert (Took (Inner TString) s s2) as Hm.
  { eapply Took_trans; [apply first_Took|].
    apply Took_scanWhile.
    intros c [_ Hc%negb_true_iff%Ascii.eqb_neq]%andb_prop.
    split; [done|by left]. }
  clearbody s2.
  apply emitFrom_PushesOne; [|lia].
  eapply Took_trans; [exact Hm|].
  destruct (String.get (pos s2) (source s2)) as [c|] eqn:E; [|apply Took_refl].
  destruct (Ascii.eqb c ch_quote) eqn:Hq; [|apply Took_refl].
  apply Took_advance. intros c' Hc'. apply plain_Inner.
  rewrite E in Hc'. injection Hc' as <-. apply Ascii.eqb_eq in Hq as ->. done.
Qed.

Lemma digits_Took type x : Took (Inner type) x (scanWhile isDigitChar x).
Proof.
  apply Took_scanWhile. intros c Hc. by apply plain_Inner, isDigitChar_plain.
Qed.

Lemma char_Took type x c :
  charIs (String.get (pos x) (source x)) c = true -> plain c ->
  Took (Inner type) x (advance x).
Proof.
  intros Hc%charIs_Some Hp. apply Took_advance. intros c' Hc'.
  apply plain_Inner. rewrite Hc in Hc'. by injection Hc' as <-.
Qed.

Lemma scanNumber_PushesOne : PushesOne s (scanNumber s).
Proof.
  pose proof (cursor_in_source s ch Hch) as Hin. unfold scanNumber.
  destruct (charIs _ _ && (_ || _)) eqn:Hhex.
  - apply emitFrom_PushesOne; [|lia].
    eapply Took_trans; [apply first_Took|].
    eapply Took_trans.
    + apply Took_advance. intros c.
      pose proof (advance_Moved s) as [-> _ _ _]. rewrite advance_pos by done.
      apply andb_prop in Hhex as [_ Hx]. unfold peek in Hx.
      replace (pos s + 1)%nat with (S (pos s)) in Hx by lia.
      intros Hc. rewrite Hc in Hx. simpl in Hx. apply plain_Inner.
      apply orb_true_iff in Hx as [->%Ascii.eqb_eq | ->%Ascii.eqb_eq]; done.
    + apply Took_scanWhile. intros c Hc. by apply plain_Inner, isHexDigit_plain.
  - set (s1 := scanWhile isDigitChar s).
    set (s2 := if _ && _ then _ else s1).
    assert (forall type, Took (Inner type) s s2) as Hm.
    { intros type. eapply Took_trans; [apply digits_Took|]. fold s1. subst s2.
      destruct (charIs (String.get (pos s1) (source s1)) "." && _) eqn:Hdot;
        [|apply Took_refl].
      apply andb_prop in Hdot as [Hdot _].
      eapply Took_trans; [by eapply char_Took|apply digits_Took]. }
    clearbody s2.
    destruct (charIs (String.get (pos s2) (source s2)) "%") eqn:Hpc.
    { apply emitFrom_PushesOne; [|lia].
      eapply Took_trans; [apply Hm|]. by eapply char_Took. }
    destruct (pos s2 <? String.length (source s2))%nat eqn:Hlt.
    2: { apply emitFrom_PushesOne; [apply Hm|lia]. }
    destruct (durationMatch _) as [n|] eqn:Hd.
    2: { apply emitFrom_PushesOne; [apply Hm|lia]. }
    apply emitFrom_PushesOne; [|lia].
    eapply Took_trans; [apply Hm|].
    apply Nat.ltb_lt in Hlt.
    pose proof (durationMatch_plain _ _ Hd) as Hchars.
    apply Took_iter.
    + destruct n as [|n]; [lia|].
      destruct (Hchars n ltac:(lia)) as (c & Hc%get_rest & _).
      apply get_Some_lt in Hc. lia.
    + intros k c Hk Hc.
      destruct (Hchars k Hk) as (c' & Hc'%get_rest & Hp).
      rewrite Hc in Hc'. injection Hc' as <-. by apply plain_Inner.
Qed.

Lemma scanJMessage_PushesOne : PushesOne s (scanJMessage s).
Proof.
  pose proof (cursor_in_source s ch Hch). unfold scanJMessage. cbv zeta.
  apply emitFrom_PushesOne; [|lia].
  eapply Took_trans; [apply first_Took|].
  eapply Took_trans; [apply digits_Took|].
  destruct (charIs _ _) eqn:Hsl; [|apply Took_refl].
  eapply Took_trans; [by eapply char_Took|apply digits_Took].
Qed.

Lemma scanIdentifier_PushesOne : PushesOne s (scanIdentifier s).
Proof.
  pose proof (cursor_in_source s ch Hch). unfold scanIdentifier. cbv zeta.
  repeat case_match; (apply emitFrom_PushesOne; [|lia]);
    apply Took_scanWhile; intros c Hc; by apply plain_Inner, isIdentPart_plain.
Qed.

Lemma emitOne_PushesOne type value : PushesOne s (emitChars s 1 type value).
Proof.
  pose proof (cursor_in_source s ch Hch).
  apply emitChars_PushesOne; [lia|]. apply run_empty. lia.
Qed.

Lemma scanOperator_PushesOne : PushesOne s (scanOperator s ch).
Proof.
  pose proof (cursor_in_source s ch Hch) as Hin. unfold scanOperator, emitSingle.
  repeat case_match; try apply emitOne_PushesOne.
  all: match goal with
       | H : Ascii.eqb ch _ && charIs (peek s 1) _ = true |- _ =>
           apply andb_prop in H as [_ Hn%charIs_Some];
           unfold peek in Hn; pose proof (get_Some_lt _ _ _ Hn);
           apply emitChars_PushesOne; [lia|];
           intros i Hi; assert (i = pos s + 1)%nat as -> by lia;
           eexists; split; [exact Hn|]; by apply plain_Inner
       end.
Qed.

End Scanners.

(* ---- the loop of [tokenize] ---- *)

(** One call of [scanToken] keeps every token classified. *)
Lemma scanToken_Classified s ch :
  String.get (pos s) (source s) = Some ch ->
  Forall (Classified (source s)) (tokens s) ->
  Forall (Classified (source s)) (tokens (scanToken s)).
Proof.
  intros Hch Hall. pose proof (cursor_in_source s ch Hch) as Hin.
  unfold scanToken. rewrite Hch.
  destruct (isBlank ch) eqn:Hb.
  { unfold scanWhitespace.
    by pose proof (scanWhile_Moved isBlank s) as [_ -> _ _]. }
  destruct (Ascii.eqb ch ch_newline) eqn:Hnl.
  { apply Ascii.eqb_eq in Hnl as ->.
    unfold emitChars, pushToken. simpl.
    pose proof (iter_advance_Moved 1 s) as [_ Htok _ _]. simpl in Htok.
    rewrite Htok. apply Forall_app. split; [done|]. constructor; [|constructor].
    exists (pos s), 1%nat. simpl. rewrite Hch.
    split; [done|]. split; [done|].
    split; [by intros c [= <-]|]. split; [done|].
    split; [done|]. apply run_empty. lia. }
  destruct (Ascii.eqb ch "-" && charIs (peek s 1) "-") eqn:Hc.
  { unfold scanComment. cbv zeta.
    set (s' := scanWhile _ s).
    pose proof (scanWhile_Moved (fun c => negb (Ascii.eqb c ch_newline)) s)
      as Hm. fold s' in Hm.
    pose proof (scanWhile_stops (fun c => negb (Ascii.eqb c ch_newline)) s)
      as Hstop. fold s' in Hstop.
    assert (Took (Inner TComment) s s') as Htook.
    { apply Took_scanWhile. intros c Hne%negb_true_iff%Ascii.eqb_neq.
      split; [done|by right]. }
    destruct (emitFrom_PushesOne s s' TComment Htook ltac:(lia))
      as (_ & Hle & t & Htok & Hspan & Hrun).
    assert (tk_type t = TComment) as Hty.
    { unfold emitFrom, pushToken in Htok. simpl in Htok.
      destruct Hm as [_ Hm _ _]. rewrite Hm in Htok.
      by apply app_inj_tail in Htok as [_ <-]. }
    rewrite Htok. apply Forall_app. split; [done|]. constructor; [|constructor].
    simpl in Hle, Hspan, Hrun.
    exists (pos s), (pos s' - pos s)%nat. rewrite Hspan. simpl. rewrite Hch.
    split; [done|]. split; [done|].
    split; [by intros c [= <-]|].
    split; [intros [= ->]; by rewrite Ascii.eqb_refl in Hnl|].
    replace (pos s + (pos s' - pos s))%nat with (pos s') by lia.
    split; [|done]. intros _ _. split; [done|].
    destruct Hm as [_ _ _ Hbound].
    destruct (String.get (pos s') (source s)) as [c|] eqn:E.
    - left. f_equal. apply negb_false_iff in Hstop. by apply Ascii.eqb_eq.
    - right. apply get_None_ge in E. lia. }
  set (s' := if Ascii.eqb ch ch_quote then _ else _).
  assert (plain ch) as Hplain.
  { split; [|done]. intros ->. by rewrite Ascii.eqb_refl in Hnl. }
  assert (PushesOne s s') as (_ & Hle & t & Htok & Hspan & Hrun).
  { subst s'. unfold emitSingle.
    repeat case_match;
      first [ by eapply scanString_PushesOne
            | by eapply scanNumber_PushesOne
            | by eapply scanJMessage_PushesOne
            | by eapply scanIdentifier_PushesOne
            | by eapply scanOperator_PushesOne
            | by eapply emitOne_PushesOne ]. }
  clearbody s'. rewrite Htok.
  apply Forall_app. split; [done|]. constructor; [|constructor].
  exists (pos s), (pos s' - pos s)%nat. rewrite Hspan. simpl. rewrite Hch.
  split; [done|]. split; [done|].
  split; [by intros c [= <-]|].
  split; [intros [= ->]; by rewrite Ascii.eqb_refl in Hnl|].
  replace (pos s + (pos s' - pos s))%nat with (pos s') by lia.
  split; [|done]. intros [= ->] Hnext. exfalso.
  unfold peek in Hc. replace (pos s + 1)%nat with (S (pos s)) in Hc by lia.
  rewrite Hnext in Hc. done.
Qed.

Lemma tokenizeLoop_Classified fuel : forall s s',
  tokenizeLoop fuel s = Some s' ->
  Forall (Classified (source s)) (tokens s) ->
  Forall (Classified (source s)) (tokens s')
  /\ source s' = source s
  /\ (String.length (source s) <= pos s')%nat.
Proof.
  induction fuel as [|fuel IH]; intros s s'; simpl.
  - destruct (Nat.ltb_spec (pos s) (String.length (source s))); [done|].
    by intros [= <-].
  - destruct (Nat.ltb_spec (pos s) (String.length (source s))) as [Hlt|];
      [|by intros [= <-]].
    intros Hrun Hall. destruct (get_lt_Some _ _ Hlt) as [ch Hch].
    destruct (scanToken_Scanned s ch Hch) as [Hsrc _ _ _].
    rewrite <- Hsrc. apply IH; [done|]. rewrite Hsrc.
    by eapply scanToken_Classified.
Qed.

(** Every token of [tokenize] is classified. *)
Lemma tokenize_Classified (src : string) (fuel : nat) (toks : list Token) :
  tokenize fuel src = Some toks -> Forall (Classified src) toks.
Proof.
  unfold tokenize.
  destruct (tokenizeLoop fuel (mkState src 0 1 1 [])) as [s'|] eqn:Hrun; [|done].
  simpl. intros [= <-].
  destruct (tokenizeLoop_Classified fuel _ _ Hrun ltac:(constructor))
    as (Hall & Hsrc & Hend).
  simpl in Hall, Hsrc, Hend.
  apply Forall_app. split; [done|]. constructor; [|constructor].
  assert (String.get (pos s') src = None) as Hnone.
  { destruct (String.get (pos s') src) as [c|] eqn:E; [|done].
    apply get_Some_lt in E. lia. }
  exists (pos s'), 0%nat. simpl. rewrite Hnone.
  split; [done|]. split; [done|]. split; [done|]. split; [done|].
  split; [done|]. apply run_empty. lia.
Qed.

(** A token that covers a character starts at it or holds it after its
    first character. *)
Lemma Classified_covers src t i c :
  Classified src t -> covers t i -> String.get i src = Some c ->
  (sp_offset (tk_span t) = Z.of_nat i /\ isBlank c = false)
  \/ Inner (tk_type t) c.
Proof.
  intros (a & n & Ha & Hn & Hfirst & _ & _ & Hrun) Hcov Hc.
  unfold covers in Hcov. rewrite Ha, Hn in Hcov.
  destruct (decide (a = i)) as [->|Hne].
  - left. split; [done|]. by apply Hfirst.
  - right. destruct (Hrun i ltac:(lia)) as (c' & Hc' & Hin). congruence.
Qed.

End LexerTriviaFacts.

Module TriviaClaims.
Import Lexer LexerSpec StringFacts LexerFacts LexerOutput LexerOutputFacts.
Import LexerTrivia LexerTriviaFacts.

(** C7 (as amended): the tokens of [tokenize] hold no Whitespace token, and
    a space, tab or carriage return of the source is in no token but a
    String or a Comment: the lexer itself drops the blanks between tokens.
    Newlines and comments stay in the tokens of [tokenize]: every newline of
    the source has its Newline token, at its offset and one character long,
    and every [--] that is not inside another token starts a Comment token
    that holds the text up to the end of the line. *)
Theorem lexer_drops_blanks_keeps_newlines_and_comments
    (src : string) (fuel : nat) :
  (String.length src <= fuel)%nat ->
  exists toks,
    tokenize fuel src = Some toks
    /\ Forall (fun t => tk_type t <> TWhitespace) toks
    /\ (forall i c, String.get i src = Some c -> isBlank c = true ->
          Forall (fun t => covers t i ->
                           tk_type t = TString \/ tk_type t = TComment) toks)
    /\ (forall i, String.get i src = Some ch_newline ->
          Exists (fun t => tk_type t = TNewline
                           /\ tk_value t = String ch_newline EmptyString
                           /\ sp_offset (tk_span t) = Z.of_nat i
                           /\ sp_length (tk_span t) = 1) toks)
    /\ (forall i, String.get i src = Some "-"%char ->
          String.get (S i) src = Some "-"%char ->
          Forall (fun t => ~ inside t i) toks ->
          exists e, lineEnd src i e
                    /\ Exists (fun t => tk_type t = TComment
                                        /\ tk_value t = slice src i e
                                        /\ sp_offset (tk_span t) = Z.of_nat i
                                        /\ sp_length (tk_span t) = Z.of_nat (e - i))
                              toks).
Proof.
  intros Hfuel.
  destruct (tokenize_Lexed src fuel Hfuel)
    as (front & eof & Hrun & _ & Heof & _ & _ & Hfa & _ & Hco & _).
  destruct (tokenize_returns src fuel Hfuel) as (front' & eof' & Hrun' & _ & _ & _ & Hty).
  rewrite Hrun in Hrun'. injection Hrun' as Heq. rewrite <- Heq in Hty.
  clear Heq front' eof'.
  set (toks := front ++ [eof]) in *.
  assert (Forall (Faithful src) toks) as Hfaith.
  { apply Forall_app. split; [done|]. by constructor. }
  pose proof (tokenize_Classified src fuel toks Hrun) as Hcl.
  assert (forall i c, String.get i src = Some c -> isBlank c = false ->
            exists t, t ∈ toks /\ covers t i) as Hcov.
  { intros i c Hc Hb.
    assert (Exists (fun t => covers t i) toks) as H.
    { apply Exists_app. left. apply (Hco i c); try done.
      by eapply get_Some_lt. }
    by apply Exists_exists in H. }
  exists toks. split; [done|]. split; [done|]. split; [|split].
  - intros i c Hc Hb. eapply Forall_impl; [exact Hcl|]. intros t Ht Hcovers.
    destruct (Classified_covers src t i c Ht Hcovers Hc) as [[_ Hnb]|[_ Hin]];
      [congruence|by apply Hin].
  - intros i Hc. destruct (Hcov i _ Hc eq_refl) as (t & Hin & Hcovers).
    apply Exists_exists. exists t. split; [done|].
    rewrite Forall_forall in Hcl, Hfaith.
    pose proof (Hcl t Hin) as Ht.
    destruct (Classified_covers src t i _ Ht Hcovers Hc) as [[Hoff _]|[Hne _]];
      [|done].
    destruct Ht as (a & n & Ha & Hn & _ & Hnl & _).
    assert (a = i) as -> by lia. destruct (Hnl Hc) as [Hty' ->].
    destruct (Hfaith t Hin) as (a' & n' & Ha' & Hn' & _ & Hval & _).
    assert (a' = i) as -> by lia. assert (n' = 1%nat) as -> by lia.
    rewrite (substring_S _ _ _ _ Hc), substring_none in Hval.
    repeat split; done.
  - intros i Hc Hnext Hout.
    destruct (Hcov i _ Hc eq_refl) as (t & Hin & Hcovers).
    rewrite Forall_forall in Hcl, Hfaith, Hout.
    pose proof (Hout t Hin) as Hnot. unfold inside in Hnot. unfold covers in Hcovers.
    destruct (Hcl t Hin) as (a & n & Ha & Hn & _ & _ & Hcom & Hinner).
    assert (a = i) as -> by lia.
    destruct (Hcom Hc Hnext) as [Hty' Hend].
    exists (i + n)%nat. split.
    + split; [lia|]. split; [|done]. intros j Hj.
      destruct (decide (j = i)) as [->|Hne]; [by rewrite Hc|].
      destruct (Hinner j ltac:(lia)) as (c & -> & Hne' & _). by intros [= ->].
    + apply Exists_exists. exists t. split; [done|].
      destruct (Hfaith t Hin) as (a' & n' & Ha' & Hn' & _ & Hval & _).
      assert (a' = i) as -> by lia. assert (n' = n) as -> by lia.
      unfold slice. replace (i + n - i)%nat with n by lia. done.
Qed.

Lemma lexer_drops_blanks_keeps_newlines_and_comments_witness :
  exists toks,
    tokenize 8 twoLines = Some toks
    /\ Forall (fun t => tk_type t <> TWhitespace) toks
    /\ (forall i c, String.get i twoLines = Some c -> isBlank c = true ->
          Forall (fun t => covers t i ->
                           tk_type t = TString \/ tk_type t = TComment) toks)
    /\ (forall i, String.get i twoLines = Some ch_newline ->
          Exists (fun t => tk_type t = TNewline
                           /\ tk_value t = String ch_newline EmptyString
                           /\ sp_offset (tk_span t) = Z.of_nat i
                           /\ sp_length (tk_span t) = 1) toks)
    /\ (forall i, String.get i twoLines = Some "-"%char ->
          String.get (S i) twoLines = Some "-"%char ->
          Forall (fun t => ~ inside t i) toks ->
          exists e, lineEnd twoLines i e
                    /\ Exists (fun t => tk_type t = TComment
                                        /\ tk_value t = slice twoLines i e
                                        /\ sp_offset (tk_span t) = Z.of_nat i
                                        /\ sp_length (tk_span t) = Z.of_nat (e - i))
                              toks).
Proof.
  apply (lexer_drops_blanks_keeps_newlines_and_comments twoLines 8).
  vm_compute. lia.
Defined.

End TriviaClaims.

